(** * whole_brain_encoder: parcel readout, unwrap reconstruction and the
      train / evaluate loops

    Shallow embedding of [models/brain_encoder.py] (the parcel mask built in
    [brain_encoder.__init__], [brain_encoder.forward] and the readout at its
    end), of [engine.py] ([unwrap_fmri], [train_one_epoch], [evaluate],
    [test]) and of the array computations of [plot_run_results.py]
    ([suppress_print], the correlation maps of [plot_run_results], the ROI
    averages of [plot_roi_correlation]).

    Conventions.
    - A tensor is a nested list, outermost axis first.  An axis of extent
      zero leaves no trace of the inner extents in a nested list; where the
      source keeps such an extent it is passed along as a number.
    - Tensor entries live in a type [F] with the operations of the class
      [Scalar].  Results that use laws of the arithmetic ask for
      [ExactScalar] (adding zero, multiplying by one) and for [FiniteScalar]
      (multiplying by zero, which gives zero on finite entries only: in
      IEEE arithmetic [inf * 0] and [nan * 0] are NaN).  Rounding of IEEE
      arithmetic is not modelled; overflow to an infinity is, in
      [float_add] and [float_mul].
    - A Python float (a loss, a correlation, [max_norm]) is an exact
      rational, an infinity or NaN ([pyfloat]).  The running sums of losses
      are exact ([pf_add]); the sums of float64 array entries overflow to an
      infinity ([np_add]).
    - Index tensors hold integers ([Z]); extents are [nat].
    - A raised exception is [None].
    - The collaborators of the engine (model, criterion, optimizer,
      [torch.corrcoef], the loggers) are parameters; what a run does to them
      is recorded as a trace of events. *)

From stdpp Require Import base list option numbers strings.
From Stdlib Require Import QArith Qcanon.

Open Scope Z_scope.
Open Scope nat_scope.

(** ** Scalars *)

Class Scalar (F : Type) := {
  fzero : F;
  fone : F;
  fadd : F → F → F;
  fmul : F → F → F;
}.

(** The laws of zero and one that hold of every entry, finite or not:
    adding zero and multiplying by one change nothing. *)
Class ExactScalar (F : Type) `{Scalar F} : Prop := {
  fadd_0_l : ∀ x : F, fadd fzero x = x;
  fadd_0_r : ∀ x : F, fadd x fzero = x;
  fmul_1_r : ∀ x : F, fmul x fone = x;
  fone_neq_fzero : (fone : F) ≠ fzero;
}.

(** Multiplication by zero gives zero on the entries that are [ffinite].
    For floats these are the finite ones, and no others: [inf * 0] and
    [nan * 0] are NaN. *)
Class FiniteScalar (F : Type) `{Scalar F} (ffinite : F → Prop) : Prop := {
  fmul_0_r : ∀ x : F, ffinite x → fmul x fzero = fzero;
}.

(** ** Tensor primitives *)

(** Exchange of the two outer axes of a nested list whose inner lists have
    [ncols] entries: [m.permute(1, 0)] on a matrix. *)
Fixpoint transpose {A : Type} (ncols : nat) (m : list (list A))
  : list (list A) :=
  match m with
  | [] => replicate ncols []
  | r :: m' => zip_with cons r (transpose ncols m')
  end.

(** A loop whose body may raise. *)
Fixpoint foldlM {S A : Type} (body : S → A → option S) (s : S) (l : list A)
  : option S :=
  match l with
  | [] => Some s
  | x :: l' => s' ← body s x; foldlM body s' l'
  end.

(** Expansion of a tensor axis to extent [n]: the axis already has extent
    [n], or it has extent one and its entry is repeated; any other extent
    raises. *)
Definition broadcast_to {A : Type} (n : nat) (l : list A) : option (list A) :=
  if length l =? n then Some l
  else match l with
       | [x] => Some (replicate n x)
       | _ => None
       end.

(** [row[m]] for a boolean mask [m]: the entries at the true positions, in
    order; a mask of another length raises. *)
Definition select_mask {A : Type} (row : list A) (m : list bool)
  : option (list A) :=
  if length row =? length m
  then Some ((filter (λ xb, Is_true xb.2) (zip row m)).*1)
  else None.

(** An index into an axis of extent [n], as advanced indexing reads it: a
    negative index counts from the end; outside [-n, n) it raises. *)
Definition norm_index (n : nat) (i : Z) : option nat :=
  if bool_decide (0 ≤ i < Z.of_nat n)%Z then Some (Z.to_nat i)
  else if bool_decide (- Z.of_nat n ≤ i < 0)%Z then Some (Z.to_nat (i + Z.of_nat n))
  else None.

Section Tensor.
Context {F : Type} `{Scalar F}.

(** [torch.zeros(n)] *)
Definition zeros (n : nat) : list F := replicate n fzero.

(** [self.scatter_(0, index, value)] on a 1-D tensor: [self[index[k]] = value]
    for every [k]; an index outside [0, len(self)) raises. *)
Fixpoint scatter_ (self : list F) (index : list Z) (value : F)
  : option (list F) :=
  match index with
  | [] => Some self
  | i :: index' =>
      if bool_decide (0 ≤ i < Z.of_nat (length self))%Z
      then scatter_ (<[Z.to_nat i := value]> self) index' value
      else None
  end.

(** [torch.stack(tensors)] of 1-D tensors: raises on an empty list and on
    tensors of different sizes. *)
Definition stack (tensors : list (list F)) : option (list (list F)) :=
  match tensors with
  | [] => None
  | t :: ts =>
      if forallb (λ u, length u =? length t) ts then Some tensors else None
  end.

(** [torch.vstack(tensors)] of 2-D tensors: the rows of all tensors in
    order; raises on an empty list and on rows of different widths. *)
Definition vstack (tensors : list (list (list F))) : option (list (list F)) :=
  match tensors with
  | [] => None
  | _ =>
      match concat tensors with
      | [] => Some []
      | r :: rows =>
          if forallb (λ u, length u =? length r) rows
          then Some (r :: rows) else None
      end
  end.

(** [t.flatten()] of a 2-D tensor. *)
Definition flatten (t : list (list F)) : list F := concat t.

(** [torch.sum] along one axis, accumulated from zero. *)
Definition tsum (l : list F) : F := foldl fadd fzero l.

(** Entry [(i, j)] of a matrix. *)
Definition entry (m : list (list F)) (i j : nat) : option F :=
  m !! i ≫= (.!! j).

(** Column [j] of a matrix, [m[:, j]]. *)
Definition column (m : list (list F)) (j : nat) : option (list F) :=
  mapM (.!! j) m.

(** The count [k] as a scalar: [k] ones added up. *)
Definition of_count (k : nat) : F := Nat.iter k (λ a, fadd a fone) fzero.

(** Element-wise product of two vectors under broadcasting. *)
Definition bmul1 (x y : list F) : option (list F) :=
  if length x =? length y then Some (zip_with fmul x y)
  else match x, y with
       | [a], _ => Some (fmul a <$> y)
       | _, [b] => Some ((λ a, fmul a b) <$> x)
       | _, _ => None
       end.

(** Element-wise product of two matrices under broadcasting. *)
Definition bmul2 (x y : list (list F)) : option (list (list F)) :=
  if length x =? length y then mapM (λ xy, bmul1 xy.1 xy.2) (zip x y)
  else match x, y with
       | [r], _ => mapM (bmul1 r) y
       | _, [r] => mapM (λ xr, bmul1 xr r) x
       | _, _ => None
       end.

End Tensor.

(** ** The dataset interface *)

Record Dataset := {
  parcels : list (list Z);          (* one index tensor per parcel *)
  mask : list (list bool);          (* (num_parcels, max_parcel_size) *)
  labels : list (list Z);           (* (num voxels, k); column 0 is used *)
  num_parcels : nat;
  num_hemi_voxels : nat;
  max_parcel_size : nat;
}.

(** ** [brain_encoder.__init__]: the parcel mask *)

Section ParcelMask.
Context {F : Type} `{Scalar F}.

(** [torch.stack([torch.zeros(n).scatter_(0, parcel, 1) for parcel in
    parcels]).permute(1, 0)] *)
Definition build_parcel_mask (num_voxels : nat) (parcel_list : list (list Z))
  : option (list (list F)) :=
  rows ← mapM (λ parcel, scatter_ (zeros num_voxels) parcel fone) parcel_list;
  stacked ← stack rows;
  Some (transpose num_voxels stacked).

(** Membership indicator of voxel [v] in a parcel. *)
Definition indicator (parcel : list Z) (v : nat) : F :=
  if bool_decide (Z.of_nat v ∈ parcel) then fone else fzero.

(** The mask as the specification words it: entry [(v, p)] is 1 iff voxel
    [v] is listed in parcel [p], else 0. *)
Definition membership_matrix (num_voxels : nat) (parcel_list : list (list Z))
  : list (list F) :=
  (λ v, (λ parcel, indicator parcel v) <$> parcel_list) <$> seq 0 num_voxels.

(** All listed indices lie in [0, num_voxels). *)
Definition in_range (num_voxels : nat) (parcel_list : list (list Z)) : Prop :=
  ∀ parcel i, parcel ∈ parcel_list → i ∈ parcel →
    (0 ≤ i < Z.of_nat num_voxels)%Z.

(** No index is listed by two different parcels. *)
Definition pairwise_disjoint (parcel_list : list (list Z)) : Prop :=
  ∀ p q parcel_p parcel_q i,
    parcel_list !! p = Some parcel_p → parcel_list !! q = Some parcel_q →
    i ∈ parcel_p → i ∈ parcel_q → p = q.

(** [nn.Linear(in_features, out_features)]: weight of shape
    [(out_features, in_features)], bias of shape [(out_features)]. *)
Record Linear := {
  in_features : nat;
  out_features : nat;
  weight : list (list F);
  bias : list F;
}.

Definition Linear_shape (l : Linear) : Prop :=
  length (weight l) = out_features l ∧
  Forall (λ w, length w = in_features l) (weight l) ∧
  length (bias l) = out_features l.

Definition dot (x w : list F) : F := tsum (zip_with fmul x w).

(** The layer on one vector: [x W^T + b]; a vector of another size than
    [in_features] raises. *)
Definition Linear_forward (l : Linear) (x : list F) : option (list F) :=
  if length x =? in_features l
  then Some (zip_with (λ w b, fadd (dot x w) b) (weight l) (bias l))
  else None.

(** The fields of [brain_encoder] the readout uses. *)
Record brain_encoder := {
  num_queries : nat;
  hidden_dim : nat;
  self_max_parcel_size : nat;
  self_num_parcels : nat;
  parcel_mask : list (list F);
  embed : Linear;
}.

(** [brain_encoder.__init__], from the transformer width [d_model] on;
    [new_linear] stands for the initialisation of [nn.Linear]. *)
Definition brain_encoder_init (d_model : nat) (new_linear : nat → nat → Linear)
    (dataset : Dataset) : option brain_encoder :=
  pm ← build_parcel_mask (num_hemi_voxels dataset) (parcels dataset);
  Some {| num_queries := num_parcels dataset;
          hidden_dim := d_model;
          self_max_parcel_size := max_parcel_size dataset;
          self_num_parcels := num_parcels dataset;
          parcel_mask := pm;
          embed := new_linear d_model (num_hemi_voxels dataset) |}.

(** The readout at the end of [brain_encoder.forward]:
    [pred = self.embed(output_tokens)], [torch.movedim(pred, 1, -1)],
    [pred * self.parcel_mask], [torch.sum(pred, dim=-1)]. *)
Definition readout (self : brain_encoder) (output_tokens : list (list (list F)))
  : option (list (list F)) :=
  pred ← mapM (mapM (Linear_forward (embed self))) output_tokens;
  let pred : list (list (list F)) :=
    transpose (out_features (embed self)) <$> pred in
  pred ← mapM (λ x, bmul2 x (parcel_mask self)) pred;
  Some ((λ x : list (list F), tsum <$> x) <$> pred).

(** One sample of the batch through the readout. *)
Definition readout_sample (self : brain_encoder) (toks : list (list F))
  : option (list F) :=
  projs ← mapM (Linear_forward (embed self)) toks;
  x ← bmul2 (transpose (out_features (embed self)) projs) (parcel_mask self);
  Some (tsum <$> (x : list (list F))).

(** The values the parcels that list voxel [v] project to it, in parcel
    order; [projs] holds one projected vector per parcel. *)
Definition contributions (parcel_list : list (list Z)) (projs : list (list F))
    (v : nat) : list F :=
  omap (λ pr, if bool_decide (Z.of_nat v ∈ pr.1) then pr.2 !! v else None)
       (zip parcel_list projs).

(** The values that the parcels which do not list voxel [v] project to it
    are [ffinite]: their products with the zeros of the mask are zero. *)
Definition masked_out_finite (ffinite : F → Prop)
    (parcel_list : list (list Z)) (projs : list (list F)) (v : nat) : Prop :=
  ∀ p parcel proj x,
    parcel_list !! p = Some parcel → Z.of_nat v ∉ parcel →
    projs !! p = Some proj → proj !! v = Some x → ffinite x.

End ParcelMask.

Arguments Linear F : clear implicits.
Arguments brain_encoder F : clear implicits.

(** ** [engine.unwrap_fmri] *)

Section Unwrap.
Context {F : Type} `{Scalar F}.

(** [dataset.labels[:, 0]] *)
Definition labels_col0 (dataset : Dataset) : option (list Z) :=
  mapM head (labels dataset).

(** [fmri_data.permute(1, 0, 2)]: batch-major to parcel-major.  The parcel
    extent is read off the first batch row; on an empty batch there is
    nothing to write and the loop below has no iteration. *)
Definition permute_1_0_2 (t : list (list (list F))) : list (list (list F)) :=
  transpose (match t with [] => 0 | x :: _ => length x end) t.

(** A row after the writes [row[j] = x], applied in order. *)
Definition apply_writes (row : list F) (ws : list (nat * F)) : list F :=
  foldl (λ r w, <[w.1 := w.2]> r) row ws.

(** [recon[:, idxs] = value] on a tensor with [ncols] columns: direct
    assignment (no accumulation) of column [k] of [value] to column
    [idxs[k]], row by row; [value] is broadcast to the extent of the target.
    The writes are applied in index order, so that of two writes to one
    column the later stands.  What a row does with its writes is left to
    [put], so that the same loop yields the reconstruction and the record of
    its writes. *)
Definition assign_columns {S : Type} (put : S → list (nat * F) → S)
    (ncols : nat) (recon : list S) (idxs : list Z) (value : list (list F))
  : option (list S) :=
  js ← mapM (norm_index ncols) idxs;
  value ← broadcast_to (length recon) value;
  mapM (λ sv : S * list F,
          vs ← broadcast_to (length idxs) sv.2;
          Some (put sv.1 (zip js vs)))
       (zip recon value).

(** The loop of [unwrap_fmri] over
    [zip(dataset.parcels, fmri_data.permute(1, 0, 2), dataset.mask)],
    started from [batch_size] rows [init]. *)
Definition unwrap_loop {S : Type} (put : S → list (nat * F) → S) (init : S)
    (ncols batch_size : nat) (fmri_data : list (list (list F)))
    (dataset : Dataset) : option (list S) :=
  foldlM (λ recon (pbm : list Z * (list (list F) * list bool)),
            value ← mapM (λ r, select_mask r pbm.2.2) pbm.2.1;
            assign_columns put ncols recon pbm.1 value)
         (replicate batch_size init)
         (zip (parcels dataset) (zip (permute_1_0_2 fmri_data) (mask dataset))).

Definition unwrap_fmri (batch_size : nat) (fmri_data : list (list (list F)))
    (dataset : Dataset) (metaparcel_idx : Z) : option (list (list F)) :=
  lbl ← labels_col0 dataset;
  recon ← unwrap_loop apply_writes (zeros (length lbl)) (length lbl)
            batch_size fmri_data dataset;
  mapM (λ row : list F,
          select_mask row ((λ l, bool_decide (l = metaparcel_idx)) <$> lbl))
       recon.

(** The writes [unwrap_fmri] performs on each row of [recon], in order. *)
Definition unwrap_writes (batch_size : nat) (fmri_data : list (list (list F)))
    (dataset : Dataset) : option (list (list (nat * F))) :=
  lbl ← labels_col0 dataset;
  unwrap_loop (λ log ws, log ++ ws) [] (length lbl) batch_size fmri_data dataset.

(** Number of valid slots of a validity-mask row. *)
Definition count_true (m : list bool) : nat := length (filter Is_true m).

(** [dataset.mask.sum()] *)
Definition mask_sum (m : list (list bool)) : nat := count_true (concat m).

(** One validity-mask row per parcel, with as many valid slots as the parcel
    lists voxels. *)
Definition slots_match (dataset : Dataset) : bool :=
  (length (parcels dataset) =? length (mask dataset)) &&
  forallb (λ im : list Z * list bool, length im.1 =? count_true im.2)
          (zip (parcels dataset) (mask dataset)).

(** The slots of one parcel: the values in order at the valid slots, zero at
    the padding slots. *)
Fixpoint fill_slots (m : list bool) (vals : list F) : list F :=
  match m with
  | [] => []
  | true :: m' =>
      match vals with
      | x :: vals' => x :: fill_slots m' vals'
      | [] => fzero :: fill_slots m' []
      end
  | false :: m' => fzero :: fill_slots m' vals
  end.

(** The value a dense row holds at voxel [j]. *)
Definition gather (row : list F) (j : nat) : F := default fzero (row !! j).

(** Modelled from the spec: the parcel-slot packing that [unwrap_fmri]
    inverts is produced by the dataset code, which is not among the sources.
    Following §4.4 and §8.3, a dense voxel vector is packed parcel by
    parcel: the valid slots of parcel [p] hold, in order, the values at the
    voxels its index list names; padding slots hold zero.  Packing is
    defined for a dataset whose validity mask matches its parcels and whose
    indices address the voxel space, and for dense rows over that space. *)
Definition pack (dataset : Dataset) (dense : list (list F))
  : option (list (list (list F))) :=
  lbl ← labels_col0 dataset;
  jss ← mapM (mapM (norm_index (length lbl))) (parcels dataset);
  if slots_match dataset && forallb (λ row : list F, length row =? length lbl) dense
  then Some ((λ row : list F,
                zip_with (λ js m, fill_slots m (gather row <$> js))
                         jss (mask dataset)) <$> dense)
  else None.

(** Voxel [v] is named by the index list of some parcel. *)
Definition covered (ncols : nat) (dataset : Dataset) (v : nat) : bool :=
  existsb (λ idxs : list Z,
             existsb (λ i, bool_decide (norm_index ncols i = Some v)) idxs)
          (parcels dataset).

(** Number of parcel slots that name voxel [v]. *)
Definition multiplicity (ncols : nat) (dataset : Dataset) (v : nat) : nat :=
  length (filter (λ i, norm_index ncols i = Some v) (concat (parcels dataset))).

(** No voxel is named twice, within a parcel or by two parcels. *)
Definition disjoint_slots (ncols : nat) (dataset : Dataset) : Prop :=
  NoDup (omap (norm_index ncols) (concat (parcels dataset))).

(** The dense row as it reads after reconstruction: kept at the covered
    voxels, zero elsewhere. *)
Definition keep_covered (dataset : Dataset) (row : list F) : list F :=
  imap (λ v x, if covered (length row) dataset v then x else fzero) row.

(** The number of columns [unwrap_fmri] returns. *)
Definition subset_size (dataset : Dataset) (metaparcel_idx : Z) : nat :=
  match labels_col0 dataset with
  | Some lbl => count_true ((λ l, bool_decide (l = metaparcel_idx)) <$> lbl)
  | None => 0
  end.

(** Restriction of a row to the voxels labelled [metaparcel_idx]. *)
Definition restrict (lbl : list Z) (metaparcel_idx : Z) (row : list F) : list F :=
  (filter (λ xl : F * Z, xl.2 = metaparcel_idx) (zip row lbl)).*1.

End Unwrap.

(** ** Python floats *)

(** A float is an exact rational, an infinity or NaN. *)
Inductive pyfloat :=
| Fin (q : Qc)
| Inf (negative : bool)
| NaN.

(** [math.isfinite] *)
Definition isfinite (x : pyfloat) : bool :=
  match x with Fin _ => true | _ => false end.

Definition pf_add (x y : pyfloat) : pyfloat :=
  match x, y with
  | NaN, _ | _, NaN => NaN
  | Fin a, Fin b => Fin (a + b)%Qc
  | Inf s, Fin _ | Fin _, Inf s => Inf s
  | Inf s, Inf t => if Bool.eqb s t then Inf s else NaN
  end.

(** Division by a count: by zero it gives NaN or an infinity. *)
Definition pf_div_count (x : pyfloat) (n : nat) : pyfloat :=
  match x with
  | Fin q =>
      if n =? 0
      then if bool_decide (q = 0%Qc) then NaN else Inf (bool_decide (q < 0)%Qc)
      else Fin (q / Qc_of_Z (Z.of_nat n))%Qc
  | _ => x
  end.

(** [x > 0] *)
Definition pf_gt0 (x : pyfloat) : bool :=
  match x with
  | Fin q => bool_decide (0 < q)%Qc
  | Inf negative => negb negative
  | NaN => false
  end.

(** ** What a run does to the outside *)

Inductive printed :=
| LossIsStopping (loss_value : pyfloat)   (* "Loss is {}, stopping training" *)
| LossValue (loss_value : pyfloat)
| AveragedStats.

Inductive event :=
| EvMaskSum                      (* [dataset.mask.sum()] is evaluated *)
| EvForward (training grad_enabled : bool)
| EvPrint (p : printed)
| EvZeroGrad
| EvBackward
| EvClipGradNorm (max_norm : pyfloat)
| EvOptimizerStep
| EvMeterUpdate (name : string) (value : pyfloat)
| EvWandbLog (training_loss : pyfloat) (epoch : Z) (training_corr : pyfloat)
             (batch : Z)
| EvSynchronize.

(** How a call ends: it returns, the process exits ([sys.exit]), or an
    exception propagates. *)
Inductive outcome (A : Type) :=
| Returned (a : A)
| SysExit (code : Z)
| Raised.
Arguments Returned {A} a.
Arguments SysExit {A} code.
Arguments Raised {A}.

Record Args := { metaparcel_idx : Z }.

(** [print_freq = 10] *)
Definition print_freq : nat := 10.

(** ** [engine.train_one_epoch] and [engine.evaluate] *)

Section Engine.
Context {F : Type} `{Scalar F}.
Context {Imgs Model Optimizer Grads : Type}.

(** The collaborators, which the engine only calls. *)
Variable forward : bool → Model → Imgs → list (list (list F)).
Variable criterion : list (list (list F)) → list (list (list F)) → pyfloat.
Variable zero_grad : Grads → Grads.
Variable backward : Model → Imgs → list (list (list F)) → nat → Grads → Grads.
Variable clip_grad_norm_ : pyfloat → Grads → Grads.
Variable optimizer_step : Optimizer → Model → Grads → Optimizer * Model.
Variable learning_rate : Optimizer → pyfloat.
Variable corrcoef_0_1 : list (list F) → pyfloat.

(** The mutable objects a call works on, and the events so far. *)
Record world := {
  model : Model;
  training : bool;
  grad_enabled : bool;
  optimizer : Optimizer;
  grads : Grads;
  trace : list event;
}.

Definition M (A : Type) : Type := world → outcome A * world.

Definition ret {A : Type} (a : A) : M A := λ w, (Returned a, w).

Definition bind {A B : Type} (m : M A) (k : A → M B) : M B :=
  λ w, match m w with
       | (Returned a, w') => k a w'
       | (SysExit code, w') => (SysExit code, w')
       | (Raised, w') => (Raised, w')
       end.

#[local] Instance M_ret : MRet M := @ret.
#[local] Instance M_bind : MBind M := λ A B k m, bind m k.

Definition emit (e : event) : M unit :=
  λ w, (Returned (), {| model := model w; training := training w;
                        grad_enabled := grad_enabled w;
                        optimizer := optimizer w; grads := grads w;
                        trace := trace w ++ [e] |}).

(** [sys.exit(code)] *)
Definition sys_exit {A : Type} (code : Z) : M A := λ w, (SysExit code, w).

(** A tensor operation that may raise. *)
Definition lift {A : Type} (o : option A) : M A :=
  λ w, match o with Some a => (Returned a, w) | None => (Raised, w) end.

(** [model.train()] / [model.eval()] *)
Definition set_training (b : bool) : M unit :=
  λ w, (Returned (), {| model := model w; training := b;
                        grad_enabled := grad_enabled w;
                        optimizer := optimizer w; grads := grads w;
                        trace := trace w |}).

Definition set_grad_enabled (b : bool) : M unit :=
  λ w, (Returned (), {| model := model w; training := training w;
                        grad_enabled := b;
                        optimizer := optimizer w; grads := grads w;
                        trace := trace w |}).

(** [@torch.no_grad()]: the body runs with gradients disabled; the previous
    mode is restored however the body ends. *)
Definition no_grad {A : Type} (body : M A) : M A :=
  λ w, let prev := grad_enabled w in
       let '(r, w') := (set_grad_enabled false;; body) w in
       (r, (set_grad_enabled prev w').2).

(** [model(imgs)["pred"]] *)
Definition call_model (imgs : Imgs) : M (list (list (list F))) :=
  λ w, (emit (EvForward (training w) (grad_enabled w));;
        mret (forward (training w) (model w) imgs)) w.

(** [optimizer.zero_grad()] *)
Definition do_zero_grad : M unit :=
  λ w, emit EvZeroGrad
         {| model := model w; training := training w;
            grad_enabled := grad_enabled w; optimizer := optimizer w;
            grads := zero_grad (grads w); trace := trace w |}.

(** [loss.backward()] for the loss of [imgs] against [targets] *)
Definition do_backward (imgs : Imgs) (targets : list (list (list F)))
    (num_valid_voxels : nat) : M unit :=
  λ w, emit EvBackward
         {| model := model w; training := training w;
            grad_enabled := grad_enabled w; optimizer := optimizer w;
            grads := backward (model w) imgs targets num_valid_voxels (grads w);
            trace := trace w |}.

(** [torch.nn.utils.clip_grad_norm_(model.parameters(), max_norm)] *)
Definition do_clip_grad_norm (max_norm : pyfloat) : M unit :=
  λ w, emit (EvClipGradNorm max_norm)
         {| model := model w; training := training w;
            grad_enabled := grad_enabled w; optimizer := optimizer w;
            grads := clip_grad_norm_ max_norm (grads w); trace := trace w |}.

(** [optimizer.step()] *)
Definition do_optimizer_step : M unit :=
  λ w, let om := optimizer_step (optimizer w) (model w) (grads w) in
       emit EvOptimizerStep
         {| model := om.2; training := training w;
            grad_enabled := grad_enabled w; optimizer := om.1;
            grads := grads w; trace := trace w |}.

(** [dataset.mask.sum()] *)
Definition get_num_valid_voxels (dataset : Dataset) : M nat :=
  emit EvMaskSum;; mret (mask_sum (mask dataset)).

(** [optimizer.param_groups[0]["lr"]] *)
Definition get_lr : M pyfloat := λ w, (Returned (learning_rate (optimizer w)), w).

(** [for i, x in enumerate(l)] with the loop-carried variables [acc]. *)
Fixpoint for_enumerate {A Acc : Type} (body : Acc → nat → A → M Acc)
    (acc : Acc) (i : nat) (l : list A) : M Acc :=
  match l with
  | [] => mret acc
  | x :: l' => acc' ← body acc i x; for_enumerate body acc' (S i) l'
  end.

(** [criterion(outputs, targets) / num_valid_voxels] *)
Definition loss_compute (outputs targets : list (list (list F)))
    (num_valid_voxels : nat) : pyfloat :=
  pf_div_count (criterion outputs targets) num_valid_voxels.

(** [torch.corrcoef(torch.stack([out.flatten(), y.flatten()]))[0, 1].item()] *)
Definition train_corr_of (out y : list (list F)) : option pyfloat :=
  corrcoef_0_1 <$> stack [flatten out; flatten y].

(** The body of the loop of [train_one_epoch]; [acc] is
    [(running_loss, running_corr)]. *)
Definition train_step (args : Args) (dataset : Dataset) (epoch : Z)
    (max_norm : pyfloat) (num_valid_voxels len_data_loader : nat)
    (acc : pyfloat * pyfloat) (batch_idx : nat)
    (batch : Imgs * list (list (list F))) : M (pyfloat * pyfloat) :=
  let imgs := batch.1 in
  let targets := batch.2 in
  outputs ← call_model imgs;
  let loss := loss_compute outputs targets num_valid_voxels in
  let loss_value := loss in
  (if negb (isfinite loss_value)
   then emit (EvPrint (LossIsStopping loss_value));;
        emit (EvPrint (LossValue loss_value));;
        sys_exit 1
   else mret ());;
  do_zero_grad;;
  do_backward imgs targets num_valid_voxels;;
  (if pf_gt0 max_norm then do_clip_grad_norm max_norm else mret ());;
  do_optimizer_step;;
  emit (EvMeterUpdate "loss" loss_value);;
  emit (EvMeterUpdate "loss_labels" loss_value);;
  lr ← get_lr;
  emit (EvMeterUpdate "lr" lr);;
  out ← lift (unwrap_fmri (length outputs) outputs dataset (metaparcel_idx args));
  y ← lift (unwrap_fmri (length targets) targets dataset (metaparcel_idx args));
  train_corr ← lift (train_corr_of out y);
  let running_loss := pf_add acc.1 loss in
  let running_corr := pf_add acc.2 train_corr in
  if batch_idx mod print_freq =? print_freq - 1
  then emit (EvWandbLog (pf_div_count running_loss print_freq) epoch
                        (pf_div_count running_corr print_freq)
                        (Z.of_nat batch_idx + epoch * Z.of_nat len_data_loader));;
       mret (Fin 0, Fin 0)
  else mret (running_loss, running_corr).

(** [train_one_epoch]; the averaged statistics it returns are computed by
    [utils.MetricLogger] from the meter updates of the trace. *)
Definition train_one_epoch (args : Args)
    (data_loader : list (Imgs * list (list (list F)))) (epoch : Z)
    (dataset : Dataset) (max_norm : pyfloat) : M unit :=
  set_training true;;
  num_valid_voxels ← get_num_valid_voxels dataset;
  for_enumerate
    (train_step args dataset epoch max_norm num_valid_voxels (length data_loader))
    (Fin 0, Fin 0) 0 data_loader;;
  emit EvSynchronize;;
  emit (EvPrint AveragedStats);;
  mret ().

(** The body of the loop of [evaluate]; [acc] is [(preds, ys)]. *)
Definition evaluate_step (args : Args) (dataset : Dataset)
    (num_valid_voxels : nat)
    (acc : list (list (list F)) * list (list (list F))) (_ : nat)
    (batch : Imgs * list (list (list F)))
  : M (list (list (list F)) * list (list (list F))) :=
  let imgs := batch.1 in
  let targets := batch.2 in
  outputs ← call_model imgs;
  let loss := loss_compute outputs targets num_valid_voxels in
  pred ← lift (unwrap_fmri (length outputs) outputs dataset (metaparcel_idx args));
  let preds := acc.1 ++ [pred] in
  y ← lift (unwrap_fmri (length targets) targets dataset (metaparcel_idx args));
  let ys := acc.2 ++ [y] in
  let loss_value := loss in
  emit (EvMeterUpdate "loss_labels" loss_value);;
  mret (preds, ys).

(** [evaluate], under [@torch.no_grad()]: returns
    [(torch.vstack(ys), torch.vstack(preds))]. *)
Definition evaluate (args : Args)
    (data_loader : list (Imgs * list (list (list F)))) (dataset : Dataset)
  : M (list (list F) * list (list F)) :=
  no_grad (
    set_training false;;
    num_valid_voxels ← get_num_valid_voxels dataset;
    acc ← for_enumerate (evaluate_step args dataset num_valid_voxels)
            ([], []) 0 data_loader;
    emit EvSynchronize;;
    emit (EvPrint AveragedStats);;
    ys ← lift (vstack acc.2);
    preds ← lift (vstack acc.1);
    mret (ys, preds)).

(** *** What a run reports, read off its trace *)

(** How often [dataset.mask.sum()] was evaluated. *)
Definition mask_sum_count (t : list event) : nat :=
  length (omap (λ e, match e with EvMaskSum => Some () | _ => None end) t).

(** The values passed to [wandb.log]. *)
Definition wandb_logs (t : list event) : list (pyfloat * Z * pyfloat * Z) :=
  omap (λ e, match e with
             | EvWandbLog training_loss epoch training_corr batch =>
                 Some (training_loss, epoch, training_corr, batch)
             | _ => None
             end) t.

(** The values a meter was updated with. *)
Definition meter_values (name : string) (t : list event) : list pyfloat :=
  omap (λ e, match e with
             | EvMeterUpdate n value => if String.eqb n name then Some value else None
             | _ => None
             end) t.

(** The sum kept by a running accumulator that starts at zero. *)
Definition running_sum (l : list pyfloat) : pyfloat := foldl pf_add (Fin 0) l.

(** The running average reported after [print_freq] steps. *)
Definition running_avg (l : list pyfloat) : pyfloat :=
  pf_div_count (running_sum l) print_freq.

(** The [k]-th window of [print_freq] consecutive steps. *)
Definition window {A : Type} (k : nat) (l : list A) : list A :=
  take print_freq (drop (print_freq * k) l).

(** The loss of the step taken from world [w] on [batch]. *)
Definition step_loss (num_valid_voxels : nat) (w : world)
    (batch : Imgs * list (list (list F))) : pyfloat :=
  loss_compute (forward (training w) (model w) batch.1) batch.2 num_valid_voxels.

(** The correlation of the step taken from world [w] on [batch]: predictions
    and targets go through [unwrap_fmri], the flattened reconstructions
    through [torch.corrcoef]. *)
Definition step_corr (args : Args) (dataset : Dataset) (w : world)
    (batch : Imgs * list (list (list F))) : option pyfloat :=
  let outputs := forward (training w) (model w) batch.1 in
  out ← unwrap_fmri (length outputs) outputs dataset (metaparcel_idx args);
  y ← unwrap_fmri (length batch.2) batch.2 dataset (metaparcel_idx args);
  train_corr_of out y.

(** The world with further events on its trace. *)
Definition with_events (w : world) (evs : list event) : world :=
  {| model := model w; training := training w;
     grad_enabled := grad_enabled w; optimizer := optimizer w;
     grads := grads w; trace := trace w ++ evs |}.

(** World [w'] continues world [w] without another evaluation of
    [dataset.mask.sum()]. *)
Definition continues (w w' : world) : Prop :=
  ∃ evs, trace w' = trace w ++ evs ∧ mask_sum_count evs = 0.

(** The gradients the optimizer step of a training step works on. *)
Definition step_grads (max_norm : pyfloat) (num_valid_voxels : nat)
    (w : world) (batch : Imgs * list (list (list F))) : Grads :=
  let g := backward (model w) batch.1 batch.2 num_valid_voxels
                    (zero_grad (grads w)) in
  if pf_gt0 max_norm then clip_grad_norm_ max_norm g else g.

(** The events of a training step up to its meter updates. *)
Definition update_events (max_norm : pyfloat) (num_valid_voxels : nat)
    (w : world) (batch : Imgs * list (list (list F))) : list event :=
  [EvForward (training w) (grad_enabled w); EvZeroGrad; EvBackward]
  ++ (if pf_gt0 max_norm then [EvClipGradNorm max_norm] else [])
  ++ [EvOptimizerStep;
      EvMeterUpdate "loss" (step_loss num_valid_voxels w batch);
      EvMeterUpdate "loss_labels" (step_loss num_valid_voxels w batch);
      EvMeterUpdate "lr"
        (learning_rate
           (optimizer_step (optimizer w) (model w)
              (step_grads max_norm num_valid_voxels w batch)).1)].

(** The world after the optimizer step and the meter updates. *)
Definition updated_world (max_norm : pyfloat) (num_valid_voxels : nat)
    (w : world) (batch : Imgs * list (list (list F))) : world :=
  let g := step_grads max_norm num_valid_voxels w batch in
  let om := optimizer_step (optimizer w) (model w) g in
  {| model := om.2; training := training w; grad_enabled := grad_enabled w;
     optimizer := om.1; grads := g;
     trace := trace w ++ update_events max_norm num_valid_voxels w batch |}.

(** Loss and correlation of the steps of a run of the training loop that
    complete, in order. *)
Fixpoint step_metrics (args : Args) (dataset : Dataset) (epoch : Z)
    (max_norm : pyfloat) (num_valid_voxels len_data_loader : nat)
    (acc : pyfloat * pyfloat) (i : nat)
    (l : list (Imgs * list (list (list F)))) (w : world)
  : list (pyfloat * pyfloat) :=
  match l with
  | [] => []
  | batch :: l' =>
      match train_step args dataset epoch max_norm num_valid_voxels
                       len_data_loader acc i batch w,
            step_corr args dataset w batch with
      | (Returned acc', w'), Some c =>
          (step_loss num_valid_voxels w batch, c)
          :: step_metrics args dataset epoch max_norm num_valid_voxels
                          len_data_loader acc' (S i) l' w'
      | _, _ => []
      end
  end.

(** The prediction and the target of one evaluation step, reconstructed. *)
Definition eval_pred (args : Args) (dataset : Dataset) (w : world)
    (batch : Imgs * list (list (list F))) : option (list (list F)) :=
  let outputs := forward (training w) (model w) batch.1 in
  unwrap_fmri (length outputs) outputs dataset (metaparcel_idx args).

Definition eval_target (args : Args) (dataset : Dataset)
    (batch : Imgs * list (list (list F))) : option (list (list F)) :=
  unwrap_fmri (length batch.2) batch.2 dataset (metaparcel_idx args).

(** The world [train_one_epoch] runs its loop in: training mode, the count
    of valid voxels taken. *)
Definition train_world (w0 : world) : world :=
  {| model := model w0; training := true; grad_enabled := grad_enabled w0;
     optimizer := optimizer w0; grads := grads w0;
     trace := trace w0 ++ [EvMaskSum] |}.

(** The world [evaluate] runs its loop in: evaluation mode, gradients
    disabled, the count of valid voxels taken. *)
Definition eval_world (w0 : world) : world :=
  {| model := model w0; training := false; grad_enabled := false;
     optimizer := optimizer w0; grads := grads w0;
     trace := trace w0 ++ [EvMaskSum] |}.

(** The world [evaluate] leaves: the model stays in evaluation mode, the
    gradient mode is the one of the caller again. *)
Definition eval_final (w0 : world) (evs : list event) : world :=
  {| model := model w0; training := false; grad_enabled := grad_enabled w0;
     optimizer := optimizer w0; grads := grads w0; trace := trace w0 ++ evs |}.

(** The events of an evaluation over [batches] from world [w]. *)
Definition evaluate_events (num_valid_voxels : nat) (w : world)
    (batches : list (Imgs * list (list (list F)))) : list event :=
  concat ((λ batch, [EvForward (training w) (grad_enabled w);
                     EvMeterUpdate "loss_labels"
                       (step_loss num_valid_voxels w batch)])
          <$> batches).

End Engine.

(** The report after the [k]-th window of the steps [ms], the first of which
    has batch index [base]: the averages of loss and correlation over the
    window, the epoch and the batch number of the last step of the window. *)
Definition window_report (epoch : Z) (len_data_loader base : nat)
    (ms : list (pyfloat * pyfloat)) (k : nat) : pyfloat * Z * pyfloat * Z :=
  (running_avg (window k ms).*1, epoch, running_avg (window k ms).*2,
   (Z.of_nat (base + print_freq * k + (print_freq - 1))
    + epoch * Z.of_nat len_data_loader)%Z).

(** The reports of a run: one per full window. *)
Definition reports (epoch : Z) (len_data_loader base : nat)
    (ms : list (pyfloat * pyfloat)) : list (pyfloat * Z * pyfloat * Z) :=
  window_report epoch len_data_loader base ms <$> seq 0 (length ms / print_freq).

(** The steps after the last full window. *)
Definition pending (ms : list (pyfloat * pyfloat)) : list (pyfloat * pyfloat) :=
  drop (print_freq * (length ms / print_freq)) ms.

(** ** Integers as exact scalars *)

Definition Z_Scalar : Scalar Z :=
  {| fzero := 0%Z; fone := 1%Z; fadd := Z.add; fmul := Z.mul |}.

(** ** Floats as tensor and array entries *)

(** The float an operation returns when its exact value is [q], in a format
    that overflows from the magnitude [threshold] on. *)
Definition overflow (threshold q : Qc) : pyfloat :=
  if bool_decide (threshold ≤ q)%Qc then Inf false
  else if bool_decide (q ≤ - threshold)%Qc then Inf true
  else Fin q.

(** IEEE addition: opposite infinities give NaN. *)
Definition float_add (threshold : Qc) (x y : pyfloat) : pyfloat :=
  match x, y with
  | NaN, _ | _, NaN => NaN
  | Fin a, Fin b => overflow threshold (a + b)%Qc
  | Inf s, Fin _ | Fin _, Inf s => Inf s
  | Inf s, Inf t => if Bool.eqb s t then Inf s else NaN
  end.

(** IEEE multiplication: an infinity times zero is NaN. *)
Definition float_mul (threshold : Qc) (x y : pyfloat) : pyfloat :=
  match x, y with
  | NaN, _ | _, NaN => NaN
  | Fin a, Fin b => overflow threshold (a * b)%Qc
  | Inf s, Fin q | Fin q, Inf s =>
      if bool_decide (q = 0%Qc) then NaN
      else Inf (xorb s (bool_decide (q < 0)%Qc))
  | Inf s, Inf t => Inf (xorb s t)
  end.

(** With rounding to nearest, float32 overflows from [2^128 - 2^103] on
    (its largest finite value is [2^128 - 2^104]) and float64 from
    [2^1024 - 2^970] on (largest finite value [2^1024 - 2^971]). *)
Definition float32_overflow : Qc := Qc_of_Z (2 ^ 128 - 2 ^ 103).
Definition float64_overflow : Qc := Qc_of_Z (2 ^ 1024 - 2 ^ 970).

(** The values a float32 tensor holds: the infinities, NaN and the finite
    values below the overflow threshold. *)
Definition float32_value (x : pyfloat) : Prop :=
  match x with
  | Fin q => (- float32_overflow < q)%Qc ∧ (q < float32_overflow)%Qc
  | _ => True
  end.

(** The entries of the float32 tensors of the model. *)
Definition float32_Scalar : Scalar pyfloat :=
  {| fzero := Fin 0; fone := Fin 1;
     fadd := float_add float32_overflow;
     fmul := float_mul float32_overflow |}.

(** ** Worked inputs *)

(** Three voxels in two parcels; parcel 0 uses one of its two slots. *)
Definition toy_dataset : Dataset :=
  {| parcels := [[0]; [1; 2]]%Z;
     mask := [[true; false]; [true; true]];
     labels := [[1]; [1]; [2]]%Z;
     num_parcels := 2; num_hemi_voxels := 3; max_parcel_size := 2 |}.

(** Two parcels that both name voxel 0. *)
Definition overlap_dataset : Dataset :=
  {| parcels := [[0]; [0]]%Z;
     mask := [[true]; [true]];
     labels := [[1]; [1]; [1]]%Z;
     num_parcels := 2; num_hemi_voxels := 3; max_parcel_size := 1 |}.

(** A linear layer that sums its input and adds 10. *)
Definition toy_new_linear (i o : nat) : Linear Z :=
  {| in_features := i; out_features := o;
     weight := replicate o (replicate i 1%Z);
     bias := replicate o 10%Z |}.

(** A float32 linear layer that sums its input. *)
Definition sum_linear (i o : nat) : Linear pyfloat :=
  {| in_features := i; out_features := o;
     weight := replicate o (replicate i (Fin 1));
     bias := replicate o (Fin 0) |}.

(** One sample over [toy_dataset] with one-dimensional tokens: the token of
    parcel 0 is 1, the token of parcel 1 is an infinity. *)
Definition infinite_tokens : list (list (list pyfloat)) :=
  [[[Fin 1]; [Inf false]]].

Definition toy_args : Args := {| metaparcel_idx := 1 |}.

(** Collaborators over the integers: the model and the optimizer state are
    numbers, a batch of one sample is made from an image number. *)
Definition toy_forward (training : bool) (m imgs : Z) : list (list (list Z)) :=
  [[[imgs + m; 0]; [imgs; m]]]%Z.

Definition toy_batch (k : Z) : Z * list (list (list Z)) :=
  (k, [[[k; 0]; [k + 1; k + 2]]]%Z).

Definition toy_criterion (outputs targets : list (list (list Z))) : pyfloat :=
  Fin 1.

Definition zero_criterion (outputs targets : list (list (list Z))) : pyfloat :=
  Fin 0.

(** A criterion that diverges on the batch made from image 2. *)
Definition nan_criterion (outputs targets : list (list (list Z))) : pyfloat :=
  match targets with
  | [[[2%Z; _]; _]] => NaN
  | _ => Fin 1
  end.

Definition toy_zero_grad (g : Z) : Z := 0%Z.

Definition toy_backward (m imgs : Z) (targets : list (list (list Z)))
    (num_valid_voxels : nat) (g : Z) : Z := (g + imgs + 1)%Z.

Definition toy_clip (max_norm : pyfloat) (g : Z) : Z := Z.min g 1.

Definition toy_optimizer_step (o m g : Z) : Z * Z := ((o + 1)%Z, (m - g)%Z).

Definition toy_learning_rate (o : Z) : pyfloat := Fin 1.

Definition toy_corrcoef (stacked : list (list Z)) : pyfloat := Fin 1.

Definition toy_world : @world Z Z Z :=
  {| model := 0%Z; training := false; grad_enabled := true;
     optimizer := 0%Z; grads := 0%Z; trace := [] |}.

(** ** Notions used to state further properties *)

(** The dataset with another list of parcels. *)
Definition with_parcels (dataset : Dataset) (ps : list (list Z)) : Dataset :=
  {| parcels := ps; mask := mask dataset; labels := labels dataset;
     num_parcels := num_parcels dataset;
     num_hemi_voxels := num_hemi_voxels dataset;
     max_parcel_size := max_parcel_size dataset |}.

(** The position a negative index stands for on an axis of extent [n]. *)
Definition wrap_index (n : nat) (i : Z) : Z :=
  if bool_decide (i < 0)%Z then (i + Z.of_nat n)%Z else i.

(** Two samples of packed data hold the same values at the valid slots of
    every parcel: [s[p][m] = s'[p][m]] for the validity-mask row [m] of
    parcel [p]. *)
Definition agree_on_valid {F : Type} (masks : list (list bool))
    (s s' : list (list F)) : Prop :=
  ∀ p m r r', masks !! p = Some m → s !! p = Some r → s' !! p = Some r' →
    select_mask r m = select_mask r' m.

(** How many times [optimizer.step()] ran. *)
Definition optimizer_steps (t : list event) : nat :=
  length (omap (λ e, match e with EvOptimizerStep => Some () | _ => None end) t).

(** An event that leaves gradients and parameters alone and reports nothing
    to wandb; a forward pass among them runs in evaluation mode with
    gradients disabled. *)
Definition eval_event (e : event) : Prop :=
  match e with
  | EvForward training grad_enabled => training = false ∧ grad_enabled = false
  | EvZeroGrad | EvBackward | EvClipGradNorm _ | EvOptimizerStep
  | EvWandbLog _ _ _ _ => False
  | _ => True
  end.

(** A forward pass among the events runs in the given modes. *)
Definition forward_in_mode (training grad_enabled : bool) (e : event) : Prop :=
  match e with
  | EvForward t g => t = training ∧ g = grad_enabled
  | _ => True
  end.

(** What a world keeps through an evaluation started from [w0]. *)
Definition kept_by_evaluation {Model Optimizer Grads : Type}
    (w0 w : @world Model Optimizer Grads) : Prop :=
  model w = model w0 ∧ optimizer w = optimizer w0 ∧ grads w = grads w0 ∧
  training w = false ∧ grad_enabled w = false ∧
  ∃ evs, trace w = trace w0 ++ evs ∧ Forall eval_event evs.

(** ** [brain_encoder.forward] as a whole *)

(** [x == 0] on a float. *)
Definition pf_eq0 (x : pyfloat) : bool :=
  match x with
  | Fin q => bool_decide (q = 0%Qc)
  | _ => false
  end.

(** A value of an output dictionary: a 2-D or a 3-D array. *)
Inductive ndarray (F : Type) :=
| Arr2 (t : list (list F))
| Arr3 (t : list (list (list F))).
Arguments Arr2 {F} t.
Arguments Arr3 {F} t.

(** [d[k]] on a dictionary kept in insertion order; a missing key raises. *)
Definition dict_get {A : Type} (d : list (string * A)) (k : string) : option A :=
  snd <$> find (λ kv, String.eqb kv.1 k) d.

(** What [forward] is called with: a [NestedTensor], or a list or tensor
    still to be made one. *)
Inductive Samples (Plain Nested : Type) :=
| SamplesNested (n : Nested)
| SamplesPlain (p : Plain).
Arguments SamplesNested {Plain Nested} n.
Arguments SamplesPlain {Plain Nested} p.

Section Forward.
Context {F : Type} `{Scalar F}.
Context {Plain Nested Feature Src PadMask Pos : Type}.

(** The collaborators of [forward], which are not among the sources: the
    conversion to a [NestedTensor], the backbone (called with gradients
    enabled or not), [NestedTensor.decompose], the shape of a positional
    embedding and the transformer (called with gradients enabled or not,
    returning one token tensor per decoder layer). *)
Variable nested_tensor_from_tensor_list : Plain → option Nested.
Variable backbone_model : bool → Nested → option (list Feature * list Pos).
Variable decompose : Feature → Src * PadMask.
Variable shape : Pos → list nat.
Variable transformer :
  bool → Src → PadMask → list (list F) → Pos → bool →
  option (list (list (list (list F)))).

(** The fields of [brain_encoder] that [forward] reads. *)
Record brain_encoder_module := {
  readout_fields : brain_encoder F;
  lr_backbone : pyfloat;
  return_interm : bool;
  query_embed_weight : list (list F);
}.

(** [brain_encoder.forward], called in gradient mode [grad_enabled]: the
    backbone runs under [torch.no_grad()] when [lr_backbone == 0]. *)
Definition brain_encoder_forward (self : brain_encoder_module)
    (grad_enabled : bool) (samples : Samples Plain Nested)
  : option (list (string * ndarray F)) :=
  samples ← match samples with
            | SamplesPlain p => nested_tensor_from_tensor_list p
            | SamplesNested n => Some n
            end;
  fp ← backbone_model (if pf_eq0 (lr_backbone self) then false else grad_enabled)
                      samples;
  feature ← last fp.1;
  let input_proj_src := (decompose feature).1 in
  let mask := (decompose feature).2 in
  pos_embed ← last fp.2;
  match shape pos_embed with
  | [_; _; h; w] =>
      hs ← transformer grad_enabled input_proj_src mask
             (query_embed_weight self) pos_embed (return_interm self);
      output_tokens ← last hs;
      pred ← readout (readout_fields self) output_tokens;
      Some [("pred"%string, Arr2 pred)]
  | _ => None
  end.

End Forward.

Arguments brain_encoder_module F : clear implicits.

(** ** [engine.test] *)

Section Test.
Context {F : Type} `{Scalar F}.
Context {Raw Img Nested : Type}.

(** [tuple(samples.cuda())], [nested_tensor_from_tensor_list] and the model,
    called in evaluation mode with gradients disabled. *)
Variable cuda_tuple : Raw → option (list Img).
Variable nested_tensor_from_tensor_list : list Img → option Nested.
Variable model : Nested → option (list (string * ndarray F)).

(** [t[:, :, :stop]]; a 2-D array has no third axis to slice. *)
Definition slice_last (stop : Z) (a : ndarray F) : option (list (list (list F))) :=
  match a with
  | Arr2 _ => None
  | Arr3 t =>
      Some ((λ m : list (list F),
               (λ r : list F,
                  take (if bool_decide (stop < 0)%Z
                        then Z.to_nat (Z.of_nat (length r) + stop)
                        else Z.to_nat stop) r) <$> m) <$> t)
  end.

(** [rois[:, :, None]], tiled [batch] times along the new axis. *)
Definition tile_batch (batch : nat) (rois : list (list F))
  : list (list (list F)) :=
  (λ r : list F, (λ x, replicate batch x) <$> r) <$> rois.

(** [t.permute(2, 1, 0)] on a tensor whose two inner axes have extents [d1]
    and [d2]. *)
Definition permute_2_1_0 (d1 d2 : nat) (t : list (list (list F)))
  : list (list (list F)) :=
  transpose d2 (transpose d2 <$> transpose d1 t).

(** Element-wise product of two 3-D tensors under broadcasting. *)
Definition bmul3 (x y : list (list (list F))) : option (list (list (list F))) :=
  if length x =? length y then mapM (λ xy, bmul2 xy.1 xy.2) (zip x y)
  else match x, y with
       | [m], _ => mapM (bmul2 m) y
       | _, [m] => mapM (λ xm, bmul2 xm m) x
       | _, _ => None
       end.

(** [torch.sum(torch.mul(torch.tile(rois[:, :, None], (1, 1, B))
    .permute(2, 1, 0), f_pred), dim=2)] with [B = f_pred.shape[0]]; the
    voxel extent of [rois] is read off its first row. *)
Definition roi_sum (rois : list (list F)) (f_pred : list (list (list F)))
  : option (list (list F)) :=
  let rois_b :=
    permute_2_1_0 (match rois with [] => 0 | r :: _ => length r end)
                  (length f_pred) (tile_batch (length f_pred) rois) in
  prod ← bmul3 rois_b f_pred;
  Some ((λ m : list (list F), tsum <$> m) <$> (prod : list (list (list F)))).

(** [np.vstack] of 3-D arrays: concatenation along the first axis of arrays
    whose other extents agree. *)
Definition vstack3 (tensors : list (list (list (list F))))
  : option (list (list (list F))) :=
  match concat tensors with
  | [] => Some []
  | m :: ms =>
      if forallb (λ u : list (list F), length u =? length m) ms
         && forallb (λ u : list (list F),
                       forallb (λ r : list F,
                                  length r =? default 0 (length <$> head m)) u)
                    (m :: ms)
      then Some (m :: ms) else None
  end.

(** [np.vstack] of the collected arrays: an empty list and arrays of
    different ranks or extents raise. *)
Definition np_vstack (arrays : list (ndarray F)) : option (ndarray F) :=
  match arrays with
  | [] => None
  | Arr2 _ :: _ =>
      ts ← mapM (λ a, match a with Arr2 t => Some t | Arr3 _ => None end) arrays;
      Arr2 <$> vstack ts
  | Arr3 _ :: _ =>
      ts ← mapM (λ a, match a with Arr3 t => Some t | Arr2 _ => None end) arrays;
      Arr3 <$> vstack3 ts
  end.

(** The body of the loop of [test]; [acc] is
    [(lh_f_pred_all, rh_f_pred_all)]. *)
Definition test_step (readout_res : string) (roi_nums : Z)
    (lh_challenge_rois rh_challenge_rois : list (list F))
    (acc : list (ndarray F) * list (ndarray F)) (samples : Raw)
  : option (list (ndarray F) * list (ndarray F)) :=
  samples ← cuda_tuple samples;
  samples ← nested_tensor_from_tensor_list samples;
  outputs ← model samples;
  lh_f_pred ← dict_get outputs "lh_f_pred";
  rh_f_pred ← dict_get outputs "rh_f_pred";
  lr ← (if negb (String.eqb readout_res "hemis")
           && negb (String.eqb readout_res "voxels")
        then
          lh_f_pred ← dict_get outputs "lh_f_pred" ≫= slice_last roi_nums;
          rh_f_pred ← dict_get outputs "rh_f_pred" ≫= slice_last roi_nums;
          lh_f_pred ← roi_sum lh_challenge_rois lh_f_pred;
          rh_f_pred ← roi_sum rh_challenge_rois rh_f_pred;
          Some (Arr2 lh_f_pred, Arr2 rh_f_pred)
        else Some (lh_f_pred, rh_f_pred));
  Some (acc.1 ++ [lr.1], acc.2 ++ [lr.2]).

(** [test]: returns [(np.vstack(lh_f_pred_all), np.vstack(rh_f_pred_all))]. *)
Definition test (data_loader : list Raw) (readout_res : string) (roi_nums : Z)
    (lh_challenge_rois rh_challenge_rois : list (list F))
  : option (ndarray F * ndarray F) :=
  acc ← foldlM (test_step readout_res roi_nums lh_challenge_rois
                          rh_challenge_rois)
               ([], []) data_loader;
  lh ← np_vstack acc.1;
  rh ← np_vstack acc.2;
  Some (lh, rh).

End Test.

(** ** [plot_run_results.suppress_print] *)

(** What [sys.stdout] can be bound to: the stream of the process, or a
    [StringIO] buffer, told apart by its number of creation. *)
Inductive stream :=
| Terminal
| StringIO (id : nat).

(** The state a print works on: the binding of [sys.stdout], the number of
    buffers created so far, and the lines written, each with the stream it
    went to. *)
Record io := {
  sys_stdout : stream;
  buffers : nat;
  written : list (stream * string);
}.

Definition IO (A : Type) : Type := io → outcome A * io.

(** [print(line)] *)
Definition print (line : string) : IO unit :=
  λ s, (Returned (), {| sys_stdout := sys_stdout s; buffers := buffers s;
                        written := written s ++ [(sys_stdout s, line)] |}).

(** [with suppress_print(): body]: [sys.stdout] is bound to a fresh
    [StringIO()] for the body and, in the [finally] clause, bound again to
    what it was, however the body ends. *)
Definition suppress_print {A : Type} (body : IO A) : IO A :=
  λ s, let original_stdout := sys_stdout s in
       let rs := body {| sys_stdout := StringIO (buffers s);
                         buffers := S (buffers s); written := written s |} in
       (rs.1, {| sys_stdout := original_stdout; buffers := buffers rs.2;
                 written := written rs.2 |}).

(** The lines that went to stream [t]. *)
Definition lines_to (t : stream) (w : list (stream * string)) : list string :=
  omap (λ e : stream * string,
          match t, e.1 with
          | Terminal, Terminal => Some e.2
          | StringIO i, StringIO j => if i =? j then Some e.2 else None
          | _, _ => None
          end) w.

(** Every buffer [sys.stdout] can be bound to has been created. *)
Definition stdout_created (s : io) : Prop :=
  match sys_stdout s with
  | Terminal => True
  | StringIO i => i < buffers s
  end.

(** A body whose output goes through [print]: whatever state it runs in, it
    adds lines to the stream [sys.stdout] is bound to and to no other. *)
Definition prints_only {A : Type} (body : IO A) : Prop :=
  ∀ s, ∃ lines, written (body s).2 = written s ++ ((sys_stdout s,.) <$> lines).

(** ** [plot_run_results.plot_roi_correlation]: the ROI averages *)







(** ** [plot_run_results.plot_run_results]: the correlation maps *)

(** The largest finite float64, [np.finfo(np.float64).max]. *)
Definition float_max : Qc := Qc_of_Z (2 ^ 1024 - 2 ^ 971).

(** [np.nan_to_num] on one entry of an array whose dtype has the largest
    finite value [finfo_max]: NaN becomes zero, an infinity the largest
    finite value of its sign. *)
Definition nan_to_num (finfo_max : Qc) (x : pyfloat) : pyfloat :=
  match x with
  | NaN => Fin 0
  | Inf negative => Fin (if negative then - finfo_max else finfo_max)%Qc
  | Fin q => Fin q
  end.

(** Addition of two float64 values: a sum past the largest finite float is
    an infinity. *)
Definition np_add : pyfloat → pyfloat → pyfloat := float_add float64_overflow.

(** [acc += val] on a 1-D float64 array [acc]: [val] is broadcast to the
    shape of [acc], which is updated in place. *)
Definition iadd (acc val : list pyfloat) : option (list pyfloat) :=
  val ← broadcast_to (length acc) val;
  Some (zip_with np_add acc val).

(** The fields of [args] that the loop of [plot_run_results] reads or
    assigns. *)
Record PlotArgs := {
  args_hemi : string;
  args_axis : string;
  args_split : string;
}.

(** The entry of a loaded map that is added at vertex [i]: its entry [i],
    or its only entry when the map is broadcast. *)
Definition at_vertex (l : list pyfloat) (i : nat) : option pyfloat :=
  match l with
  | [x] => Some x
  | _ => l !! i
  end.

(** Vertices of one hemisphere of fsaverage. *)
Definition num_vertices : nat := 163842.

Section PlotRunResults.

(** [get_model_dir_args] and [np.load] of a file of a directory, which
    raises when the file is missing; [finfo_max] is the largest finite value
    of the dtype of the stored maps ([float_max] for float64 files). *)
Variable get_model_dir_args : PlotArgs → string.
Variable np_load : string → string → option (list pyfloat).
Variable finfo_max : Qc.

(** The inner loop of [plot_run_results] for one hemisphere: the maps of
    the posterior and of the anterior model, NaN replaced by zero and an
    infinity by the largest finite value, added up on the float64 array
    [np.zeros(163842)].  It assigns [args.hemi] and [args.axis]. *)
Definition hemi_correlation (avg_or_nonavg hemi : string) (args : PlotArgs)
  : option (list pyfloat * PlotArgs) :=
  foldlM (λ (st : list pyfloat * PlotArgs) (axis : string),
            let args := {| args_hemi := hemi; args_axis := axis;
                           args_split := args_split st.2 |} in
            let model_dir := get_model_dir_args args in
            val_corr ← np_load model_dir
                         (hemi ++ "_" ++ args_split args ++ "_corr_"
                          ++ avg_or_nonavg ++ ".npy")%string;
            let val_corr := nan_to_num finfo_max <$> val_corr in
            val_correlation ← iadd st.1 val_corr;
            Some (val_correlation, args))
         (replicate num_vertices (Fin 0), args)
         ["posterior"; "anterior"]%string.

(** The outer loop: [val_correlations] for "lh" and "rh", and [args] as the
    loop leaves it. *)
Definition val_correlations (avg_or_nonavg : string) (args : PlotArgs)
  : option (list pyfloat * list pyfloat * PlotArgs) :=
  lh ← hemi_correlation avg_or_nonavg "lh" args;
  rh ← hemi_correlation avg_or_nonavg "rh" lh.2;
  Some (lh.1, rh.1, rh.2).

End PlotRunResults.

(** ** Further worked inputs *)

(** Three voxels, the last of which no parcel lists. *)
Definition gap_dataset : Dataset :=
  {| parcels := [[0]; [1]]%Z;
     mask := [[true]; [true]];
     labels := [[1]; [1]; [1]]%Z;
     num_parcels := 2; num_hemi_voxels := 3; max_parcel_size := 1 |}.

(** A parcel that lists voxel 7 of three. *)
Definition stray_dataset : Dataset :=
  {| parcels := [[0]; [7]]%Z;
     mask := [[true]; [true]];
     labels := [[1]; [1]; [1]]%Z;
     num_parcels := 2; num_hemi_voxels := 3; max_parcel_size := 1 |}.

(** A parcel that lists the last voxel as [-1]. *)
Definition wrapping_dataset : Dataset :=
  {| parcels := [[0]; [-1]]%Z;
     mask := [[true]; [true]];
     labels := [[1]; [1]; [1]]%Z;
     num_parcels := 2; num_hemi_voxels := 3; max_parcel_size := 1 |}.

(** Three indices against two valid slots. *)
Definition short_mask_dataset : Dataset :=
  {| parcels := [[0; 1; 2]]%Z;
     mask := [[true; true; false]];
     labels := [[1]; [1]; [1]]%Z;
     num_parcels := 1; num_hemi_voxels := 3; max_parcel_size := 3 |}.

(** A validity mask without a valid slot. *)
Definition empty_mask_dataset : Dataset :=
  {| parcels := [[]];
     mask := [[false]];
     labels := [[1]]%Z;
     num_parcels := 1; num_hemi_voxels := 1; max_parcel_size := 1 |}.

(** A batch whose target has one slot where the validity mask has two. *)
Definition short_batch (k : Z) : Z * list (list (list Z)) := (k, [[[k]]]%Z).

(** Collaborators of [forward] over the integers: one feature level, a
    positional embedding of four axes, one decoder layer that puts out two
    tokens of width two for one sample. *)
Definition toy_nested (imgs : list Z) : option Z := Some (foldr Z.add 0%Z imgs).

Definition toy_backbone (grad_enabled : bool) (samples : Z)
  : option (list Z * list Z) := Some ([samples], [samples]).

Definition toy_decompose (feature : Z) : Z * Z := (feature, 0%Z).

Definition toy_shape (pos : Z) : list nat := [1; 2; 3; 4].

Definition toy_transformer (grad_enabled : bool) (src pad_mask : Z)
    (query : list (list Z)) (pos : Z) (interm : bool)
  : option (list (list (list (list Z)))) :=
  Some [[[[src; 1]; [pos; 2]]]]%Z.

Definition toy_module (fields : brain_encoder Z) : brain_encoder_module Z :=
  {| readout_fields := fields; lr_backbone := Fin 0; return_interm := false;
     query_embed_weight := [[0; 0]; [0; 0]]%Z |}.

(** The state of a process that prints to its terminal. *)
Definition toy_io : io := {| sys_stdout := Terminal; buffers := 0; written := [] |}.

(** Maps that hold 1 at every vertex, in every directory. *)
Definition toy_model_dir (args : PlotArgs) : string :=
  (args_hemi args ++ "_" ++ args_axis args)%string.

(** The entry that fills the stored map of a model directory: NaN for the
    posterior model of the left hemisphere, 1 for its anterior model, an
    infinity for both models of the right hemisphere. *)
Definition toy_map_entry (dir : string) : pyfloat :=
  if String.eqb dir "lh_posterior" then NaN
  else if String.eqb dir "lh_anterior" then Fin 1
  else Inf false.

Definition toy_np_load (dir file : string) : option (list pyfloat) :=
  Some (replicate num_vertices (toy_map_entry dir)).

Definition toy_plot_args : PlotArgs :=
  {| args_hemi := ""; args_axis := ""; args_split := "val" |}.
(** * Properties *)

(** ** Generic list facts *)

(** Case analysis on membership in a list given by its elements. *)
Ltac elem_cases :=
  repeat match goal with
         | H : _ ∈ [] |- _ => by apply elem_of_nil in H
         | H : _ ∈ _ :: _ |- _ => apply elem_of_cons in H as [H|H]
         end;
  subst; try done; try lia.

(** Membership in a list given by its elements. *)
Ltac elem_here := apply list_elem_of_In; simpl; tauto.

Lemma foldlM_app {S A : Type} (body : S → A → option S) (s : S) (l k : list A) :
  foldlM body s (l ++ k) = foldlM body s l ≫= λ s', foldlM body s' k.
Proof.
  revert s. induction l as [|x l IH]; intros s; simpl; [done|].
  destruct (body s x) as [s'|]; simpl; [apply IH|done].
Qed.

Lemma lookup_replicate_ge {A : Type} (n : nat) (x : A) (i : nat) :
  n ≤ i → replicate n x !! i = None.
Proof. apply lookup_replicate_None. Qed.

Lemma zip_with_fmap_same {A B C D : Type} (g : B → C → D) (f1 : A → B)
    (f2 : A → C) (l : list A) :
  zip_with g (f1 <$> l) (f2 <$> l) = (λ x, g (f1 x) (f2 x)) <$> l.
Proof. induction l as [|x l IH]; csimpl; [done|]. by f_equal. Qed.

Lemma mapM_pipeline {A B B' C D : Type} (f : A → option B) (t : B → B')
    (g : B' → option C) (h : C → D) (l : list A) :
  mapM f l ≫= (λ k, mapM g (t <$> k) ≫= λ j, Some (h <$> j))
  = mapM (λ x, y ← f x; z ← g (t y); Some (h z)) l.
Proof.
  induction l as [|a l IH]; [done|]. cbn [mapM fmap list_fmap].
  rewrite <- IH. clear IH.
  destruct (f a) as [y|]; [|done]. cbn [mbind option_bind].
  destruct (mapM f l) as [k|]; [|by destruct (g (t y))].
  cbn [mbind option_bind mret option_ret fmap list_fmap mapM].
  destruct (g (t y)) as [z|]; [|done]. cbn [mbind option_bind].
  by destruct (mapM g (t <$> k)).
Qed.

Lemma omap_singleton_at {A B : Type} (f : A → option B) (l : list A) (p : nat)
    (a : A) (x : B) :
  l !! p = Some a → f a = Some x →
  (∀ q b, q ≠ p → l !! q = Some b → f b = None) →
  omap f l = [x].
Proof.
  revert p. induction l as [|c l IH]; intros p Hp Hfa Hothers; [done|].
  destruct p as [|p]; simpl in *.
  - simplify_eq. rewrite Hfa. f_equal.
    clear IH Hfa. induction l as [|d l IHl]; [done|]. simpl.
    rewrite (Hothers 1 d) by done.
    apply IHl. intros q b Hq Hb. destruct q as [|q]; [done|].
    apply (Hothers (S (S q)) b); [lia|done].
  - rewrite (Hothers 0 c) by done.
    apply (IH p); [done..|].
    intros q b Hq Hb. apply (Hothers (S q) b); [lia|done].
Qed.

Lemma transpose_length {A : Type} (n : nat) (m : list (list A)) :
  Forall (λ r, length r = n) m → length (transpose n m) = n.
Proof.
  induction 1 as [|r m Hr _ IH]; simpl.
  - apply length_replicate.
  - rewrite length_zip_with. lia.
Qed.

Lemma transpose_lookup {A : Type} (n : nat) (m : list (list A)) (v : nat) :
  Forall (λ r, length r = n) m → v < n →
  ∃ col, transpose n m !! v = Some col ∧ Forall2 (λ r x, r !! v = Some x) m col.
Proof.
  intros Hm Hv. induction Hm as [|r m Hr Hm IH]; simpl.
  - exists []. split; [|constructor]. by apply lookup_replicate_2.
  - destruct IH as (col & Hcol & Hall).
    destruct (lookup_lt_is_Some_2 r v) as [x Hx]; [lia|].
    exists (x :: col). split; [|by constructor].
    rewrite lookup_zip_with, Hx. simpl. by rewrite Hcol.
Qed.

(** ** The parcel mask *)

Section ParcelMaskFacts.
Context {F : Type} `{Scalar F}.

Lemma scatter_in_range (l : list F) (index : list Z) (x : F) :
  (∀ i, i ∈ index → (0 ≤ i < Z.of_nat (length l))%Z) →
  scatter_ l index x
  = Some (imap (λ v a, if bool_decide (Z.of_nat v ∈ index) then x else a) l).
Proof.
  revert l. induction index as [|i index IH]; intros l Hin; simpl.
  - f_equal. apply list_eq. intros v. rewrite list_lookup_imap.
    by destruct (l !! v).
  - rewrite bool_decide_eq_true_2 by (apply Hin; left).
    rewrite IH by (intros j Hj; rewrite length_insert; apply Hin; by right).
    f_equal. apply list_eq. intros v. rewrite !list_lookup_imap.
    assert (0 ≤ i < Z.of_nat (length l))%Z as Hi by (apply Hin; left).
    destruct (decide (v = Z.to_nat i)) as [->|Hne].
    + rewrite list_lookup_insert_eq by lia.
      destruct (lookup_lt_is_Some_2 l (Z.to_nat i)) as [a ->]; [lia|]. simpl.
      rewrite Z2Nat.id by lia.
      rewrite (bool_decide_eq_true_2 (i ∈ i :: index)) by left.
      by destruct (bool_decide (i ∈ index)).
    + rewrite list_lookup_insert_ne by done.
      destruct (l !! v) as [a|] eqn:Hv; simpl; [|done].
      f_equal. apply lookup_lt_Some in Hv.
      destruct (bool_decide (Z.of_nat v ∈ index)) eqn:Hd.
      * apply bool_decide_eq_true_1 in Hd.
        rewrite bool_decide_eq_true_2; [done|by right].
      * apply bool_decide_eq_false_1 in Hd.
        rewrite bool_decide_eq_false_2; [done|].
        intros [Heq|?]%elem_of_cons; [|done]. lia.
Qed.

Lemma scatter_Some_in_range (l l' : list F) (index : list Z) (x : F) :
  scatter_ l index x = Some l' →
  ∀ i, i ∈ index → (0 ≤ i < Z.of_nat (length l))%Z.
Proof.
  revert l. induction index as [|j index IH]; intros l Hs i Hi.
  - by apply elem_of_nil in Hi.
  - simpl in Hs. case_bool_decide as Hj; [|done].
    apply elem_of_cons in Hi as [->|Hi]; [done|].
    specialize (IH _ Hs i Hi). by rewrite length_insert in IH.
Qed.

Lemma scatter_zeros (n : nat) (parcel : list Z) :
  (∀ i, i ∈ parcel → (0 ≤ i < Z.of_nat n)%Z) →
  scatter_ (zeros n) parcel fone = Some (indicator parcel <$> seq 0 n).
Proof.
  intros Hin. rewrite scatter_in_range
    by (unfold zeros; rewrite length_replicate; done).
  f_equal. apply list_eq. intros v.
  rewrite list_lookup_imap, list_lookup_fmap. unfold zeros.
  destruct (decide (v < n)) as [Hv|Hv].
  - rewrite lookup_replicate_2 by done. rewrite lookup_seq_lt by done. done.
  - rewrite lookup_replicate_ge by lia. rewrite lookup_seq_ge by lia. done.
Qed.

Lemma mapM_scatter_in_range (n : nat) (parcel_list : list (list Z)) :
  in_range n parcel_list →
  mapM (λ parcel, scatter_ (zeros n) parcel fone) parcel_list
  = Some ((λ parcel, indicator parcel <$> seq 0 n) <$> parcel_list).
Proof.
  intros Hin. apply mapM_Some. apply Forall2_fmap_r, Forall_Forall2_diag.
  apply Forall_forall. intros parcel Hp. apply scatter_zeros.
  intros i Hi. by apply (Hin parcel).
Qed.

Lemma stack_same_length (n : nat) (rows : list (list F)) :
  rows ≠ [] → Forall (λ r, length r = n) rows → stack rows = Some rows.
Proof.
  intros Hne Hall. destruct rows as [|r rows]; [done|]. simpl.
  apply Forall_cons in Hall as [Hr Hall].
  rewrite (proj2 (forallb_forall _ _)); [done|].
  intros u Hu. apply Nat.eqb_eq. rewrite Hr.
  rewrite Forall_forall in Hall. apply Hall. by apply list_elem_of_In.
Qed.

Lemma transpose_indicator (n : nat) (parcel_list : list (list Z)) :
  transpose n ((λ parcel, indicator parcel <$> seq 0 n) <$> parcel_list)
  = membership_matrix n parcel_list.
Proof.
  unfold membership_matrix. induction parcel_list as [|parcel ps IH]; csimpl.
  - apply list_eq. intros v. rewrite list_lookup_fmap.
    destruct (decide (v < n)).
    + rewrite lookup_replicate_2, lookup_seq_lt by done. done.
    + rewrite lookup_replicate_ge, lookup_seq_ge by lia. done.
  - rewrite IH. apply zip_with_fmap_same.
Qed.

(** Construction succeeds on a non-empty, in-range parcel list and yields
    the membership matrix. *)
Lemma build_parcel_mask_ok (n : nat) (parcel_list : list (list Z)) :
  parcel_list ≠ [] → in_range n parcel_list →
  build_parcel_mask n parcel_list = Some (membership_matrix n parcel_list).
Proof.
  intros Hne Hin. unfold build_parcel_mask.
  rewrite mapM_scatter_in_range by done. simpl.
  rewrite (stack_same_length n); simpl.
  - by rewrite transpose_indicator.
  - by destruct parcel_list.
  - apply Forall_fmap, Forall_forall. intros parcel _. simpl.
    by rewrite length_fmap, length_seq.
Qed.

(** A constructed mask comes from a non-empty, in-range parcel list. *)
Lemma build_parcel_mask_Some (n : nat) (parcel_list : list (list Z))
    (M : list (list F)) :
  build_parcel_mask n parcel_list = Some M →
  parcel_list ≠ [] ∧ in_range n parcel_list ∧ M = membership_matrix n parcel_list.
Proof.
  intros Hb.
  assert (in_range n parcel_list) as Hin.
  { unfold build_parcel_mask in Hb.
    destruct (mapM _ parcel_list) as [rows|] eqn:Hrows; [|done].
    apply mapM_Some in Hrows. intros parcel i Hp Hi.
    apply list_elem_of_lookup in Hp as [p Hp].
    destruct (Forall2_lookup_l _ _ _ _ _ Hrows Hp) as (row & _ & Hs).
    apply scatter_Some_in_range with (i := i) in Hs; [|done].
    unfold zeros in Hs. by rewrite length_replicate in Hs. }
  assert (parcel_list ≠ []) as Hne by (intros ->; done).
  split; [done|]. split; [done|].
  rewrite build_parcel_mask_ok in Hb by done. congruence.
Qed.

Lemma membership_matrix_entry (n : nat) (parcel_list : list (list Z))
    (v p : nat) (parcel : list Z) :
  v < n → parcel_list !! p = Some parcel →
  entry (membership_matrix n parcel_list) v p = Some (indicator parcel v).
Proof.
  intros Hv Hp. unfold entry, membership_matrix.
  rewrite list_lookup_fmap, lookup_seq_lt by done. simpl.
  by rewrite list_lookup_fmap, Hp.
Qed.

Lemma membership_matrix_binary (n : nat) (parcel_list : list (list Z)) :
  Forall (Forall (λ x : F, x = fzero ∨ x = fone)) (membership_matrix n parcel_list).
Proof.
  unfold membership_matrix. apply Forall_fmap, Forall_forall. intros v _.
  apply Forall_fmap, Forall_forall. intros parcel _. simpl.
  unfold indicator. case_bool_decide; [by right|by left].
Qed.

End ParcelMaskFacts.

Section ParcelMaskClaims.
Context {F : Type} `{Scalar F}.

Lemma in_range_Forall (n : nat) (parcel_list : list (list Z)) :
  in_range n parcel_list
  ↔ Forall (Forall (λ i, 0 ≤ i < Z.of_nat n)%Z) parcel_list.
Proof.
  unfold in_range. rewrite Forall_forall. split.
  - intros Hin parcel Hp. apply Forall_forall. intros i Hi. by apply (Hin parcel).
  - intros Hall parcel i Hp Hi. specialize (Hall parcel Hp).
    rewrite Forall_forall in Hall. by apply Hall.
Qed.

Lemma membership_matrix_shape (n : nat) (parcel_list : list (list Z)) :
  length (membership_matrix (F:=F) n parcel_list) = n ∧
  Forall (λ row, length row = length parcel_list)
         (membership_matrix (F:=F) n parcel_list).
Proof.
  unfold membership_matrix. split.
  - by rewrite length_fmap, length_seq.
  - apply Forall_fmap, Forall_forall. intros v _. simpl. by rewrite length_fmap.
Qed.

Lemma membership_matrix_column (n : nat) (parcel_list : list (list Z))
    (p : nat) (parcel : list Z) :
  parcel_list !! p = Some parcel →
  column (membership_matrix n parcel_list) p
  = Some (indicator (F:=F) parcel <$> seq 0 n).
Proof.
  intros Hp. unfold column, membership_matrix. apply mapM_Some.
  apply Forall2_fmap, Forall_Forall2_diag, Forall_forall. intros v _.
  by rewrite list_lookup_fmap, Hp.
Qed.

(** Adding up indicator values counts the members. *)
Lemma foldl_indicator `{!ExactScalar F} (parcel : list Z) (l : list nat) (k : nat) :
  foldl fadd (of_count k) (indicator (F:=F) parcel <$> l)
  = of_count (k + length (filter (λ v, Z.of_nat v ∈ parcel) l)).
Proof.
  revert k. induction l as [|v l IH]; intros k; csimpl.
  - by rewrite Nat.add_0_r.
  - unfold indicator at 1. rewrite filter_cons. case_bool_decide as Hv.
    + rewrite decide_True by done. simpl.
      change (fadd (of_count k) fone) with (of_count (F:=F) (S k)).
      rewrite IH. f_equal. lia.
    + rewrite decide_False by done. rewrite fadd_0_r. apply IH.
Qed.

(** The voxels below [n] listed by an in-range parcel are as many as its
    distinct indices. *)
Lemma count_members (n : nat) (parcel : list Z) :
  Forall (λ i, 0 ≤ i < Z.of_nat n)%Z parcel →
  length (filter (λ v, Z.of_nat v ∈ parcel) (seq 0 n))
  = length (remove_dups parcel).
Proof.
  intros Hin. rewrite Forall_forall in Hin.
  rewrite <- (length_fmap Z.of_nat). apply Permutation_length.
  apply NoDup_Permutation.
  - apply (NoDup_fmap_2 _), NoDup_filter, NoDup_seq.
  - apply NoDup_remove_dups.
  - intros x. rewrite elem_of_remove_dups, list_elem_of_fmap. split.
    + intros (v & -> & Hv). by apply list_elem_of_filter in Hv as [? _].
    + intros Hx. exists (Z.to_nat x). specialize (Hin x Hx).
      split; [lia|]. apply list_elem_of_filter. split.
      * by rewrite Z2Nat.id by lia.
      * apply elem_of_seq. lia.
Qed.

(** Claim C4, amended: for every non-empty parcel list whose index sets are
    pairwise disjoint and in range, the construction of the mask (a function
    of the parcel list alone) yields a (num_voxels, P) matrix in which column
    [p] has 1 exactly at the voxel indices of parcel [p] and 0 elsewhere; the
    sum of column [p] is the number of distinct indices of parcel [p], and
    every listed voxel index has value 1 in exactly one column, that of its
    parcel. *)
Theorem parcel_mask_columns `{!ExactScalar F} (n : nat)
    (parcel_list : list (list Z)) :
  parcel_list ≠ [] → in_range n parcel_list → pairwise_disjoint parcel_list →
  ∃ M : list (list F),
    build_parcel_mask n parcel_list = Some M ∧
    length M = n ∧
    Forall (λ row, length row = length parcel_list) M ∧
    ∀ p parcel, parcel_list !! p = Some parcel →
      (∀ v, v < n →
         entry M v p
         = Some (if bool_decide (Z.of_nat v ∈ parcel) then fone else fzero)) ∧
      (∃ col, column M p = Some col ∧
              tsum col = of_count (length (remove_dups parcel))) ∧
      (∀ i q, i ∈ parcel → entry M (Z.to_nat i) q = Some fone ↔ q = p).
Proof.
  intros Hne Hin Hdisj. exists (membership_matrix n parcel_list).
  split; [by apply build_parcel_mask_ok|].
  destruct (membership_matrix_shape n parcel_list) as [Hlen Hrows].
  split; [done|]. split; [done|].
  intros p parcel Hp. split; [|split].
  - intros v Hv. by apply membership_matrix_entry.
  - exists (indicator parcel <$> seq 0 n).
    split; [by apply membership_matrix_column|].
    unfold tsum. change fzero with (of_count (F:=F) 0).
    rewrite foldl_indicator. simpl. f_equal. apply count_members.
    apply in_range_Forall in Hin. rewrite Forall_forall in Hin.
    apply Hin. by eapply list_elem_of_lookup_2.
  - intros i q Hi.
    assert (0 ≤ i < Z.of_nat n)%Z as Hir.
    { apply (Hin parcel); [|done]. by eapply list_elem_of_lookup_2. }
    split.
    + intros He. destruct (parcel_list !! q) as [parcel_q|] eqn:Hq.
      * rewrite (membership_matrix_entry n parcel_list _ q parcel_q) in He
          by (done || lia).
        unfold indicator in He. rewrite Z2Nat.id in He by lia.
        case_bool_decide as Hiq.
        -- symmetry. by apply (Hdisj p q parcel parcel_q i).
        -- simplify_eq. by destruct fone_neq_fzero.
      * exfalso. unfold entry, membership_matrix in He.
        rewrite list_lookup_fmap, lookup_seq_lt in He by lia. simpl in He.
        by rewrite list_lookup_fmap, Hq in He.
    + intros ->.
      rewrite (membership_matrix_entry n parcel_list _ p parcel) by (done || lia).
      unfold indicator. rewrite Z2Nat.id by lia.
      by rewrite bool_decide_eq_true_2.
Qed.

(** Claim C5: a parcel list that holds some voxel index outside
    [0, num_voxels) makes the construction of the mask raise, and with it
    the construction of the model: no model exists to train. *)
Theorem parcel_mask_out_of_range (d_model : nat)
    (new_linear : nat → nat → Linear F) (dataset : Dataset) :
  (∃ parcel i, parcel ∈ parcels dataset ∧ i ∈ parcel ∧
               ¬ (0 ≤ i < Z.of_nat (num_hemi_voxels dataset))%Z) →
  build_parcel_mask (F:=F) (num_hemi_voxels dataset) (parcels dataset) = None ∧
  brain_encoder_init d_model new_linear dataset = None.
Proof.
  intros (parcel & i & Hp & Hi & Hout).
  assert (build_parcel_mask (F:=F) (num_hemi_voxels dataset) (parcels dataset)
          = None) as Hnone.
  { destruct (build_parcel_mask _ _) as [M|] eqn:Hb; [|done].
    apply build_parcel_mask_Some in Hb as (_ & Hin & _).
    destruct Hout. by apply (Hin parcel). }
  split; [done|]. unfold brain_encoder_init. by rewrite Hnone.
Qed.

(** Claim C10: for every parcel list with in-range indices, repeated or
    shared indices included, every entry of the constructed mask is exactly
    0 or 1 (and a mask is constructed as soon as the list is non-empty). *)
Theorem parcel_mask_binary (n : nat) (parcel_list : list (list Z)) :
  in_range n parcel_list →
  (parcel_list ≠ [] → is_Some (build_parcel_mask (F:=F) n parcel_list)) ∧
  ∀ M : list (list F), build_parcel_mask n parcel_list = Some M →
    Forall (Forall (λ x, x = fzero ∨ x = fone)) M.
Proof.
  intros Hin. split.
  - intros Hne. rewrite build_parcel_mask_ok by done. by eexists.
  - intros M HM. apply build_parcel_mask_Some in HM as (_ & _ & ->).
    apply membership_matrix_binary.
Qed.

End ParcelMaskClaims.


(** ** The readout *)

Section ReadoutFacts.
Context {F : Type} `{Scalar F}.

Lemma Linear_forward_ok (l : Linear F) (x : list F) :
  Linear_shape l → length x = in_features l →
  ∃ y, Linear_forward l x = Some y ∧ length y = out_features l.
Proof.
  intros (Hw & _ & Hb) Hx. unfold Linear_forward.
  rewrite (proj2 (Nat.eqb_eq _ _) Hx). eexists. split; [done|].
  rewrite length_zip_with. lia.
Qed.

Lemma Linear_forward_tokens (l : Linear F) (toks : list (list F)) :
  Linear_shape l → Forall (λ t, length t = in_features l) toks →
  ∃ projs, mapM (Linear_forward l) toks = Some projs ∧
           length projs = length toks ∧
           Forall (λ y, length y = out_features l) projs.
Proof.
  intros Hl. induction 1 as [|t toks Ht _ (projs & Hm & Hlen & Hall)].
  - exists []. by repeat split.
  - destruct (Linear_forward_ok l t Hl Ht) as (y & Hy & Hylen).
    exists (y :: projs). split; [|split].
    + apply mapM_Some. constructor; [done|]. by apply mapM_Some.
    + simpl. by f_equal.
    + by constructor.
Qed.

Lemma bmul1_same_length (x y : list F) :
  length x = length y → bmul1 x y = Some (zip_with fmul x y).
Proof. intros Hxy. unfold bmul1. by rewrite (proj2 (Nat.eqb_eq _ _) Hxy). Qed.

Lemma bmul2_same_shape (x y : list (list F)) :
  Forall2 (λ a b, length a = length b) x y →
  bmul2 x y = Some (zip_with (zip_with fmul) x y).
Proof.
  intros Hxy. unfold bmul2.
  rewrite (proj2 (Nat.eqb_eq _ _) (Forall2_length _ _ _ Hxy)).
  apply mapM_Some. induction Hxy as [|a b x y Hab _ IH]; simpl.
  - constructor.
  - constructor; [|done]. simpl. by apply bmul1_same_length.
Qed.

Lemma readout_by_sample (self : brain_encoder F)
    (output_tokens : list (list (list F))) :
  readout self output_tokens = mapM (readout_sample self) output_tokens.
Proof. apply mapM_pipeline. Qed.

(** Masking then summing keeps the values of the parcels that list [v]. *)
Lemma masked_out_finite_tail (ffinite : F → Prop) (parcel : list Z)
    (ps : list (list Z)) (r : list F) (projs : list (list F)) (v : nat) :
  masked_out_finite ffinite (parcel :: ps) (r :: projs) v →
  masked_out_finite ffinite ps projs v.
Proof.
  intros Hfin p parcel' proj x Hp Hv Hproj Hx.
  by apply (Hfin (S p) parcel' proj x).
Qed.

(** Masking then summing keeps the values of the parcels that list [v],
    when the values masked out are finite. *)
Lemma foldl_masked `{!ExactScalar F} (ffinite : F → Prop)
    `{!FiniteScalar F ffinite} (parcel_list : list (list Z))
    (projs : list (list F)) (col : list F) (v : nat) (acc : F) :
  Forall2 (λ r x, r !! v = Some x) projs col →
  length projs = length parcel_list →
  masked_out_finite ffinite parcel_list projs v →
  foldl fadd acc (zip_with fmul col ((λ parcel, indicator parcel v) <$> parcel_list))
  = foldl fadd acc (contributions parcel_list projs v).
Proof.
  intros Hcol. revert parcel_list acc.
  induction Hcol as [|r x projs col Hx _ IH]; intros parcel_list acc Hlen Hfin.
  - by destruct parcel_list.
  - destruct parcel_list as [|parcel ps]; [done|].
    pose proof (masked_out_finite_tail _ _ _ _ _ _ Hfin) as Hfin'. csimpl.
    unfold contributions. csimpl. unfold indicator at 1.
    case_bool_decide as Hv; rewrite ?Hx; simpl.
    + rewrite fmul_1_r. apply IH; [simpl in Hlen; lia|done].
    + rewrite (fmul_0_r x), fadd_0_r.
      * apply IH; [simpl in Hlen; lia|done].
      * by apply (Hfin 0 parcel r x).
Qed.

Lemma contributions_single (parcel_list : list (list Z))
    (projs : list (list F)) (v p : nat) (parcel : list Z) (proj : list F)
    (x : F) :
  pairwise_disjoint parcel_list →
  parcel_list !! p = Some parcel → Z.of_nat v ∈ parcel →
  projs !! p = Some proj → proj !! v = Some x →
  contributions parcel_list projs v = [x].
Proof.
  intros Hdisj Hp Hv Hproj Hx. unfold contributions.
  apply (omap_singleton_at _ _ p (parcel, proj)).
  - by rewrite lookup_zip_with, Hp, Hproj.
  - simpl. by rewrite bool_decide_eq_true_2.
  - intros q [parcel_q proj_q] Hq Hzq. simpl.
    apply lookup_zip_with_Some in Hzq as (a & b & Heq & Ha & _).
    injection Heq as -> ->.
    rewrite bool_decide_eq_false_2; [done|].
    intros Hvq. destruct Hq. by apply (Hdisj q p a parcel (Z.of_nat v)).
Qed.

End ReadoutFacts.

Section ReadoutClaims.
Context {F : Type} `{Scalar F} `{!ExactScalar F}.
Context (ffinite : F → Prop) `{!FiniteScalar F ffinite}.

(** One sample: a row comes out, and every voxel to which the parcels that
    do not list it project finite values is the sum of the values projected
    to it by the parcels that list it. *)
Lemma readout_sample_spec (self : brain_encoder F) (n : nat)
    (parcel_list : list (list Z)) (toks : list (list F)) :
  Linear_shape (embed self) → out_features (embed self) = n →
  parcel_mask self = membership_matrix n parcel_list →
  length toks = length parcel_list →
  Forall (λ t, length t = in_features (embed self)) toks →
  ∃ projs row,
    mapM (Linear_forward (embed self)) toks = Some projs ∧
    readout_sample self toks = Some row ∧
    ∀ v, v < n → masked_out_finite ffinite parcel_list projs v →
      row !! v = Some (tsum (contributions parcel_list projs v)).
Proof.
  intros Hshape Hout Hmask Hlen Htoks.
  destruct (Linear_forward_tokens (embed self) toks Hshape Htoks)
    as (projs & Hprojs & Hplen & Hprows).
  rewrite Hout in Hprows.
  assert (Forall2 (λ a b : list F, length a = length b)
            (transpose n projs) (membership_matrix n parcel_list)) as Hsame.
  { destruct (membership_matrix_shape (F:=F) n parcel_list) as [HMlen HMrows].
    apply Forall2_same_length_lookup. split.
    - by rewrite transpose_length, HMlen.
    - intros v col mrow Hcol Hmrow.
      assert (v < n) as Hv.
      { apply lookup_lt_Some in Hcol. by rewrite transpose_length in Hcol. }
      destruct (transpose_lookup n projs v Hprows Hv) as (col' & Hcol' & Hall).
      simplify_eq. rewrite <- (Forall2_length _ _ _ Hall).
      rewrite Forall_forall in HMrows.
      rewrite (HMrows mrow) by (by eapply list_elem_of_lookup_2). lia. }
  exists projs. eexists. split; [done|]. split.
  - unfold readout_sample. rewrite Hprojs. simpl.
    rewrite Hout, Hmask, (bmul2_same_shape _ _ Hsame). done.
  - intros v Hv Hfin.
    destruct (transpose_lookup n projs v Hprows Hv) as (col & Hcol & Hall).
    rewrite list_lookup_fmap, lookup_zip_with, Hcol. simpl.
    unfold membership_matrix at 1.
    rewrite list_lookup_fmap, lookup_seq_lt by done. simpl. f_equal.
    apply (foldl_masked ffinite); [done|lia|done].
Qed.

(** Claim C1, amended: for every token tensor of shape (batch, P,
    hidden_dim) and the mask built from in-range parcels, the readout
    returns one row per sample, and at every voxel [v] to which the parcels
    that do not contain [v] project finite values, the output is the sum,
    over the parcels that contain [v], of the value the shared linear
    projection gives that parcel at index [v]; when the parcels are pairwise
    disjoint it is the projection output at index [v] of the single parcel
    that owns [v].  (A value that is masked out is multiplied by zero, which
    gives zero for a finite value only.) *)
Theorem readout_owner_sum (d_model : nat) (new_linear : nat → nat → Linear F)
    (dataset : Dataset) (self : brain_encoder F)
    (output_tokens : list (list (list F))) :
  (∀ i o, in_features (new_linear i o) = i ∧ out_features (new_linear i o) = o ∧
          Linear_shape (new_linear i o)) →
  brain_encoder_init d_model new_linear dataset = Some self →
  Forall (λ toks, length toks = length (parcels dataset) ∧
                  Forall (λ t, length t = d_model) toks) output_tokens →
  ∃ pred,
    readout self output_tokens = Some pred ∧
    length pred = length output_tokens ∧
    ∀ b toks, output_tokens !! b = Some toks →
      ∃ projs,
        mapM (Linear_forward (embed self)) toks = Some projs ∧
        ∀ v, v < num_hemi_voxels dataset →
          masked_out_finite ffinite (parcels dataset) projs v →
          entry pred b v
          = Some (tsum (contributions (parcels dataset) projs v)) ∧
          (pairwise_disjoint (parcels dataset) →
           ∀ p parcel proj,
             parcels dataset !! p = Some parcel → Z.of_nat v ∈ parcel →
             projs !! p = Some proj →
             entry pred b v = proj !! v).
Proof.
  intros Hnew Hinit Htok. unfold brain_encoder_init in Hinit.
  destruct (build_parcel_mask _ _) as [pm|] eqn:Hpm; [|done].
  apply build_parcel_mask_Some in Hpm as (Hne & Hin & ->).
  simpl in Hinit. injection Hinit as <-.
  destruct (Hnew d_model (num_hemi_voxels dataset)) as (Hi & Ho & Hshape).
  set (self := {| num_queries := _ |}) in *.
  assert (∀ toks, toks ∈ output_tokens →
            ∃ projs row,
              mapM (Linear_forward (embed self)) toks = Some projs ∧
              readout_sample self toks = Some row ∧
              ∀ v, v < num_hemi_voxels dataset →
                masked_out_finite ffinite (parcels dataset) projs v →
                row !! v = Some (tsum (contributions (parcels dataset) projs v)))
    as Hsample.
  { intros toks Htoks. rewrite Forall_forall in Htok.
    destruct (Htok toks Htoks) as [Hlen Hall].
    apply readout_sample_spec; simpl; try done. by rewrite Hi. }
  destruct (mapM_is_Some_2 (readout_sample self) output_tokens) as [pred Hpred].
  { apply Forall_forall. intros toks Htoks.
    destruct (Hsample toks Htoks) as (? & row & _ & Hrow & _).
    simpl. rewrite Hrow. by eexists. }
  exists pred. rewrite readout_by_sample. split; [done|].
  apply mapM_Some in Hpred. split; [symmetry; by eapply Forall2_length|].
  intros b toks Hb.
  destruct (Forall2_lookup_l _ _ _ _ _ Hpred Hb) as (row & Hrow & Hsrow).
  destruct (Hsample toks) as (projs & row' & Hprojs & Hrow' & Hvals);
    [by eapply list_elem_of_lookup_2|].
  simplify_eq. exists projs. split; [done|]. intros v Hv Hfin.
  unfold entry. rewrite Hrow. simpl. rewrite (Hvals v Hv Hfin). split; [done|].
  intros Hdisj p parcel proj Hp Hvp Hproj.
  assert (length proj = num_hemi_voxels dataset) as Hplen.
  { destruct (Linear_forward_tokens (embed self) toks) as (projs' & Hp' & _ & Hall').
    - done.
    - rewrite Forall_forall in Htok.
      destruct (Htok toks) as [_ Hall]; [by eapply list_elem_of_lookup_2|].
      simpl. by rewrite Hi.
    - simplify_eq. rewrite Forall_forall in Hall'. rewrite <- Ho.
      apply Hall'. by eapply list_elem_of_lookup_2. }
  destruct (lookup_lt_is_Some_2 proj v) as [x Hx]; [lia|].
  rewrite (contributions_single _ _ v p parcel proj x) by done.
  rewrite Hx. unfold tsum. simpl. by rewrite fadd_0_l.
Qed.

End ReadoutClaims.


(** ** Unwrapping a packed tensor *)

Lemma replicate_length_fmap {A B : Type} (l : list A) (x : B) :
  replicate (length l) x = (λ _, x) <$> l.
Proof. induction l as [|a l IH]; csimpl; [done|]. by f_equal. Qed.

Lemma zip_with_cons_nil {A B : Type} (f : A → B) (k : list A) :
  zip_with cons (f <$> k) (replicate (length k) []) = (λ x, [f x]) <$> k.
Proof. induction k as [|x k IH]; csimpl; [done|]. by f_equal. Qed.

(** Transposing a batch of rows that are all images of the same list. *)
Lemma transpose_fmap_rows {A B C : Type} (g : A → B → C) (k : list B)
    (x : A) (l : list A) :
  transpose (length k) ((λ row, g row <$> k) <$> (x :: l))
  = (λ y, (λ row, g row y) <$> (x :: l)) <$> k.
Proof.
  revert x. induction l as [|x' l IH]; intros x.
  - cbn [fmap list_fmap transpose]. apply zip_with_cons_nil.
  - change ((λ row, g row <$> k) <$> (x :: x' :: l))
      with ((g x <$> k) :: ((λ row, g row <$> k) <$> (x' :: l))).
    cbn [transpose]. rewrite IH. by rewrite zip_with_fmap_same.
Qed.

Lemma transpose_fmap_rows_cons {A B C : Type} (g : A → B → C) (k : list B)
    (x : A) (l : list A) :
  transpose (length k) ((g x <$> k) :: ((λ row, g row <$> k) <$> l))
  = (λ y, (λ row, g row y) <$> (x :: l)) <$> k.
Proof. apply (transpose_fmap_rows g k x l). Qed.

Lemma foldlM_fmap {S A B : Type} (body : S → B → option S) (f : A → B)
    (s : S) (l : list A) :
  foldlM body s (f <$> l) = foldlM (λ s' x, body s' (f x)) s l.
Proof.
  revert s. induction l as [|x l IH]; intros s; [done|]. csimpl.
  destruct (body s (f x)); [apply IH|done].
Qed.

Lemma foldl_app_concat {A : Type} (acc : list A) (wss : list (list A)) :
  foldl (λ log ws, log ++ ws) acc wss = acc ++ concat wss.
Proof.
  revert acc. induction wss as [|ws wss IH]; intros acc; simpl.
  - by rewrite app_nil_r.
  - by rewrite IH, app_assoc.
Qed.

Section UnwrapFacts.
Context {F : Type} `{Scalar F}.

Lemma length_fill_slots (m : list bool) (vals : list F) :
  length (fill_slots m vals) = length m.
Proof.
  revert vals. induction m as [|[] m IH]; intros vals; simpl; [done|..].
  - destruct vals; simpl; by rewrite IH.
  - by rewrite IH.
Qed.

Lemma count_true_cons (b : bool) (m : list bool) :
  count_true (b :: m) = (if b then 1 else 0) + count_true m.
Proof. unfold count_true. rewrite filter_cons. by destruct b. Qed.

(** The valid slots of a filled row are the values put there. *)
Lemma select_fill_slots (m : list bool) (vals : list F) :
  length vals = count_true m →
  select_mask (fill_slots m vals) m = Some vals.
Proof.
  intros Hlen. unfold select_mask.
  rewrite length_fill_slots, Nat.eqb_refl. f_equal.
  revert vals Hlen. induction m as [|b m IH]; intros vals Hlen.
  - destruct vals; [done|]. by rewrite count_true_cons in Hlen || done.
  - rewrite count_true_cons in Hlen. destruct b; simpl.
    + destruct vals as [|x vals]; [done|]. simpl in Hlen. cbn [zip_with].
      rewrite filter_cons_True by done. csimpl. f_equal. apply IH. lia.
    + cbn [zip_with]. rewrite filter_cons_False by (simpl; tauto).
      apply IH. by simpl in Hlen.
Qed.

Lemma broadcast_to_same {A : Type} (l : list A) (n : nat) :
  length l = n → broadcast_to n l = Some l.
Proof. intros <-. unfold broadcast_to. by rewrite Nat.eqb_refl. Qed.

Lemma zip_fmap_r_same {A B : Type} (g : A → B) (l : list A) :
  zip l (g <$> l) = (λ j, (j, g j)) <$> l.
Proof. induction l as [|x l IH]; csimpl; [done|]. by f_equal. Qed.

(** One iteration of the loop on a packed parcel: every row receives the
    writes [(j, row[j])] for the voxels [js] of the parcel. *)
Lemma assign_packed_parcel {S : Type} (put : S → list (nat * F) → S)
    (ncols : nat) (st : list F → S) (dense : list (list F)) (idxs : list Z)
    (js : list nat) (m : list bool) (g : list F → nat → F) :
  mapM (norm_index ncols) idxs = Some js →
  length js = count_true m →
  (value ← mapM (λ r, select_mask r m)
             ((λ row, fill_slots m (g row <$> js)) <$> dense);
   assign_columns put ncols (st <$> dense) idxs value)
  = Some ((λ row, put (st row) ((λ j, (j, g row j)) <$> js)) <$> dense).
Proof.
  intros Hjs Hcount.
  assert (length idxs = length js) as Hlen.
  { apply mapM_Some in Hjs. by eapply Forall2_length. }
  assert (mapM (λ r, select_mask r m)
            ((λ row, fill_slots m (g row <$> js)) <$> dense)
          = Some ((λ row, g row <$> js) <$> dense)) as ->.
  { apply mapM_Some, Forall2_fmap, Forall_Forall2_diag, Forall_forall.
    intros row _. apply select_fill_slots. by rewrite length_fmap. }
  cbn [mbind option_bind]. unfold assign_columns. rewrite Hjs.
  cbn [mbind option_bind].
  rewrite broadcast_to_same by (by rewrite !length_fmap).
  cbn [mbind option_bind]. apply mapM_Some.
  rewrite zip_with_fmap_same. apply Forall2_fmap, Forall_Forall2_diag, Forall_forall.
  intros row _. simpl.
  rewrite broadcast_to_same by (rewrite length_fmap; lia). simpl.
  by rewrite zip_fmap_r_same.
Qed.

(** The whole loop on a packed batch. *)
Lemma unwrap_fold_packed {S : Type} (put : S → list (nat * F) → S)
    (ncols : nat) (dense : list (list F)) (g : list F → nat → F)
    (parcel_list : list (list Z)) (jss : list (list nat))
    (masks : list (list bool)) (st : list F → S) :
  Forall2 (λ idxs js, mapM (norm_index ncols) idxs = Some js) parcel_list jss →
  Forall2 (λ js m, length js = count_true m) jss masks →
  foldlM (λ recon (pbm : list Z * (list (list F) * list bool)),
            value ← mapM (λ r, select_mask r pbm.2.2) pbm.2.1;
            assign_columns put ncols recon pbm.1 value)
         (st <$> dense)
         (zip parcel_list
              (zip ((λ jm : list nat * list bool,
                       (λ row : list F, fill_slots jm.2 (g row <$> jm.1))
                       <$> dense)
                    <$> zip jss masks)
                   masks))
  = Some ((λ row : list F,
             foldl put (st row)
                   ((λ js : list nat, (λ j, (j, g row j)) <$> js) <$> jss))
          <$> dense).
Proof.
  intros Hjss. revert masks st.
  induction Hjss as [|idxs js parcel_list jss Hjs _ IH]; intros masks st Hm.
  - by destruct masks.
  - inversion Hm as [|? m ? masks' Hcount Hm']; subst.
    cbn [zip_with fmap list_fmap foldlM fst snd].
    rewrite (assign_packed_parcel put ncols st dense idxs js m g Hjs Hcount).
    cbn [mbind option_bind].
    apply (IH masks' (λ row, put (st row) ((λ j, (j, g row j)) <$> js)) Hm').
Qed.

End UnwrapFacts.

Section UnwrapPacked.
Context {F : Type} `{Scalar F}.

Lemma zip_with_as_fmap {A B C : Type} (h : A → B → C) (l : list A) (k : list B) :
  zip_with h l k = (λ ab, h ab.1 ab.2) <$> zip l k.
Proof.
  revert k. induction l as [|a l IH]; intros [|b k]; csimpl; try done.
  by f_equal.
Qed.

(** What [pack] checks before it packs. *)
Lemma pack_Some (dataset : Dataset) (dense : list (list F))
    (packed : list (list (list F))) :
  pack dataset dense = Some packed →
  ∃ lbl jss,
    labels_col0 dataset = Some lbl ∧
    mapM (mapM (norm_index (length lbl))) (parcels dataset) = Some jss ∧
    slots_match dataset = true ∧
    Forall (λ row : list F, length row = length lbl) dense ∧
    packed = (λ row : list F,
                (λ jm : list nat * list bool, fill_slots jm.2 (gather row <$> jm.1))
                <$> zip jss (mask dataset)) <$> dense.
Proof.
  unfold pack. intros Hp.
  destruct (labels_col0 dataset) as [lbl|]; [|done]. simpl in Hp.
  destruct (mapM _ (parcels dataset)) as [jss|] eqn:Hjss; [|done]. simpl in Hp.
  destruct (slots_match dataset) eqn:Hs; [|done]. simpl in Hp.
  destruct (forallb _ dense) eqn:Hd; [|done]. simplify_eq.
  exists lbl, jss. split; [done|]. split; [done|]. split; [done|]. split.
  - apply Forall_forall. intros row Hrow.
    rewrite forallb_forall in Hd. apply Nat.eqb_eq, Hd. by apply list_elem_of_In.
  - apply list_fmap_ext. intros _ row _.
    by rewrite (zip_with_as_fmap
                  (λ (js : list nat) (m : list bool),
                     fill_slots m (gather row <$> js))).
Qed.

Lemma slots_match_Forall2 (ncols : nat) (dataset : Dataset)
    (jss : list (list nat)) :
  mapM (mapM (norm_index ncols)) (parcels dataset) = Some jss →
  slots_match dataset = true →
  Forall2 (λ js m, length js = count_true m) jss (mask dataset).
Proof.
  intros Hjss Hs. apply mapM_Some in Hjss.
  unfold slots_match in Hs. apply andb_true_iff in Hs as [Hlen Hall].
  apply Nat.eqb_eq in Hlen. rewrite forallb_forall in Hall.
  apply Forall2_same_length_lookup. split.
  - rewrite <- Hlen. symmetry. by eapply Forall2_length.
  - intros p js m Hjs Hm.
    destruct (Forall2_lookup_r _ _ _ _ _ Hjss Hjs) as (idxs & Hidxs & Hnorm).
    apply mapM_Some in Hnorm. rewrite <- (Forall2_length _ _ _ Hnorm).
    apply Nat.eqb_eq. apply (Hall (idxs, m)). apply list_elem_of_In.
    apply (list_elem_of_lookup_2 _ p). by rewrite lookup_zip_with, Hidxs, Hm.
Qed.

(** The loop of [unwrap_fmri] on a packed batch: every row receives, parcel
    by parcel, the writes [(j, row[j])] for the voxels [j] of the parcel. *)
Lemma unwrap_loop_packed {S : Type} (put : S → list (nat * F) → S) (init : S)
    (dataset : Dataset) (dense : list (list F)) (packed : list (list (list F)))
    (lbl : list Z) (jss : list (list nat)) :
  pack dataset dense = Some packed →
  labels_col0 dataset = Some lbl →
  mapM (mapM (norm_index (length lbl))) (parcels dataset) = Some jss →
  unwrap_loop put init (length lbl) (length dense) packed dataset
  = Some ((λ row : list F,
             foldl put init
                   ((λ js : list nat, (λ j, (j, gather row j)) <$> js) <$> jss))
          <$> dense).
Proof.
  intros Hpack Hlbl Hjss.
  apply pack_Some in Hpack as (lbl' & jss' & ? & ? & Hs & Hd & ->).
  simplify_eq. unfold unwrap_loop, permute_1_0_2.
  destruct dense as [|x dense].
  { cbn [fmap list_fmap transpose replicate zip_with length].
    by rewrite zip_with_nil_r. }
  cbn [fmap list_fmap]. rewrite length_fmap.
  rewrite (transpose_fmap_rows_cons
             (λ (row : list F) (jm : list nat * list bool),
                fill_slots jm.2 (gather row <$> jm.1))).
  rewrite (replicate_length_fmap (x :: dense)).
  apply (unwrap_fold_packed put (length lbl') (x :: dense) gather
           (parcels dataset) jss' (mask dataset) (λ _, init)).
  - by apply mapM_Some.
  - by eapply slots_match_Forall2.
Qed.

End UnwrapPacked.

(** ** Writes and what they leave behind *)

Lemma norm_index_lt (n : nat) (i : Z) (j : nat) :
  norm_index n i = Some j → j < n.
Proof.
  unfold norm_index. intros Hn.
  repeat case_bool_decide; simplify_eq; lia.
Qed.

Lemma norm_index_in_range (n : nat) (i : Z) :
  (0 ≤ i < Z.of_nat n)%Z → norm_index n i = Some (Z.to_nat i).
Proof. intros Hi. unfold norm_index. by rewrite bool_decide_eq_true_2. Qed.

Lemma fmap_concat {A B : Type} (f : A → B) (ls : list (list A)) :
  concat ((λ l : list A, f <$> l) <$> ls) = f <$> concat ls.
Proof.
  induction ls as [|l ls IH]; csimpl; [done|]. by rewrite fmap_app, IH.
Qed.

Lemma mapM_concat {A B : Type} (f : A → option B) (ls : list (list A))
    (ks : list (list B)) :
  mapM (mapM f) ls = Some ks → Forall2 (λ x y, f x = Some y) (concat ls) (concat ks).
Proof.
  intros Hm. apply mapM_Some in Hm.
  induction Hm as [|l k ls ks Hlk _ IH]; simpl; [constructor|].
  apply Forall2_app; [by apply mapM_Some|done].
Qed.

Lemma Forall2_omap_Some {A B : Type} (f : A → option B) (l : list A) (k : list B) :
  Forall2 (λ x y, f x = Some y) l k → omap f l = k.
Proof. induction 1 as [|x y l k Hxy _ IH]; csimpl; [done|]. by rewrite Hxy, IH. Qed.

Lemma Forall2_filter_length {A B : Type} `{EqDecision B} (f : A → option B)
    (v : B) (l : list A) (k : list B) :
  Forall2 (λ x y, f x = Some y) l k →
  length (filter (λ i, f i = Some v) l) = length (filter (λ j, j = v) k).
Proof.
  induction 1 as [|x y l k Hxy _ IH]; [done|].
  rewrite !filter_cons. rewrite Hxy.
  destruct (decide (y = v)) as [->|Hne].
  - rewrite decide_True by done. simpl. by rewrite IH.
  - rewrite decide_False by congruence. done.
Qed.

Lemma NoDup_filter_eq_length {A : Type} `{EqDecision A} (v : A) (l : list A) :
  NoDup l → v ∈ l → length (filter (λ j, j = v) l) = 1.
Proof.
  induction 1 as [|x l Hx Hnd IH]; intros Hv; [by apply elem_of_nil in Hv|].
  rewrite filter_cons. destruct (decide (x = v)) as [->|Hne].
  - simpl. f_equal. apply length_zero_iff_nil.
    destruct (filter _ l) as [|y ys] eqn:Hf; [done|].
    assert (y ∈ filter (λ j, j = v) l) as Hy by (rewrite Hf; left).
    apply list_elem_of_filter in Hy as [-> Hy]. done.
  - apply IH. apply elem_of_cons in Hv as [->|Hv]; done.
Qed.

Lemma filter_fst_fmap_length {A : Type} (g : nat → A) (v : nat) (J : list nat) :
  length (filter (λ w : nat * A, w.1 = v) ((λ j, (j, g j)) <$> J))
  = length (filter (λ j, j = v) J).
Proof.
  induction J as [|j J IH]; [done|]. csimpl. rewrite !filter_cons. simpl.
  destruct (decide (j = v)); simpl; by rewrite IH.
Qed.

Section WriteFacts.
Context {F : Type} `{Scalar F}.

Lemma apply_writes_concat (r : list F) (wss : list (list (nat * F))) :
  foldl apply_writes r wss = apply_writes r (concat wss).
Proof.
  revert r. induction wss as [|ws wss IH]; intros r; simpl; [done|].
  rewrite IH. unfold apply_writes. by rewrite foldl_app.
Qed.

Lemma length_apply_writes (r : list F) (ws : list (nat * F)) :
  length (apply_writes r ws) = length r.
Proof.
  revert r. induction ws as [|w ws IH]; intros r; simpl; [done|].
  unfold apply_writes in *. simpl. by rewrite IH, length_insert.
Qed.

(** After the writes [(j, g j)] for [j] in [J], a position holds [g] of
    itself if it was written and its old value otherwise. *)
Lemma apply_writes_lookup (g : nat → F) (J : list nat) (r : list F) (v : nat) :
  v < length r →
  apply_writes r ((λ j, (j, g j)) <$> J) !! v
  = if bool_decide (v ∈ J) then Some (g v) else r !! v.
Proof.
  revert r. induction J as [|j J IH]; intros r Hv; [done|].
  unfold apply_writes in *. csimpl.
  rewrite IH by (by rewrite length_insert).
  destruct (decide (v = j)) as [->|Hne].
  - rewrite (bool_decide_eq_true_2 (j ∈ j :: J)) by left.
    rewrite list_lookup_insert_eq by done. by case_bool_decide.
  - rewrite list_lookup_insert_ne by done.
    destruct (bool_decide (v ∈ J)) eqn:HJ.
    + apply bool_decide_eq_true_1 in HJ.
      rewrite bool_decide_eq_true_2; [done|by right].
    + apply bool_decide_eq_false_1 in HJ.
      rewrite bool_decide_eq_false_2; [done|].
      intros [?|?]%elem_of_cons; done.
Qed.

(** A voxel is covered iff some parcel names it. *)
Lemma covered_elem_of (ncols : nat) (dataset : Dataset) (jss : list (list nat))
    (v : nat) :
  mapM (mapM (norm_index ncols)) (parcels dataset) = Some jss →
  covered ncols dataset v = true ↔ v ∈ concat jss.
Proof.
  intros Hjss. apply mapM_concat in Hjss. unfold covered.
  rewrite existsb_exists. split.
  - intros (idxs & Hidxs & Hex). apply existsb_exists in Hex as (i & Hi & Hn).
    apply bool_decide_eq_true_1 in Hn.
    assert (i ∈ concat (parcels dataset)) as Hic.
    { apply list_elem_of_In, in_concat. eauto. }
    apply list_elem_of_lookup in Hic as [k Hk].
    destruct (Forall2_lookup_l _ _ _ _ _ Hjss Hk) as (j & Hj & Hij).
    simplify_eq. by eapply list_elem_of_lookup_2.
  - intros Hv. apply list_elem_of_lookup in Hv as [k Hk].
    destruct (Forall2_lookup_r _ _ _ _ _ Hjss Hk) as (i & Hi & Hij).
    apply list_elem_of_lookup_2, list_elem_of_In, in_concat in Hi
      as (idxs & Hidxs & Hi).
    exists idxs. split; [done|]. apply existsb_exists. exists i.
    split; [done|]. by apply bool_decide_eq_true_2.
Qed.

(** From zeros, the writes of a packed row leave the row at the covered
    voxels and zero elsewhere. *)
Lemma apply_writes_keep_covered (dataset : Dataset) (jss : list (list nat))
    (row : list F) :
  mapM (mapM (norm_index (length row))) (parcels dataset) = Some jss →
  apply_writes (zeros (length row)) ((λ j, (j, gather row j)) <$> concat jss)
  = keep_covered dataset row.
Proof.
  intros Hjss. apply list_eq. intros v. unfold keep_covered.
  rewrite list_lookup_imap.
  destruct (decide (v < length row)) as [Hv|Hv].
  - rewrite apply_writes_lookup
      by (unfold zeros; by rewrite length_replicate).
    destruct (lookup_lt_is_Some_2 row v Hv) as [x Hx]. rewrite Hx. simpl.
    unfold gather. rewrite Hx. simpl. unfold zeros.
    rewrite lookup_replicate_2 by done.
    destruct (covered (length row) dataset v) eqn:Hc.
    + apply (covered_elem_of _ _ jss) in Hc; [|done].
      by rewrite bool_decide_eq_true_2.
    + rewrite bool_decide_eq_false_2; [done|].
      intros Hin.
      apply (covered_elem_of (length row) dataset jss v Hjss) in Hin.
      congruence.
  - rewrite (lookup_ge_None_2 row) by lia. simpl.
    apply lookup_ge_None_2. rewrite length_apply_writes. unfold zeros.
    rewrite length_replicate. lia.
Qed.

Lemma length_keep_covered (dataset : Dataset) (row : list F) :
  length (keep_covered dataset row) = length row.
Proof. unfold keep_covered. apply length_imap. Qed.

(** Selecting the columns labelled [metaparcel_idx]. *)
Lemma select_mask_labels (lbl : list Z) (metaparcel_idx : Z) (row : list F) :
  length row = length lbl →
  select_mask row ((λ l, bool_decide (l = metaparcel_idx)) <$> lbl)
  = Some (restrict lbl metaparcel_idx row).
Proof.
  intros Hlen. unfold select_mask, restrict.
  rewrite length_fmap, (proj2 (Nat.eqb_eq _ _) Hlen). f_equal. clear Hlen.
  revert lbl. induction row as [|x row IH]; intros [|l lbl]; try done.
  csimpl. rewrite !filter_cons. simpl. case_bool_decide as Hl.
  - rewrite decide_True by done. rewrite decide_True by done. csimpl.
    f_equal. apply IH.
  - rewrite decide_False by (by intros []). rewrite decide_False by done.
    apply IH.
Qed.

End WriteFacts.

Section UnwrapClaims.
Context {F : Type} `{Scalar F}.

(** The record of writes on a packed row. *)
Lemma packed_row_writes (dataset : Dataset) (jss : list (list nat))
    (row : list F) :
  foldl (λ log ws, log ++ ws) []
        ((λ js : list nat, (λ j, (j, gather row j)) <$> js) <$> jss)
  = (λ j, (j, gather row j)) <$> concat jss.
Proof. rewrite foldl_app_concat. simpl. apply fmap_concat. Qed.

(** Claim C2, amended: for every batch size, dataset and metaparcel index,
    [unwrap_fmri] is a left inverse of the parcel-slot packing: unwrapping
    a packed dense batch returns, restricted to the voxels labelled with the
    requested metaparcel index, the original value at every voxel named by
    some parcel slot and zero at every other voxel.  Every write is a direct
    assignment of the original value of the voxel it addresses; a voxel
    receives as many writes as parcel slots name it, which is exactly one
    write for every covered voxel when no voxel is named twice. *)
Theorem unwrap_left_inverse (dataset : Dataset) (dense : list (list F))
    (packed : list (list (list F))) (metaparcel_idx : Z) :
  pack dataset dense = Some packed →
  ∃ lbl,
    labels_col0 dataset = Some lbl ∧
    unwrap_fmri (length dense) packed dataset metaparcel_idx
    = Some ((λ row, restrict lbl metaparcel_idx (keep_covered dataset row))
            <$> dense) ∧
    (∀ row v x, row ∈ dense → row !! v = Some x →
       keep_covered dataset row !! v
       = Some (if covered (length lbl) dataset v then x else fzero)) ∧
    ∃ logs,
      unwrap_writes (length dense) packed dataset = Some logs ∧
      Forall2 (λ (row : list F) (log : list (nat * F)),
                 (∀ j x, (j, x) ∈ log → row !! j = Some x) ∧
                 (∀ v, length (filter (λ w, w.1 = v) log)
                       = multiplicity (length lbl) dataset v) ∧
                 (disjoint_slots (length lbl) dataset →
                  ∀ v, covered (length lbl) dataset v = true →
                       length (filter (λ w, w.1 = v) log) = 1))
              dense logs.
Proof.
  intros Hpack.
  destruct (pack_Some _ _ _ Hpack) as (lbl & jss & Hlbl & Hjss & Hs & Hd & _).
  rewrite Forall_forall in Hd.
  exists lbl. split; [done|]. split; [|split].
  - unfold unwrap_fmri. rewrite Hlbl. cbn [mbind option_bind].
    rewrite (unwrap_loop_packed apply_writes _ dataset dense packed lbl jss)
      by done.
    cbn [mbind option_bind].
    apply mapM_Some, Forall2_fmap, Forall_Forall2_diag, Forall_forall.
    intros row Hrow. specialize (Hd row Hrow).
    rewrite apply_writes_concat, fmap_concat, <- Hd.
    rewrite (apply_writes_keep_covered dataset jss row) by (by rewrite Hd).
    apply select_mask_labels. by rewrite length_keep_covered.
  - intros row v x Hrow Hx. unfold keep_covered.
    rewrite list_lookup_imap, Hx. simpl. by rewrite (Hd row Hrow).
  - exists ((λ row : list F, (λ j, (j, gather row j)) <$> concat jss) <$> dense).
    split.
    + unfold unwrap_writes. rewrite Hlbl. cbn [mbind option_bind].
      rewrite (unwrap_loop_packed _ _ dataset dense packed lbl jss) by done.
      f_equal. apply list_fmap_ext. intros _ row _.
      apply (packed_row_writes dataset).
    + apply Forall2_fmap_r, Forall_Forall2_diag, Forall_forall.
      intros row Hrow. specialize (Hd row Hrow).
      pose proof (mapM_concat _ _ _ Hjss) as Hcat.
      split; [|split].
      * intros j x Hjx. apply list_elem_of_fmap in Hjx as (j' & Heq & Hj').
        injection Heq as -> ->.
        apply list_elem_of_lookup in Hj' as [k Hk].
        destruct (Forall2_lookup_r _ _ _ _ _ Hcat Hk) as (i & _ & Hij).
        apply norm_index_lt in Hij.
        destruct (lookup_lt_is_Some_2 row j') as [x Hx]; [lia|].
        unfold gather. by rewrite Hx.
      * intros v. rewrite filter_fst_fmap_length. unfold multiplicity.
        symmetry. by apply Forall2_filter_length.
      * intros Hnd v Hv. rewrite filter_fst_fmap_length.
        unfold disjoint_slots in Hnd.
        rewrite (Forall2_omap_Some _ _ _ Hcat) in Hnd.
        apply NoDup_filter_eq_length; [done|].
        by apply (covered_elem_of (length lbl) dataset jss v Hjss).
Qed.

End UnwrapClaims.

(** ** Windows of [print_freq] steps *)

Lemma reports_short (epoch : Z) (len base : nat) (ms : list (pyfloat * pyfloat)) :
  length ms < print_freq → reports epoch len base ms = [] ∧ pending ms = ms.
Proof.
  intros Hlt. unfold reports, pending.
  rewrite Nat.div_small by done. by rewrite Nat.mul_0_r.
Qed.

Lemma reports_chunk (epoch : Z) (len base : nat)
    (chunk rest : list (pyfloat * pyfloat)) :
  length chunk = print_freq →
  reports epoch len base (chunk ++ rest)
  = (running_avg chunk.*1, epoch, running_avg chunk.*2,
     (Z.of_nat (base + (print_freq - 1)) + epoch * Z.of_nat len)%Z)
    :: reports epoch len (base + print_freq) rest
  ∧ pending (chunk ++ rest) = pending rest.
Proof.
  intros Hlen. unfold reports, pending. rewrite length_app, Hlen.
  replace (print_freq + length rest) with (1 * print_freq + length rest) by lia.
  rewrite Nat.div_add_l by done.
  change (1 + length rest / print_freq) with (S (length rest / print_freq)).
  split.
  - cbn [seq fmap list_fmap]. f_equal.
    + unfold window_report, window. rewrite Nat.mul_0_r, Nat.add_0_r.
      cbn [drop]. by rewrite (take_app_length' chunk rest).
    + rewrite <- fmap_S_seq, <- list_fmap_compose.
      apply list_fmap_ext. intros _ k _. unfold window_report, window, compose.
      replace (print_freq * S k) with (length chunk + print_freq * k) by lia.
      rewrite drop_app_add. do 2 f_equal. lia.
  - replace (print_freq * S (length rest / print_freq))
      with (length chunk + print_freq * (length rest / print_freq)) by lia.
    by rewrite drop_app_add.
Qed.

Lemma running_sum_snoc (l : list pyfloat) (x : pyfloat) :
  running_sum (l ++ [x]) = pf_add (running_sum l) x.
Proof. unfold running_sum. by rewrite foldl_app. Qed.

(** ** Arithmetic of the loss normalisation *)

Lemma Qc_double_eq_0 (q : Qc) : (q + q = 0 ↔ q = 0)%Qc.
Proof.
  split; [|intros ->; ring].
  intros Hq. destruct (Qclt_le_dec q 0) as [Hneg|Hpos].
  - exfalso. apply (Qclt_not_eq (q + q) 0); [|done].
    apply Qclt_trans with (q + 0)%Qc.
    + by apply Qcplus_lt_mono_l.
    + by rewrite Qcplus_0_r.
  - apply Qcle_antisym; [|done]. rewrite <- Hq.
    rewrite <- (Qcplus_0_r q) at 1. by apply Qcplus_le_mono_l.
Qed.

Lemma Qc_double_lt_0 (q : Qc) : (q + q < 0 ↔ q < 0)%Qc.
Proof.
  split.
  - intros Hq. apply Qclt_nge. intros Hpos.
    apply (Qclt_not_le _ _ Hq). by apply Qcplus_nonneg_nonneg.
  - intros Hq. apply Qclt_trans with (q + 0)%Qc.
    + by apply Qcplus_lt_mono_l.
    + by rewrite Qcplus_0_r.
Qed.

(** Doubling the raw loss and the count leaves the normalised loss as it
    is. *)
Lemma pf_div_count_double (s : pyfloat) (n : nat) :
  pf_div_count (pf_add s s) (2 * n) = pf_div_count s n.
Proof.
  destruct s as [q|neg|]; simpl; [|by destruct neg|done].
  destruct n as [|n].
  - simpl. destruct (decide (q = 0%Qc)) as [->|Hq].
    + rewrite (bool_decide_eq_true_2 (0 + 0 = 0)%Qc) by ring.
      by rewrite (bool_decide_eq_true_2 (0 = 0 :> Qc)%Qc).
    + rewrite (bool_decide_eq_false_2 (q + q = 0)%Qc)
        by (by rewrite Qc_double_eq_0).
      rewrite (bool_decide_eq_false_2 (q = 0)%Qc) by done.
      f_equal. apply bool_decide_ext, Qc_double_lt_0.
  - replace (S n + (S n + 0)) with (S (n + S n)) by lia.
    cbn [Nat.eqb]. f_equal.
    replace (Z.of_nat (S (n + S n))) with (2 * Z.of_nat (S n))%Z by lia.
    rewrite Z2Qc_inj_mul, Z2Qc_inj_2.
    assert (Qc_of_Z (Z.of_nat (S n)) ≠ 0%Qc) as Hn.
    { rewrite <- Z2Qc_inj_0. intros Heq%Z2Qc_inj. lia. }
    field. split; [done|]. intros H2.
    apply (Qclt_not_eq 0 (1 + 1)); [|done].
    apply Qcplus_pos_pos; done.
Qed.

(** ** Widths of reconstructed tensors *)

Section WidthFacts.
Context {F : Type} `{Scalar F}.

Lemma select_mask_length (row : list F) (m : list bool) (r : list F) :
  select_mask row m = Some r → length r = count_true m.
Proof.
  unfold select_mask. destruct (length row =? length m) eqn:Hlen; [|done].
  apply Nat.eqb_eq in Hlen. intros [= <-]. rewrite length_fmap.
  revert row Hlen. induction m as [|b m IH]; intros [|x row] Hlen; try done.
  cbn [zip_with]. rewrite count_true_cons. simpl in Hlen.
  destruct b.
  - rewrite filter_cons_True by done. simpl. f_equal. apply IH. lia.
  - rewrite filter_cons_False by (by intros []). apply IH. lia.
Qed.

Lemma unwrap_fmri_width (batch_size : nat) (fmri_data : list (list (list F)))
    (dataset : Dataset) (metaparcel_idx : Z) (r : list (list F)) :
  unwrap_fmri batch_size fmri_data dataset metaparcel_idx = Some r →
  Forall (λ row, length row = subset_size dataset metaparcel_idx) r.
Proof.
  unfold unwrap_fmri, subset_size.
  destruct (labels_col0 dataset) as [lbl|]; [|done]. cbn [mbind option_bind].
  destruct (unwrap_loop _ _ _ _ _ _) as [recon|]; [|done].
  cbn [mbind option_bind]. intros Hm. apply mapM_Some in Hm.
  apply Forall_forall. intros row Hrow.
  apply list_elem_of_lookup in Hrow as [k Hk].
  destruct (Forall2_lookup_r _ _ _ _ _ Hm Hk) as (x & _ & Hsel).
  by apply select_mask_length in Hsel.
Qed.

Lemma vstack_concat (k : nat) (tensors : list (list (list F))) :
  tensors ≠ [] → Forall (Forall (λ row, length row = k)) tensors →
  vstack tensors = Some (concat tensors).
Proof.
  intros Hne Hall. unfold vstack. destruct tensors as [|t ts]; [done|].
  assert (Forall (λ row, length row = k) (concat (t :: ts))) as Hrows.
  { apply Forall_concat. done. }
  destruct (concat (t :: ts)) as [|r rows]; [done|].
  apply Forall_cons in Hrows as [Hr Hrows].
  rewrite (proj2 (forallb_forall _ _)); [done|].
  intros u Hu. apply Nat.eqb_eq. rewrite Hr.
  rewrite Forall_forall in Hrows. apply Hrows. by apply list_elem_of_In.
Qed.

End WidthFacts.

(** ** The training and evaluation loops *)

Section EngineFacts.
Context {F : Type} `{Scalar F}.
Context {Imgs Model Optimizer Grads : Type}.
Variable forward : bool → Model → Imgs → list (list (list F)).
Variable criterion : list (list (list F)) → list (list (list F)) → pyfloat.
Variable zero_grad : Grads → Grads.
Variable backward : Model → Imgs → list (list (list F)) → nat → Grads → Grads.
Variable clip_grad_norm_ : pyfloat → Grads → Grads.
Variable optimizer_step : Optimizer → Model → Grads → Optimizer * Model.
Variable learning_rate : Optimizer → pyfloat.
Variable corrcoef_0_1 : list (list F) → pyfloat.

Abbreviation World := (@world Model Optimizer Grads).
Abbreviation Batch := (Imgs * list (list (list F)))%type.
Abbreviation train_step' :=
  (train_step forward criterion zero_grad backward clip_grad_norm_
              optimizer_step learning_rate corrcoef_0_1).
Abbreviation train_one_epoch' :=
  (train_one_epoch forward criterion zero_grad backward clip_grad_norm_
                   optimizer_step learning_rate corrcoef_0_1).
Abbreviation step_metrics' :=
  (step_metrics forward criterion zero_grad backward clip_grad_norm_
                optimizer_step learning_rate corrcoef_0_1).
Abbreviation step_loss' := (step_loss forward criterion).
Abbreviation step_corr' := (step_corr forward corrcoef_0_1).

Abbreviation updated_world' :=
  (updated_world forward criterion zero_grad backward clip_grad_norm_
                 optimizer_step learning_rate).

(** Unfolding of the monad of the engine. *)
Ltac unfold_engine :=
  unfold train_step, evaluate_step, call_model, do_zero_grad, do_backward,
    do_clip_grad_norm, do_optimizer_step, get_lr, emit, sys_exit, lift,
    set_training, set_grad_enabled, no_grad, get_num_valid_voxels,
    mbind, M_bind, bind, mret, M_ret, ret.

Lemma with_events_nil (w : World) : with_events w [] = w.
Proof. destruct w. unfold with_events. simpl. by rewrite app_nil_r. Qed.

(** A training step, case by case. *)
Lemma train_step_cases (args : Args) (dataset : Dataset) (epoch : Z)
    (max_norm : pyfloat) (n len : nat) (acc : pyfloat * pyfloat) (i : nat)
    (batch : Batch) (w : World) :
  train_step' args dataset epoch max_norm n len acc i batch w
  = let l := step_loss' n w batch in
    if isfinite l
    then
      let w1 := updated_world' max_norm n w batch in
      match step_corr' args dataset w batch with
      | None => (Raised, w1)
      | Some c =>
          let running_loss := pf_add acc.1 l in
          let running_corr := pf_add acc.2 c in
          if i mod print_freq =? print_freq - 1
          then (Returned (Fin 0, Fin 0),
                with_events w1
                  [EvWandbLog (pf_div_count running_loss print_freq) epoch
                              (pf_div_count running_corr print_freq)
                              (Z.of_nat i + epoch * Z.of_nat len)])
          else (Returned (running_loss, running_corr), w1)
      end
    else (SysExit 1,
          with_events w [EvForward (training w) (grad_enabled w);
                         EvPrint (LossIsStopping l); EvPrint (LossValue l)]).
Proof.
  destruct batch as [imgs targets], w as [m tr ge o g t].
  unfold_engine.
  unfold step_loss, step_corr, updated_world, update_events, step_grads,
    with_events, step_loss.
  cbn [fst snd model training grad_enabled optimizer grads trace].
  destruct (isfinite _) eqn:Hfin; cbn [negb].
  - destruct (pf_gt0 max_norm);
      cbn [fst snd model training grad_enabled optimizer grads trace];
      destruct (unwrap_fmri (length (forward tr m imgs)) _ _ _) as [out|];
      cbn [mbind option_bind];
      try destruct (unwrap_fmri (length targets) _ _ _) as [y|];
      cbn [mbind option_bind];
      try destruct (train_corr_of _ _ _) as [c|];
      try destruct (_ =? _);
      cbn [fst snd model training grad_enabled optimizer grads trace];
      rewrite <- ?app_assoc; cbn [app]; reflexivity.
  - cbn [fst snd model training grad_enabled optimizer grads trace].
    rewrite <- ?app_assoc. reflexivity.
Qed.

Lemma for_enumerate_app {A Acc : Type} (body : Acc → nat → A → M Acc)
    (acc : Acc) (i : nat) (l k : list A) (w : World) :
  for_enumerate body acc i (l ++ k) w
  = match for_enumerate body acc i l w with
    | (Returned acc', w') => for_enumerate body acc' (i + length l) k w'
    | (SysExit code, w') => (SysExit code, w')
    | (Raised, w') => (Raised, w')
    end.
Proof.
  revert acc i w. induction l as [|x l IH]; intros acc i w.
  - simpl. by rewrite Nat.add_0_r.
  - cbn [app for_enumerate length]. unfold mbind, M_bind, bind.
    destruct (body acc i x w) as [[acc'|code|] w']; [|done..].
    rewrite IH. by replace (S i + length l) with (i + S (length l)) by lia.
Qed.

(** [train_one_epoch] is its loop between [model.train()], the count of
    valid voxels and the final synchronisation and print. *)
Lemma train_one_epoch_cases (args : Args) (data_loader : list Batch)
    (epoch : Z) (dataset : Dataset) (max_norm : pyfloat) (w0 : World) :
  train_one_epoch' args data_loader epoch dataset max_norm w0
  = match for_enumerate
            (train_step' args dataset epoch max_norm (mask_sum (mask dataset))
                         (length data_loader))
            (Fin 0, Fin 0) 0 data_loader (train_world w0) with
    | (Returned _, w1) =>
        (Returned (), with_events w1 [EvSynchronize; EvPrint AveragedStats])
    | (SysExit code, w1) => (SysExit code, w1)
    | (Raised, w1) => (Raised, w1)
    end.
Proof.
  unfold train_one_epoch, get_num_valid_voxels.
  unfold mbind at 1 2 3 4 5 6, M_bind, bind.
  cbn [set_training emit mret M_ret ret fst snd model training grad_enabled
       optimizer grads trace].
  change {| model := model w0; training := true;
            grad_enabled := grad_enabled w0; optimizer := optimizer w0;
            grads := grads w0; trace := trace w0 ++ [EvMaskSum] |}
    with (train_world w0).
  destruct (for_enumerate _ _ _ _ _) as [[acc| |] w1]; [|done..].
  unfold emit, mret, M_ret, ret, with_events. cbn. by rewrite <- app_assoc.
Qed.

(** Claim C3: in [train_one_epoch], when the loss of a step is not finite
    (NaN or an infinity) the run ends at once with [sys.exit(1)]: the world
    is the one the step started from plus the forward pass and the two
    printed lines, so neither [zero_grad], [backward], gradient clipping nor
    [optimizer.step()] has run for that step, and no later batch is
    touched.  A step whose loss is finite never exits the process. *)
Theorem nonfinite_loss_exits (args : Args) (dataset : Dataset) (epoch : Z)
    (max_norm : pyfloat) (pre rest : list Batch) (batch : Batch)
    (acc : pyfloat * pyfloat) (w0 w : World) :
  let data_loader := pre ++ batch :: rest in
  let n := mask_sum (mask dataset) in
  let l := step_loss' n w batch in
  for_enumerate (train_step' args dataset epoch max_norm n (length data_loader))
                (Fin 0, Fin 0) 0 pre (train_world w0)
  = (Returned acc, w) →
  (isfinite l = false →
   train_one_epoch' args data_loader epoch dataset max_norm w0
   = (SysExit 1,
      with_events w [EvForward (training w) (grad_enabled w);
                     EvPrint (LossIsStopping l); EvPrint (LossValue l)])) ∧
  (isfinite l = true →
   ∀ code w',
     train_step' args dataset epoch max_norm n (length data_loader) acc
                 (length pre) batch w ≠ (SysExit code, w')).
Proof.
  intros data_loader n l Hpre. split.
  - intros Hfin. rewrite train_one_epoch_cases. fold n. fold data_loader.
    change (for_enumerate _ _ 0 data_loader _)
      with (for_enumerate
              (train_step' args dataset epoch max_norm n (length data_loader))
              (Fin 0, Fin 0) 0 (pre ++ batch :: rest) (train_world w0)).
    rewrite for_enumerate_app, Hpre. cbn [for_enumerate].
    unfold mbind at 1, M_bind, bind.
    rewrite train_step_cases. fold l. cbn zeta. by rewrite Hfin.
  - intros Hfin code w'. rewrite train_step_cases. fold l. cbn zeta.
    rewrite Hfin. destruct (step_corr' _ _ _ _); [|done].
    by destruct (_ =? _).
Qed.

(** Claim C9: in every training step, gradient clipping
    ([clip_grad_norm_] over the parameters of the model) runs only with a
    strictly positive [max_norm]; in every step that comes to its update
    (every step whose loss is finite) it runs iff [max_norm] is strictly
    positive, and [optimizer.step()] works on the clipped gradients then;
    with a zero or negative [max_norm] the gradients computed by [backward]
    reach [optimizer.step()] as they are. *)
Theorem grad_clip_iff_positive (args : Args) (dataset : Dataset) (epoch : Z)
    (max_norm : pyfloat) (n len : nat) (acc : pyfloat * pyfloat) (i : nat)
    (batch : Batch) (w : World) :
  let g := backward (model w) batch.1 batch.2 n (zero_grad (grads w)) in
  let w' := (train_step' args dataset epoch max_norm n len acc i batch w).2 in
  ∃ evs,
    trace w' = trace w ++ evs ∧
    (∀ m, EvClipGradNorm m ∈ evs → m = max_norm ∧ pf_gt0 max_norm = true) ∧
    (EvOptimizerStep ∈ evs ↔ isfinite (step_loss' n w batch) = true) ∧
    (EvOptimizerStep ∈ evs →
     (EvClipGradNorm max_norm ∈ evs ↔ pf_gt0 max_norm = true) ∧
     grads w' = (if pf_gt0 max_norm then clip_grad_norm_ max_norm g else g) ∧
     optimizer_step (optimizer w) (model w) (grads w')
     = (optimizer w', model w')) ∧
    (∀ q, max_norm = Fin q → (pf_gt0 max_norm = true ↔ (0 < q)%Qc)).
Proof.
  intros g w'.
  assert (∀ q, max_norm = Fin q → (pf_gt0 max_norm = true ↔ (0 < q)%Qc))
    as Hpos by (intros q ->; apply bool_decide_eq_true).
  destruct (isfinite (step_loss' n w batch)) eqn:Hfin.
  - assert (∃ tail,
              w' = with_events (updated_world' max_norm n w batch) tail ∧
              (∀ m, EvClipGradNorm m ∉ tail) ∧ EvOptimizerStep ∉ tail)
      as (tail & Hw' & Htail & Htail').
    { unfold w'. rewrite train_step_cases. cbn zeta. rewrite Hfin.
      destruct (step_corr' _ _ _ _) as [c|]; [destruct (_ =? _)|].
      - eexists. split; [done|]. split; [intros m Hm|intros Hm]; elem_cases.
      - exists []. rewrite with_events_nil.
        split; [done|]. split; [intros m Hm|intros Hm]; elem_cases.
      - exists []. rewrite with_events_nil.
        split; [done|]. split; [intros m Hm|intros Hm]; elem_cases. }
    exists (update_events forward criterion zero_grad backward clip_grad_norm_
              optimizer_step learning_rate max_norm n w batch ++ tail).
    rewrite Hw'. unfold with_events, updated_world, step_grads.
    cbn [model optimizer grads trace]. fold g.
    assert (EvOptimizerStep
            ∈ update_events forward criterion zero_grad backward clip_grad_norm_
                optimizer_step learning_rate max_norm n w batch ++ tail)
      as Hstep.
    { unfold update_events. rewrite !elem_of_app. left. right. right. left. }
    assert (∀ m, EvClipGradNorm m
                 ∈ update_events forward criterion zero_grad backward
                     clip_grad_norm_ optimizer_step learning_rate max_norm n w
                     batch ++ tail →
                 m = max_norm ∧ pf_gt0 max_norm = true) as Honly.
    { intros m. unfold update_events. rewrite !elem_of_app.
      intros [[HA|[HB|HC]]|HD].
      - elem_cases.
      - destruct (pf_gt0 max_norm); elem_cases. split; congruence.
      - elem_cases.
      - by destruct (Htail m). }
    split; [by rewrite <- app_assoc|]. split; [exact Honly|].
    split; [done|]. split; [|exact Hpos].
    intros _. split; [split|split].
    + intros Hin. by apply (Honly max_norm).
    + intros Hgt. unfold update_events. rewrite !elem_of_app, Hgt.
      left. right. left. left.
    + done.
    + by destruct (optimizer_step _ _ _).
  - exists [EvForward (training w) (grad_enabled w);
            EvPrint (LossIsStopping (step_loss' n w batch));
            EvPrint (LossValue (step_loss' n w batch))].
    unfold w'. rewrite train_step_cases. cbn zeta. rewrite Hfin.
    split; [done|]. split; [intros m Hm; elem_cases|].
    split; [split; [intros Hm; elem_cases|done]|].
    split; [intros Hm; elem_cases|exact Hpos].
Qed.

(** A training step that completes. *)
Lemma train_step_Returned (args : Args) (dataset : Dataset) (epoch : Z)
    (max_norm : pyfloat) (n len : nat) (acc acc' : pyfloat * pyfloat)
    (i : nat) (batch : Batch) (w w' : World) :
  train_step' args dataset epoch max_norm n len acc i batch w
  = (Returned acc', w') →
  ∃ c,
    isfinite (step_loss' n w batch) = true ∧
    step_corr' args dataset w batch = Some c ∧
    let running_loss := pf_add acc.1 (step_loss' n w batch) in
    let running_corr := pf_add acc.2 c in
    if i mod print_freq =? print_freq - 1
    then acc' = (Fin 0, Fin 0) ∧
         w' = with_events (updated_world' max_norm n w batch)
                [EvWandbLog (pf_div_count running_loss print_freq) epoch
                            (pf_div_count running_corr print_freq)
                            (Z.of_nat i + epoch * Z.of_nat len)]
    else acc' = (running_loss, running_corr) ∧
         w' = updated_world' max_norm n w batch.
Proof.
  rewrite train_step_cases. cbn zeta.
  destruct (isfinite _); [|done].
  destruct (step_corr' _ _ _ _) as [c|]; [|done].
  intros Hr. exists c. split; [done|]. split; [done|].
  destruct (_ =? _); by simplify_eq.
Qed.

Lemma step_metrics_cons (args : Args) (dataset : Dataset) (epoch : Z)
    (max_norm : pyfloat) (n len : nat) (acc acc' : pyfloat * pyfloat)
    (i : nat) (batch : Batch) (l : list Batch) (w w' : World) (c : pyfloat) :
  train_step' args dataset epoch max_norm n len acc i batch w
  = (Returned acc', w') →
  step_corr' args dataset w batch = Some c →
  step_metrics' args dataset epoch max_norm n len acc i (batch :: l) w
  = (step_loss' n w batch, c)
    :: step_metrics' args dataset epoch max_norm n len acc' (S i) l w'.
Proof. intros Hs Hc. cbn [step_metrics]. by rewrite Hs, Hc. Qed.

Lemma wandb_logs_updated (max_norm : pyfloat) (n : nat) (w : World)
    (batch : Batch) :
  wandb_logs (trace (updated_world' max_norm n w batch)) = wandb_logs (trace w).
Proof.
  unfold updated_world, update_events, wandb_logs. cbn [trace].
  rewrite !omap_app. destruct (pf_gt0 max_norm); simpl; by rewrite app_nil_r.
Qed.

Lemma meter_values_updated (max_norm : pyfloat) (n : nat) (w : World)
    (batch : Batch) :
  meter_values "loss" (trace (updated_world' max_norm n w batch))
  = meter_values "loss" (trace w) ++ [step_loss' n w batch].
Proof.
  unfold updated_world, update_events, meter_values. cbn [trace].
  rewrite !omap_app. by destruct (pf_gt0 max_norm).
Qed.

(** The loop of [train_one_epoch], started with the steps [pend] of the
    current window behind it. *)
Lemma train_loop_reports (args : Args) (dataset : Dataset) (epoch : Z)
    (max_norm : pyfloat) (n len : nat) (batches : list Batch) :
  ∀ (i : nat) (acc acc' : pyfloat * pyfloat) (pend : list (pyfloat * pyfloat))
    (w w' : World),
    length pend < print_freq → length pend ≤ i →
    (i - length pend) mod print_freq = 0 →
    acc = (running_sum pend.*1, running_sum pend.*2) →
    for_enumerate (train_step' args dataset epoch max_norm n len)
                  acc i batches w = (Returned acc', w') →
    let steps := step_metrics' args dataset epoch max_norm n len acc i batches w in
    length steps = length batches ∧
    wandb_logs (trace w')
    = wandb_logs (trace w) ++ reports epoch len (i - length pend) (pend ++ steps) ∧
    meter_values "loss" (trace w') = meter_values "loss" (trace w) ++ steps.*1 ∧
    acc' = (running_sum (pending (pend ++ steps)).*1,
            running_sum (pending (pend ++ steps)).*2).
Proof.
  induction batches as [|batch batches IH];
    intros i acc acc' pend w w' Hlt Hle Hbase Hacc Hrun steps.
  - cbn in Hrun. unfold mret, M_ret, ret in Hrun. simplify_eq.
    unfold steps. cbn [step_metrics]. rewrite !app_nil_r.
    destruct (reports_short epoch len (i - length pend) pend Hlt) as [-> ->].
    by rewrite app_nil_r.
  - cbn [for_enumerate] in Hrun. unfold mbind, M_bind, bind in Hrun.
    destruct (train_step' _ _ _ _ _ _ _ _ _ _) as [[acc1| |] w1] eqn:Hstep;
      [|done..].
    destruct (train_step_Returned _ _ _ _ _ _ _ _ _ _ _ _ Hstep)
      as (c & Hfin & Hc & Hcase).
    unfold steps. rewrite (step_metrics_cons _ _ _ _ _ _ _ _ _ _ _ _ _ _ Hstep Hc).
    set (l := step_loss' n w batch) in *.
    assert (i mod print_freq = length pend) as Hmod.
    { replace i with (length pend + (i - length pend)) at 1 by lia.
      rewrite Nat.Div0.add_mod, Hbase, Nat.add_0_r, Nat.Div0.mod_mod.
      by apply Nat.mod_small. }
    cbn zeta in Hcase. rewrite Hmod in Hcase.
    set (rest := step_metrics' args dataset epoch max_norm n len acc1 (S i)
                               batches w1).
    destruct (length pend =? print_freq - 1) eqn:Hfull;
      destruct Hcase as [Hacc1 Hw1].
    + apply Nat.eqb_eq in Hfull.
      destruct (IH (S i) acc1 acc' [] w1 w') as (Hlen & Hlogs & Hmeter & Hacc').
      * unfold print_freq. simpl. lia.
      * simpl. lia.
      * cbn [length]. rewrite Nat.sub_0_r.
        replace (S i) with (i - length pend + 1 * print_freq)
          by (unfold print_freq in *; lia).
        by rewrite Nat.Div0.mod_add.
      * by rewrite Hacc1.
      * done.
      * fold rest in Hlen, Hlogs, Hmeter, Hacc'.
        cbn [app length] in Hlogs, Hacc'. rewrite Nat.sub_0_r in Hlogs.
        destruct (reports_chunk epoch len (i - length pend)
                    (pend ++ [(l, c)]) rest) as [Hrep Hpend].
        { rewrite length_app. simpl. unfold print_freq in *. lia. }
        rewrite <- (app_assoc pend [(l, c)]) in Hrep, Hpend.
        cbn [app] in Hrep, Hpend.
        split; [simpl; by f_equal|]. split; [|split].
        -- rewrite Hlogs, Hrep, Hw1. unfold with_events. cbn [trace].
           unfold wandb_logs at 1. rewrite omap_app.
           fold (wandb_logs (trace (updated_world' max_norm n w batch))).
           rewrite wandb_logs_updated, <- app_assoc. f_equal.
           cbn [omap list_omap app]. f_equal.
           ++ unfold running_avg. rewrite !fmap_app.
              cbn [fmap list_fmap fst snd].
              rewrite !running_sum_snoc, Hacc. cbn [fst snd].
              do 2 f_equal. unfold print_freq in *. lia.
           ++ f_equal. unfold print_freq in *. lia.
        -- rewrite Hmeter, Hw1. unfold with_events. cbn [trace].
           unfold meter_values at 1. rewrite omap_app.
           fold (meter_values "loss" (trace (updated_world' max_norm n w batch))).
           rewrite meter_values_updated. cbn [omap list_omap].
           rewrite app_nil_r, <- app_assoc. done.
        -- by rewrite Hpend.
    + apply Nat.eqb_neq in Hfull.
      destruct (IH (S i) acc1 acc' (pend ++ [(l, c)]) w1 w')
        as (Hlen & Hlogs & Hmeter & Hacc').
      * rewrite length_app. simpl. unfold print_freq in *. lia.
      * rewrite length_app. simpl. lia.
      * rewrite length_app. simpl.
        by replace (S i - (length pend + 1)) with (i - length pend) by lia.
      * rewrite Hacc1, Hacc, !fmap_app. cbn [fmap list_fmap fst snd].
        by rewrite !running_sum_snoc.
      * done.
      * fold rest in Hlen, Hlogs, Hmeter, Hacc'.
        rewrite length_app in Hlogs. simpl in Hlogs.
        replace (S i - (length pend + 1)) with (i - length pend) in Hlogs by lia.
        rewrite <- !app_assoc in Hlogs, Hacc'. cbn [app] in Hlogs, Hacc'.
        split; [simpl; by f_equal|]. split; [|split].
        -- by rewrite Hlogs, Hw1, wandb_logs_updated.
        -- rewrite Hmeter, Hw1, meter_values_updated, <- app_assoc. done.
        -- done.
Qed.

Abbreviation evaluate_step' := (evaluate_step forward criterion).
Abbreviation evaluate' := (evaluate forward criterion).
Abbreviation eval_pred' := (eval_pred forward).
Abbreviation evaluate_events' := (evaluate_events forward criterion).

Lemma with_events_app (w : World) (evs evs' : list event) :
  with_events (with_events w evs) evs' = with_events w (evs ++ evs').
Proof. unfold with_events. simpl. by rewrite app_assoc. Qed.

(** An evaluation step, case by case. *)
Lemma evaluate_step_cases (args : Args) (dataset : Dataset) (n : nat)
    (acc : list (list (list F)) * list (list (list F))) (i : nat)
    (batch : Batch) (w : World) :
  evaluate_step' args dataset n acc i batch w
  = match eval_pred' args dataset w batch with
    | None => (Raised, with_events w [EvForward (training w) (grad_enabled w)])
    | Some pred =>
        match eval_target args dataset batch with
        | None =>
            (Raised, with_events w [EvForward (training w) (grad_enabled w)])
        | Some y =>
            (Returned (acc.1 ++ [pred], acc.2 ++ [y]),
             with_events w [EvForward (training w) (grad_enabled w);
                            EvMeterUpdate "loss_labels" (step_loss' n w batch)])
        end
    end.
Proof.
  destruct batch as [imgs targets], w as [m tr ge o g t].
  unfold_engine. unfold eval_pred, eval_target, step_loss, with_events.
  cbn [fst snd model training grad_enabled optimizer grads trace].
  destruct (unwrap_fmri (length (forward tr m imgs)) _ _ _) as [pred|];
    [|done].
  destruct (unwrap_fmri (length targets) _ _ _) as [y|]; [|done].
  cbn [fst snd model training grad_enabled optimizer grads trace].
  by rewrite <- app_assoc.
Qed.

(** The loop of [evaluate] when every reconstruction succeeds. *)
Lemma evaluate_loop (args : Args) (dataset : Dataset) (n : nat)
    (batches : list Batch) :
  ∀ (acc : list (list (list F)) * list (list (list F))) (i : nat) (w : World)
    (preds ys : list (list (list F))),
    mapM (eval_pred' args dataset w) batches = Some preds →
    mapM (eval_target args dataset) batches = Some ys →
    for_enumerate (evaluate_step' args dataset n) acc i batches w
    = (Returned (acc.1 ++ preds, acc.2 ++ ys),
       with_events w (evaluate_events' n w batches)).
Proof.
  induction batches as [|batch batches IH]; intros acc i w preds ys Hp Hy.
  - apply mapM_Some, Forall2_nil_inv_l in Hp as ->.
    apply mapM_Some, Forall2_nil_inv_l in Hy as ->.
    cbn. unfold mret, M_ret, ret. rewrite !app_nil_r, with_events_nil.
    by destruct acc.
  - apply mapM_Some in Hp. apply mapM_Some in Hy.
    inversion Hp as [|? pred ? preds' Hpred Hpreds]; subst.
    inversion Hy as [|? y ? ys' Hyy Hys]; subst.
    apply mapM_Some in Hpreds. apply mapM_Some in Hys.
    cbn [for_enumerate]. unfold mbind at 1, M_bind, bind.
    rewrite evaluate_step_cases, Hpred, Hyy.
    rewrite (IH _ _ _ preds' ys'); [|done..].
    cbn [fst snd]. rewrite <- !app_assoc. cbn [app].
    by rewrite with_events_app.
Qed.

(** The correlation of a step is [torch.corrcoef] of the two flattened
    reconstructions. *)
Lemma step_corr_Some (args : Args) (dataset : Dataset) (w : World)
    (batch : Batch) (c : pyfloat) :
  step_corr' args dataset w batch = Some c ↔
  ∃ out y stacked,
    unwrap_fmri (length (forward (training w) (model w) batch.1))
                (forward (training w) (model w) batch.1) dataset
                (metaparcel_idx args) = Some out ∧
    unwrap_fmri (length batch.2) batch.2 dataset (metaparcel_idx args) = Some y ∧
    stack [flatten out; flatten y] = Some stacked ∧
    c = corrcoef_0_1 stacked.
Proof.
  unfold step_corr, train_corr_of. split.
  - intros Hc.
    destruct (unwrap_fmri (length (forward _ _ _)) _ _ _) as [out|]; [|done].
    destruct (unwrap_fmri (length batch.2) _ _ _) as [y|]; [|done].
    cbn [mbind option_bind] in Hc.
    destruct (stack _) as [stacked|] eqn:Hs; [|done].
    exists out, y, stacked. by simplify_eq/=.
  - intros (out & y & stacked & -> & -> & Hs & ->).
    cbn [mbind option_bind]. by rewrite Hs.
Qed.

(** Claim C7: in [train_one_epoch], every step passes the predictions and
    the targets of the batch through [unwrap_fmri] and adds one scalar
    correlation, [torch.corrcoef] of the two flattened reconstructions, to
    the running correlation, and the loss to the running loss.  Every
    [print_freq] steps the averages of the two over those [print_freq] steps
    go to the external logger and both accumulators restart from zero: the
    reports of a run are exactly the averages of its full windows, and the
    accumulators hold the sums over the steps after the last full window. *)
Theorem train_reports_window_averages (args : Args) (dataset : Dataset)
    (epoch : Z) (max_norm : pyfloat) (len : nat) (batches : list Batch)
    (w w' : World) (acc' : pyfloat * pyfloat) :
  let n := mask_sum (mask dataset) in
  for_enumerate (train_step' args dataset epoch max_norm n len)
                (Fin 0, Fin 0) 0 batches w = (Returned acc', w') →
  let steps := step_metrics' args dataset epoch max_norm n len
                             (Fin 0, Fin 0) 0 batches w in
  length steps = length batches ∧
  wandb_logs (trace w') = wandb_logs (trace w) ++ reports epoch len 0 steps ∧
  acc' = (running_sum (pending steps).*1, running_sum (pending steps).*2) ∧
  (length batches mod print_freq = 0 → acc' = (Fin 0, Fin 0)) ∧
  (∀ w0, w = train_world w0 → len = length batches →
         train_one_epoch' args batches epoch dataset max_norm w0
         = (Returned (),
            with_events w' [EvSynchronize; EvPrint AveragedStats])) ∧
  (∀ (v : World) (batch : Batch) (c : pyfloat),
     step_corr' args dataset v batch = Some c ↔
     ∃ out y stacked,
       unwrap_fmri (length (forward (training v) (model v) batch.1))
                   (forward (training v) (model v) batch.1) dataset
                   (metaparcel_idx args) = Some out ∧
       unwrap_fmri (length batch.2) batch.2 dataset (metaparcel_idx args)
       = Some y ∧
       stack [flatten out; flatten y] = Some stacked ∧
       c = corrcoef_0_1 stacked).
Proof.
  intros n Hrun steps.
  destruct (train_loop_reports args dataset epoch max_norm n len batches
              0 (Fin 0, Fin 0) acc' [] w w')
    as (Hlen & Hlogs & _ & Hacc);
    [cbn [length]; unfold print_freq; lia|cbn [length]; lia|done..|].
  fold steps in Hlen, Hlogs, Hacc. cbn [app length] in Hlogs, Hacc.
  split; [done|]. split; [done|]. split; [done|]. split; [|split].
  - intros Hmod. rewrite Hacc. unfold pending. rewrite Hlen.
    apply Nat.Div0.div_exact in Hmod. rewrite <- Hmod, <- Hlen.
    by rewrite drop_all.
  - intros w0 -> ->. rewrite train_one_epoch_cases. fold n. by rewrite Hrun.
  - intros v batch c. apply step_corr_Some.
Qed.

Lemma meter_values_evaluate_events (n : nat) (w : World) (batches : list Batch) :
  meter_values "loss_labels" (evaluate_events' n w batches)
  = step_loss' n w <$> batches.
Proof.
  unfold evaluate_events, meter_values.
  induction batches as [|batch batches IH]; [done|]. csimpl. by f_equal.
Qed.

(** An evaluation loop that completes has reconstructed every batch. *)
Lemma evaluate_loop_Returned (args : Args) (dataset : Dataset) (n : nat)
    (batches : list Batch) :
  ∀ (acc acc' : list (list (list F)) * list (list (list F))) (i : nat)
    (w w' : World),
    for_enumerate (evaluate_step' args dataset n) acc i batches w
    = (Returned acc', w') →
    ∃ preds ys,
      mapM (eval_pred' args dataset w) batches = Some preds ∧
      mapM (eval_target args dataset) batches = Some ys.
Proof.
  induction batches as [|batch batches IH]; intros acc acc' i w w' Hrun.
  - by exists [], [].
  - cbn [for_enumerate] in Hrun. unfold mbind at 1, M_bind, bind in Hrun.
    rewrite evaluate_step_cases in Hrun.
    destruct (eval_pred' args dataset w batch) as [pred|] eqn:Hp; [|done].
    destruct (eval_target args dataset batch) as [y|] eqn:Hy; [|done].
    destruct (IH _ _ _ _ _ Hrun) as (preds & ys & Hps & Hys).
    exists (pred :: preds), (y :: ys). split; apply mapM_Some.
    + constructor; [done|]. by apply mapM_Some in Hps.
    + constructor; [done|]. by apply mapM_Some.
Qed.

(** [evaluate] around its loop. *)
Lemma evaluate_cases (args : Args) (data_loader : list Batch)
    (dataset : Dataset) (w0 : World) :
  evaluate' args data_loader dataset w0
  = let restore := λ w : World, (set_grad_enabled (grad_enabled w0) w).2 in
    match for_enumerate
            (evaluate_step' args dataset (mask_sum (mask dataset)))
            ([], []) 0 data_loader (eval_world w0) with
    | (Returned acc, w1) =>
        let w2 := with_events w1 [EvSynchronize; EvPrint AveragedStats] in
        match vstack acc.2 with
        | None => (Raised, restore w2)
        | Some ys =>
            match vstack acc.1 with
            | None => (Raised, restore w2)
            | Some preds => (Returned (ys, preds), restore w2)
            end
        end
    | (SysExit code, w1) => (SysExit code, restore w1)
    | (Raised, w1) => (Raised, restore w1)
    end.
Proof.
  unfold evaluate, no_grad, eval_world, get_num_valid_voxels.
  unfold mbind at 1 2 3 4 5 6 7 8 9, M_bind, bind.
  cbn [set_grad_enabled set_training emit mret M_ret ret fst snd model training
       grad_enabled optimizer grads trace].
  destruct (for_enumerate _ _ _ _ _) as [[acc| |] w1]; [|done..].
  unfold emit, lift, mret, M_ret, ret, with_events.
  cbn [fst snd model training grad_enabled optimizer grads trace].
  destruct (vstack acc.2) as [ys|]; cbn; rewrite <- ?app_assoc; [|done].
  destruct (vstack acc.1) as [preds|]; cbn; done.
Qed.

Lemma mask_sum_count_app (t t' : list event) :
  mask_sum_count (t ++ t') = mask_sum_count t + mask_sum_count t'.
Proof. unfold mask_sum_count. by rewrite omap_app, length_app. Qed.

Lemma continues_refl (w : World) : continues w w.
Proof. exists []. by rewrite app_nil_r. Qed.

Lemma continues_trans (w1 w2 w3 : World) :
  continues w1 w2 → continues w2 w3 → continues w1 w3.
Proof.
  intros (e1 & H1 & Hq1) (e2 & H2 & Hq2). exists (e1 ++ e2).
  rewrite H2, H1, <- app_assoc, mask_sum_count_app, Hq1, Hq2. done.
Qed.

Lemma continues_with_events (w : World) (evs : list event) :
  mask_sum_count evs = 0 → continues w (with_events w evs).
Proof. intros Hq. by exists evs. Qed.

Lemma continues_updated (max_norm : pyfloat) (n : nat) (w : World)
    (batch : Batch) :
  continues w (updated_world' max_norm n w batch).
Proof.
  eexists. split; [done|]. unfold update_events.
  rewrite !mask_sum_count_app. by destruct (pf_gt0 max_norm).
Qed.

Lemma train_step_continues (args : Args) (dataset : Dataset) (epoch : Z)
    (max_norm : pyfloat) (n len : nat) (acc : pyfloat * pyfloat) (i : nat)
    (batch : Batch) (w : World) :
  continues w (train_step' args dataset epoch max_norm n len acc i batch w).2.
Proof.
  rewrite train_step_cases. cbn zeta.
  destruct (isfinite _); [|by apply continues_with_events].
  destruct (step_corr' _ _ _ _) as [c|]; [|apply continues_updated].
  destruct (_ =? _); [|apply continues_updated].
  eapply continues_trans; [apply continues_updated|].
  by apply continues_with_events.
Qed.

Lemma evaluate_step_continues (args : Args) (dataset : Dataset) (n : nat)
    (acc : list (list (list F)) * list (list (list F))) (i : nat)
    (batch : Batch) (w : World) :
  continues w (evaluate_step' args dataset n acc i batch w).2.
Proof.
  rewrite evaluate_step_cases.
  destruct (eval_pred' _ _ _ _); [|by apply continues_with_events].
  destruct (eval_target _ _ _); by apply continues_with_events.
Qed.

Lemma for_enumerate_continues {A Acc : Type} (body : Acc → nat → A → M Acc) :
  (∀ acc i x (w : World), continues w (body acc i x w).2) →
  ∀ l acc i (w : World), continues w (for_enumerate body acc i l w).2.
Proof.
  intros Hbody. induction l as [|x l IH]; intros acc i w.
  - apply continues_refl.
  - cbn [for_enumerate]. unfold mbind, M_bind, bind.
    specialize (Hbody acc i x w).
    destruct (body acc i x w) as [[acc'| |] w']; [|done..].
    eapply continues_trans; [exact Hbody|apply IH].
Qed.

(** Claim C6: in every training and evaluation step the reported loss is
    the criterion on prediction and target divided by the count of valid
    voxels, [dataset.mask.sum()].  A call of [train_one_epoch] or of
    [evaluate] evaluates that count exactly once, before anything else it
    does to the outside and so before the loop, and never again per batch.
    Dividing by the count makes the loss invariant under doubling the count
    together with the raw loss. *)
Theorem loss_normalised_by_valid_voxels (args : Args) (dataset : Dataset)
    (epoch : Z) (max_norm : pyfloat) :
  let n := mask_sum (mask dataset) in
  (∀ (w : World) (batch : Batch),
     step_loss' n w batch
     = pf_div_count
         (criterion (forward (training w) (model w) batch.1) batch.2) n) ∧
  (∀ (data_loader : list Batch) (w0 w' : World),
     train_one_epoch' args data_loader epoch dataset max_norm w0
     = (Returned (), w') →
     let steps := step_metrics' args dataset epoch max_norm n
                                (length data_loader) (Fin 0, Fin 0) 0
                                data_loader (train_world w0) in
     length steps = length data_loader ∧
     meter_values "loss" (trace w')
     = meter_values "loss" (trace w0) ++ steps.*1) ∧
  (∀ (data_loader : list Batch) (w0 w' : World)
     (r : list (list F) * list (list F)),
     evaluate' args data_loader dataset w0 = (Returned r, w') →
     meter_values "loss_labels" (trace w')
     = meter_values "loss_labels" (trace w0)
       ++ (step_loss' n (eval_world w0) <$> data_loader)) ∧
  (∀ (data_loader : list Batch) (w0 : World),
     ∃ evs,
       trace (train_one_epoch' args data_loader epoch dataset max_norm w0).2
       = trace w0 ++ EvMaskSum :: evs ∧
       mask_sum_count evs = 0) ∧
  (∀ (data_loader : list Batch) (w0 : World),
     ∃ evs,
       trace (evaluate' args data_loader dataset w0).2
       = trace w0 ++ EvMaskSum :: evs ∧
       mask_sum_count evs = 0) ∧
  (∀ (criterion2 : list (list (list F)) → list (list (list F)) → pyfloat)
     (outputs targets : list (list (list F))) (k : nat),
     criterion2 outputs targets
     = pf_add (criterion outputs targets) (criterion outputs targets) →
     loss_compute criterion2 outputs targets (2 * k)
     = loss_compute criterion outputs targets k).
Proof.
  intros n. split; [done|]. split; [|split; [|split; [|split]]].
  - intros data_loader w0 w' Hrun steps.
    rewrite train_one_epoch_cases in Hrun. fold n in Hrun.
    destruct (for_enumerate _ _ _ _ _) as [[acc1| |] w1] eqn:Hloop; [|done..].
    destruct (train_loop_reports args dataset epoch max_norm n
                (length data_loader) data_loader 0 (Fin 0, Fin 0) acc1 []
                (train_world w0) w1)
      as (Hlen & _ & Hmeter & _);
      [cbn [length]; unfold print_freq; lia|cbn [length]; lia|done..|].
    fold steps in Hlen, Hmeter. split; [done|].
    injection Hrun as <-. unfold with_events. cbn [trace].
    unfold meter_values at 1. rewrite omap_app. cbn [omap list_omap].
    rewrite app_nil_r. fold (meter_values "loss" (trace w1)).
    rewrite Hmeter. f_equal. unfold train_world, meter_values. cbn [trace].
    rewrite omap_app. cbn [omap list_omap]. by rewrite app_nil_r.
  - intros data_loader w0 w' r Hrun.
    rewrite evaluate_cases in Hrun. fold n in Hrun. cbn zeta in Hrun.
    destruct (for_enumerate _ _ _ _ _) as [[acc1| |] w1] eqn:Hloop; [|done..].
    destruct (evaluate_loop_Returned _ _ _ _ _ _ _ _ _ Hloop)
      as (preds & ys & Hp & Hy).
    rewrite (evaluate_loop args dataset n data_loader _ _ _ preds ys Hp Hy)
      in Hloop.
    injection Hloop as _ <-.
    destruct (vstack _) as [ys'|]; [|done].
    destruct (vstack _) as [preds'|]; [|done].
    injection Hrun as _ <-. cbn [set_grad_enabled snd trace with_events eval_world].
    unfold meter_values at 1. rewrite !omap_app.
    fold (meter_values "loss_labels" (trace w0)).
    fold (meter_values "loss_labels" (evaluate_events' n (eval_world w0) data_loader)).
    rewrite meter_values_evaluate_events. cbn [omap list_omap].
    by rewrite !app_nil_r.
  - intros data_loader w0. rewrite train_one_epoch_cases.
    pose proof (for_enumerate_continues _
                  (train_step_continues args dataset epoch max_norm n
                     (length data_loader))
                  data_loader (Fin 0, Fin 0) 0 (train_world w0))
      as (evs & Hevs & Hq).
    fold n. destruct (for_enumerate _ _ _ _ _) as [[acc1| |] w1];
      cbn [snd with_events trace] in *; rewrite Hevs;
      cbn [train_world trace]; rewrite <- !app_assoc.
    + exists (evs ++ [EvSynchronize; EvPrint AveragedStats]).
      by rewrite mask_sum_count_app, Hq.
    + by exists evs.
    + by exists evs.
  - intros data_loader w0. rewrite evaluate_cases. cbn zeta.
    pose proof (for_enumerate_continues _
                  (evaluate_step_continues args dataset n)
                  data_loader ([], []) 0 (eval_world w0))
      as (evs & Hevs & Hq).
    fold n. destruct (for_enumerate _ _ _ _ _) as [[acc1| |] w1];
      cbn [snd] in *.
    + exists (evs ++ [EvSynchronize; EvPrint AveragedStats]). split.
      * destruct (vstack acc1.2); [destruct (vstack acc1.1)|];
          cbn [snd set_grad_enabled with_events trace];
          rewrite Hevs; cbn [eval_world trace]; by rewrite <- !app_assoc.
      * by rewrite mask_sum_count_app, Hq.
    + exists evs. cbn [set_grad_enabled snd trace]. rewrite Hevs.
      cbn [eval_world trace]. by rewrite <- app_assoc.
    + exists evs. cbn [set_grad_enabled snd trace]. rewrite Hevs.
      cbn [eval_world trace]. by rewrite <- app_assoc.
  - intros criterion2 outputs targets k Hc. unfold loss_compute.
    rewrite Hc. apply pf_div_count_double.
Qed.

(** Claim C8, amended: for every evaluation run over a non-empty data
    source whose batches all reconstruct, [evaluate] returns the pair of two
    stacked tensors and nothing else: all targets first, all predictions
    second, each the rows of the metaparcel-restricted reconstructions of
    all batches in evaluation order.  It computes no gradients: every
    forward pass runs in evaluation mode with gradients disabled, there is
    no backward pass or optimizer step, and model, optimizer and gradients
    are left as they were.  The synchronised averaged loss is printed, it is
    not part of the returned value. *)
Theorem evaluate_returns_stacked (args : Args) (data_loader : list Batch)
    (dataset : Dataset) (w0 : World) (preds ys : list (list (list F))) :
  data_loader ≠ [] →
  mapM (λ batch : Batch,
          unwrap_fmri (length (forward false (model w0) batch.1))
                      (forward false (model w0) batch.1) dataset
                      (metaparcel_idx args)) data_loader = Some preds →
  mapM (λ batch : Batch,
          unwrap_fmri (length batch.2) batch.2 dataset (metaparcel_idx args))
       data_loader = Some ys →
  evaluate' args data_loader dataset w0
  = (Returned (concat ys, concat preds),
     eval_final w0
       (EvMaskSum ::
        concat ((λ batch : Batch,
                   [EvForward false false;
                    EvMeterUpdate "loss_labels"
                      (pf_div_count
                         (criterion (forward false (model w0) batch.1) batch.2)
                         (mask_sum (mask dataset)))]) <$> data_loader)
        ++ [EvSynchronize; EvPrint AveragedStats])).
Proof.
  intros Hne Hp Hy. rewrite evaluate_cases. cbn zeta.
  rewrite (evaluate_loop args dataset _ data_loader ([], []) 0 (eval_world w0)
             preds ys Hp Hy).
  cbn [fst snd app].
  assert (∀ ts : list (list (list F)),
            length ts = length data_loader →
            Forall (λ t, ∃ n fmri, unwrap_fmri n fmri dataset (metaparcel_idx args)
                                   = Some t) ts →
            vstack ts = Some (concat ts)) as Hstack.
  { intros ts Hlen Hall.
    apply (vstack_concat (subset_size dataset (metaparcel_idx args))).
    - intros ->. by destruct data_loader.
    - eapply Forall_impl; [exact Hall|]. intros t (n & fmri & Ht).
      by eapply unwrap_fmri_width. }
  rewrite (Hstack ys), (Hstack preds).
  - unfold eval_final, with_events, eval_world, evaluate_events, step_loss,
      loss_compute.
    cbn [set_grad_enabled snd model training grad_enabled optimizer grads trace].
    by rewrite <- !app_assoc.
  - apply mapM_Some in Hp. symmetry. by eapply Forall2_length.
  - apply mapM_Some in Hp. apply Forall_forall. intros t Ht.
    apply list_elem_of_lookup in Ht as [k Hk].
    destruct (Forall2_lookup_r _ _ _ _ _ Hp Hk) as (b & _ & Hb). eauto.
  - apply mapM_Some in Hy. symmetry. by eapply Forall2_length.
  - apply mapM_Some in Hy. apply Forall_forall. intros t Ht.
    apply list_elem_of_lookup in Ht as [k Hk].
    destruct (Forall2_lookup_r _ _ _ _ _ Hy Hk) as (b & _ & Hb). eauto.
Qed.

(** An empty data source makes [evaluate] raise: [torch.vstack] rejects an
    empty list. *)
Lemma evaluate_empty_loader (args : Args) (dataset : Dataset) (w0 : World) :
  evaluate' args [] dataset w0
  = (Raised, eval_final w0 [EvMaskSum; EvSynchronize; EvPrint AveragedStats]).
Proof.
  rewrite evaluate_cases. cbn. unfold eval_final, ret. cbn.
  by rewrite <- app_assoc.
Qed.

End EngineFacts.

(** * Further properties of the parcel mask and the readout *)

(** Adding up 0/1 flags counts the flagged entries. *)
Lemma foldl_flags {F A : Type} `{Scalar F} `{!ExactScalar F} (P : A → Prop)
    `{∀ x, Decision (P x)} (l : list A) (k : nat) :
  foldl fadd (of_count k)
        ((λ x, if bool_decide (P x) then (fone : F) else fzero) <$> l)
  = of_count (k + length (filter P l)).
Proof.
  revert k. induction l as [|x l IH]; intros k; csimpl.
  - by rewrite Nat.add_0_r.
  - rewrite filter_cons. case_bool_decide as Hx.
    + rewrite decide_True by done. simpl.
      change (fadd (of_count k) fone) with (of_count (F:=F) (S k)).
      rewrite IH. f_equal. lia.
    + rewrite decide_False by done. rewrite fadd_0_r. apply IH.
Qed.

Lemma filter_none {A : Type} (P : A → Prop) `{∀ x, Decision (P x)}
    (l : list A) :
  (∀ x, x ∈ l → ¬ P x) → filter P l = [].
Proof.
  induction l as [|x l IH]; intros Hno; [done|].
  rewrite filter_cons, decide_False by (apply Hno; left).
  apply IH. intros y Hy. apply Hno. by right.
Qed.

(** At most one entry of a list has a property that no two positions share. *)
Lemma filter_length_le_1 {A : Type} (P : A → Prop) `{∀ x, Decision (P x)}
    (l : list A) :
  (∀ p q a b, l !! p = Some a → l !! q = Some b → P a → P b → p = q) →
  length (filter P l) ≤ 1.
Proof.
  induction l as [|x l IH]; intros Huniq; [simpl; lia|].
  rewrite filter_cons. destruct (decide (P x)) as [Hx|Hx].
  - assert (filter P l = []) as ->; [|simpl; lia].
    apply filter_none. intros y Hy Hpy.
    apply list_elem_of_lookup in Hy as [q Hq].
    by specialize (Huniq 0 (S q) x y eq_refl Hq Hx Hpy).
  - apply IH. intros p q a b Hp Hq Ha Hb.
    by specialize (Huniq (S p) (S q) a b Hp Hq Ha Hb) as [= ->].
Qed.

Section ParcelMaskExtras.
Context {F : Type} `{Scalar F}.

Lemma membership_matrix_same_sets (n : nat) (ps qs : list (list Z)) :
  Forall2 (λ p q, ∀ i, i ∈ p ↔ i ∈ q) ps qs →
  membership_matrix (F:=F) n ps = membership_matrix n qs.
Proof.
  intros Hsame. unfold membership_matrix. apply list_fmap_ext. intros _ v _.
  induction Hsame as [|p q ps qs Hpq _ IH]; [done|]. csimpl. f_equal; [|done].
  unfold indicator. by rewrite (bool_decide_ext _ _ (Hpq (Z.of_nat v))).
Qed.

Lemma in_range_same_sets (n : nat) (ps qs : list (list Z)) :
  Forall2 (λ p q, ∀ i, i ∈ p ↔ i ∈ q) ps qs →
  in_range n ps → in_range n qs.
Proof.
  intros Hsame Hin q i Hq Hi.
  apply list_elem_of_lookup in Hq as [k Hk].
  destruct (Forall2_lookup_r _ _ _ _ _ Hsame Hk) as (p & Hp & Hpq).
  apply (Hin p i); [by eapply list_elem_of_lookup_2|by apply Hpq].
Qed.

Lemma build_parcel_mask_same_sets_Some (n : nat) (ps qs : list (list Z))
    (M : list (list F)) :
  Forall2 (λ p q, ∀ i, i ∈ p ↔ i ∈ q) ps qs →
  build_parcel_mask n ps = Some M → build_parcel_mask n qs = Some M.
Proof.
  intros Hsame HM.
  apply build_parcel_mask_Some in HM as (Hne & Hin & ->).
  rewrite (membership_matrix_same_sets n ps qs Hsame).
  apply build_parcel_mask_ok.
  - intros ->. by apply Forall2_nil_inv_r in Hsame.
  - by eapply in_range_same_sets.
Qed.

(** X1.  The parcel mask depends on each parcel only through the set of
    indices it lists: two parcel lists whose parcels list the same indices,
    in whatever order and however often, give the same mask, and the
    construction raises for the one exactly when it raises for the other. *)
Theorem parcel_mask_same_index_sets (n : nat) (ps qs : list (list Z)) :
  Forall2 (λ p q, ∀ i, i ∈ p ↔ i ∈ q) ps qs →
  build_parcel_mask (F:=F) n ps = build_parcel_mask n qs.
Proof.
  intros Hsame.
  destruct (build_parcel_mask n ps) as [M|] eqn:Hps.
  - symmetry. by eapply build_parcel_mask_same_sets_Some.
  - destruct (build_parcel_mask n qs) as [M|] eqn:Hqs; [|done].
    rewrite <- Hps. eapply build_parcel_mask_same_sets_Some; [|done].
    apply Forall2_flip. eapply Forall2_impl; [done|].
    intros p q Hpq i. symmetry. apply Hpq.
Qed.

(** X2.  Row [v] of the parcel mask adds up to the number of parcels that
    list voxel [v]; when the parcels are pairwise disjoint that number is at
    most one, so that a row holds at most a single 1. *)
Theorem parcel_mask_row_counts_owners `{!ExactScalar F} (n : nat)
    (parcel_list : list (list Z)) (M : list (list F)) (v : nat)
    (row : list F) :
  build_parcel_mask n parcel_list = Some M → M !! v = Some row →
  v < n ∧
  length row = length parcel_list ∧
  tsum row
  = of_count (length (filter (λ parcel, Z.of_nat v ∈ parcel) parcel_list)) ∧
  (pairwise_disjoint parcel_list →
   length (filter (λ parcel, Z.of_nat v ∈ parcel) parcel_list) ≤ 1).
Proof.
  intros HM Hrow.
  apply build_parcel_mask_Some in HM as (Hne & Hin & ->).
  assert (v < n) as Hv.
  { apply lookup_lt_Some in Hrow.
    by rewrite (proj1 (membership_matrix_shape n parcel_list)) in Hrow. }
  unfold membership_matrix in Hrow.
  rewrite list_lookup_fmap, lookup_seq_lt in Hrow by done.
  injection Hrow as <-. split; [done|]. split; [by rewrite length_fmap|]. split.
  - unfold tsum, indicator.
    apply (foldl_flags (λ parcel, Z.of_nat v ∈ parcel) parcel_list 0).
  - intros Hdisj. apply filter_length_le_1.
    intros p q a b Hp Hq Ha Hb. by apply (Hdisj p q a b (Z.of_nat v)).
Qed.

End ParcelMaskExtras.

Lemma omap_Forall2_ext {A B : Type} (f : A → option B) (l k : list A) :
  Forall2 (λ a b, f a = f b) l k → omap f l = omap f k.
Proof.
  induction 1 as [|a b l k Hab _ IH]; [done|]. csimpl. by rewrite Hab, IH.
Qed.

Lemma omap_none {A B : Type} (f : A → option B) (l : list A) :
  (∀ x, x ∈ l → f x = None) → omap f l = [].
Proof.
  induction l as [|x l IH]; intros Hno; [done|]. csimpl.
  rewrite (Hno x) by left. apply IH. intros y Hy. apply Hno. by right.
Qed.

Lemma mapM_None_elem {A B : Type} (f : A → option B) (l : list A) (x : A) :
  x ∈ l → f x = None → mapM f l = None.
Proof.
  intros Hx Hfx. destruct (mapM f l) as [k|] eqn:Hk; [|done].
  assert (is_Some (f x)) as [y Hy]; [|congruence].
  assert (is_Some (mapM f l)) as Hsome by (by eexists).
  rewrite mapM_is_Some, Forall_forall in Hsome. by apply Hsome.
Qed.

Section ReadoutExtras.
Context {F : Type} `{Scalar F} `{!ExactScalar F}.
Context (ffinite : F → Prop) `{!FiniteScalar F ffinite}.

(** The model [brain_encoder.__init__] builds. *)
Lemma brain_encoder_init_Some (d_model : nat) (new_linear : nat → nat → Linear F)
    (dataset : Dataset) (self : brain_encoder F) :
  brain_encoder_init d_model new_linear dataset = Some self →
  parcels dataset ≠ [] ∧
  in_range (num_hemi_voxels dataset) (parcels dataset) ∧
  parcel_mask self
  = membership_matrix (num_hemi_voxels dataset) (parcels dataset) ∧
  embed self = new_linear d_model (num_hemi_voxels dataset).
Proof.
  unfold brain_encoder_init. intros Hinit.
  destruct (build_parcel_mask _ _) as [pm|] eqn:Hpm; [|done].
  apply build_parcel_mask_Some in Hpm as (Hne & Hin & ->).
  simpl in Hinit. by injection Hinit as <-.
Qed.

(** The rows of a sample's reconstruction are as long as the voxel space. *)
Lemma readout_sample_length (self : brain_encoder F) (n : nat)
    (parcel_list : list (list Z)) (toks : list (list F)) (row : list F) :
  Linear_shape (embed self) → out_features (embed self) = n →
  parcel_mask self = membership_matrix n parcel_list →
  readout_sample self toks = Some row → length row = n.
Proof.
  intros Hshape Hout Hmask. unfold readout_sample.
  destruct (mapM _ toks) as [projs|] eqn:Hprojs; [|done]. simpl.
  destruct (bmul2 _ _) as [x|] eqn:Hx; [|done]. simpl. intros [= <-].
  rewrite length_fmap.
  assert (length (transpose n projs) = n) as Htr.
  { apply transpose_length. apply mapM_Some in Hprojs.
    apply Forall_forall. intros proj Hproj.
    apply list_elem_of_lookup in Hproj as [p Hp].
    destruct (Forall2_lookup_r _ _ _ _ _ Hprojs Hp) as (t & _ & Ht).
    unfold Linear_forward in Ht. destruct (_ =? _); [|done].
    injection Ht as <-. destruct Hshape as (Hw & _ & Hb).
    rewrite length_zip_with. lia. }
  rewrite Hout, Hmask in Hx. unfold bmul2 in Hx.
  rewrite Htr, (proj1 (membership_matrix_shape n parcel_list)) in Hx.
  rewrite Nat.eqb_refl in Hx. apply mapM_Some, Forall2_length in Hx.
  rewrite <- Hx, length_zip, Htr,
    (proj1 (membership_matrix_shape n parcel_list)). lia.
Qed.

(** X3.  For a model built by [brain_encoder.__init__] and tokens of shape
    (batch, P, hidden_dim), the readout returns a (batch, num_voxels) tensor,
    whatever the tokens, the weights and the bias of the projection, and a
    voxel that no parcel lists reads exactly zero in every sample in which
    the values projected to that voxel are finite. *)
Theorem readout_uncovered_voxel_zero (d_model : nat)
    (new_linear : nat → nat → Linear F) (dataset : Dataset)
    (self : brain_encoder F) (output_tokens : list (list (list F))) :
  (∀ i o, in_features (new_linear i o) = i ∧ out_features (new_linear i o) = o ∧
          Linear_shape (new_linear i o)) →
  brain_encoder_init d_model new_linear dataset = Some self →
  Forall (λ toks, length toks = length (parcels dataset) ∧
                  Forall (λ t, length t = d_model) toks) output_tokens →
  ∃ pred,
    readout self output_tokens = Some pred ∧
    length pred = length output_tokens ∧
    Forall (λ row, length row = num_hemi_voxels dataset) pred ∧
    ∀ b toks, output_tokens !! b = Some toks →
      ∃ projs,
        mapM (Linear_forward (embed self)) toks = Some projs ∧
        ∀ v, v < num_hemi_voxels dataset →
          (∀ parcel, parcel ∈ parcels dataset → Z.of_nat v ∉ parcel) →
          masked_out_finite ffinite (parcels dataset) projs v →
          entry pred b v = Some fzero.
Proof.
  intros Hnew Hinit Htok.
  destruct (brain_encoder_init_Some _ _ _ _ Hinit) as (Hne & Hin & Hmask & Hembed).
  destruct (Hnew d_model (num_hemi_voxels dataset)) as (Hi & Ho & Hshape).
  rewrite <- Hembed in Hi, Ho, Hshape.
  assert (∀ toks, toks ∈ output_tokens →
            ∃ projs row,
              mapM (Linear_forward (embed self)) toks = Some projs ∧
              readout_sample self toks = Some row ∧
              ∀ v, v < num_hemi_voxels dataset →
                masked_out_finite ffinite (parcels dataset) projs v →
                row !! v = Some (tsum (contributions (parcels dataset) projs v)))
    as Hsample.
  { intros toks Htoks. rewrite Forall_forall in Htok.
    destruct (Htok toks Htoks) as [Hlen Hall].
    apply readout_sample_spec; try done. by rewrite Hi. }
  destruct (mapM_is_Some_2 (readout_sample self) output_tokens) as [pred Hpred].
  { apply Forall_forall. intros toks Htoks.
    destruct (Hsample toks Htoks) as (? & row & _ & Hrow & _).
    simpl. rewrite Hrow. by eexists. }
  exists pred. rewrite readout_by_sample. split; [done|].
  apply mapM_Some in Hpred.
  split; [symmetry; by eapply Forall2_length|]. split.
  - apply Forall_forall. intros row Hrow.
    apply list_elem_of_lookup in Hrow as [b Hb].
    destruct (Forall2_lookup_r _ _ _ _ _ Hpred Hb) as (toks & _ & Hrow).
    by eapply readout_sample_length.
  - intros b toks Htoks.
    destruct (Forall2_lookup_l _ _ _ _ _ Hpred Htoks) as (row & Hrow & Hsrow).
    destruct (Hsample toks) as (projs & row' & Hprojs & Hrow' & Hvals);
      [by eapply list_elem_of_lookup_2|].
    simplify_eq. exists projs. split; [done|]. intros v Hv Hnone Hfin.
    unfold entry. rewrite Hrow. simpl. rewrite (Hvals v Hv Hfin).
    assert (contributions (parcels dataset) projs v = []) as ->; [|done].
    unfold contributions. apply omap_none. intros [parcel proj] Hpp.
    apply elem_of_zip_l in Hpp. simpl.
    by rewrite bool_decide_eq_false_2 by (by apply Hnone).
Qed.

(** X4.  As long as the values projected to voxel [v] by the parcels that
    do not list it are finite, the readout at [v] depends on the tokens only
    through the tokens of the parcels that list [v]: two token tensors that
    agree on those tokens give the same value at [v] in every sample in
    which both project finite values to [v] from the other parcels. *)
Theorem readout_depends_on_owner_tokens (d_model : nat)
    (new_linear : nat → nat → Linear F) (dataset : Dataset)
    (self : brain_encoder F) (tokens tokens' : list (list (list F))) (v : nat) :
  (∀ i o, in_features (new_linear i o) = i ∧ out_features (new_linear i o) = o ∧
          Linear_shape (new_linear i o)) →
  brain_encoder_init d_model new_linear dataset = Some self →
  Forall (λ toks, length toks = length (parcels dataset) ∧
                  Forall (λ t, length t = d_model) toks) tokens →
  Forall (λ toks, length toks = length (parcels dataset) ∧
                  Forall (λ t, length t = d_model) toks) tokens' →
  Forall2 (λ toks toks' : list (list F),
             ∀ p parcel, parcels dataset !! p = Some parcel →
                         Z.of_nat v ∈ parcel → toks !! p = toks' !! p)
          tokens tokens' →
  v < num_hemi_voxels dataset →
  ∃ pred pred',
    readout self tokens = Some pred ∧ readout self tokens' = Some pred' ∧
    length pred = length tokens ∧ length pred' = length tokens ∧
    ∀ b toks toks', tokens !! b = Some toks → tokens' !! b = Some toks' →
      ∃ projs projs',
        mapM (Linear_forward (embed self)) toks = Some projs ∧
        mapM (Linear_forward (embed self)) toks' = Some projs' ∧
        (masked_out_finite ffinite (parcels dataset) projs v →
         masked_out_finite ffinite (parcels dataset) projs' v →
         entry pred b v = entry pred' b v).
Proof.
  intros Hnew Hinit Htok Htok' Hagree Hv.
  destruct (brain_encoder_init_Some _ _ _ _ Hinit) as (Hne & Hin & Hmask & Hembed).
  destruct (Hnew d_model (num_hemi_voxels dataset)) as (Hi & Ho & Hshape).
  rewrite <- Hembed in Hi, Ho, Hshape.
  assert (∀ T : list (list (list F)),
            Forall (λ toks, length toks = length (parcels dataset) ∧
                            Forall (λ t, length t = d_model) toks) T →
            ∃ pred, readout self T = Some pred ∧
              Forall2 (λ toks row,
                         ∃ projs,
                           mapM (Linear_forward (embed self)) toks = Some projs ∧
                           (masked_out_finite ffinite (parcels dataset) projs v →
                            row !! v
                            = Some (tsum (contributions (parcels dataset)
                                            projs v))))
                      T pred) as Hrun.
  { intros T HT.
    assert (∀ toks, toks ∈ T →
              ∃ projs row,
                mapM (Linear_forward (embed self)) toks = Some projs ∧
                readout_sample self toks = Some row ∧
                ∀ v, v < num_hemi_voxels dataset →
                  masked_out_finite ffinite (parcels dataset) projs v →
                  row !! v = Some (tsum (contributions (parcels dataset) projs v)))
      as Hsample.
    { intros toks Htoks. rewrite Forall_forall in HT.
      destruct (HT toks Htoks) as [Hlen Hall].
      apply readout_sample_spec; try done. by rewrite Hi. }
    destruct (mapM_is_Some_2 (readout_sample self) T) as [pred Hpred].
    { apply Forall_forall. intros toks Htoks.
      destruct (Hsample toks Htoks) as (? & row & _ & Hrow & _).
      simpl. rewrite Hrow. by eexists. }
    exists pred. rewrite readout_by_sample. split; [done|].
    apply mapM_Some in Hpred. apply Forall2_same_length_lookup.
    split; [by eapply Forall2_length|]. intros b toks row Htoks Hrow.
    destruct (Forall2_lookup_l _ _ _ _ _ Hpred Htoks) as (row' & Hrow' & Hsrow).
    destruct (Hsample toks) as (projs & row'' & Hprojs & Hrow'' & Hvals);
      [by eapply list_elem_of_lookup_2|].
    simplify_eq. exists projs. split; [done|]. by apply Hvals. }
  destruct (Hrun tokens Htok) as (pred & Hpred & Hrows).
  destruct (Hrun tokens' Htok') as (pred' & Hpred' & Hrows').
  exists pred, pred'. split; [done|]. split; [done|].
  split; [symmetry; by eapply Forall2_length|].
  split; [by rewrite <- (Forall2_length _ _ _ Hrows'),
               (Forall2_length _ _ _ Hagree)|].
  intros b toks toks' Hb Hb'.
  destruct (Forall2_lookup_l _ _ _ _ _ Hagree Hb) as (toks'' & Hb'' & Hsame).
  simplify_eq.
  destruct (Forall2_lookup_l _ _ _ _ _ Hrows Hb)
    as (row & Hrow & projs & Hprojs & Hval).
  destruct (Forall2_lookup_l _ _ _ _ _ Hrows' Hb')
    as (row' & Hrow' & projs' & Hprojs' & Hval').
  exists projs, projs'. split; [done|]. split; [done|]. intros Hfin Hfin'.
  unfold entry. rewrite Hrow, Hrow'. simpl.
  rewrite (Hval Hfin), (Hval' Hfin'). do 2 f_equal.
  unfold contributions. apply omap_Forall2_ext.
  apply mapM_Some in Hprojs, Hprojs'.
  apply Forall2_same_length_lookup. split.
  - rewrite !length_zip, <- (Forall2_length _ _ _ Hprojs),
      <- (Forall2_length _ _ _ Hprojs').
    rewrite Forall_forall in Htok, Htok'.
    rewrite (proj1 (Htok toks (list_elem_of_lookup_2 _ _ _ Hb))).
    by rewrite (proj1 (Htok' toks' (list_elem_of_lookup_2 _ _ _ Hb'))).
  - intros p [parcel proj] [parcel' proj'] Hp Hp'.
    apply lookup_zip_with_Some in Hp as (? & ? & [= <- <-] & Hparcel & Hproj).
    apply lookup_zip_with_Some in Hp' as (? & ? & [= <- <-] & Hparcel' & Hproj').
    simplify_eq. simpl. case_bool_decide as Hmem; [|done].
    destruct (Forall2_lookup_r _ _ _ _ _ Hprojs Hproj) as (t & Ht & Hft).
    destruct (Forall2_lookup_r _ _ _ _ _ Hprojs' Hproj') as (t' & Ht' & Hft').
    rewrite (Hsame p parcel Hparcel Hmem) in Ht. by simplify_eq.
Qed.

(** X5.  Broadcasting the mask against the projected tokens needs one token
    per parcel: with a sample of [Q] tokens against [P] parcels, [Q] and [P]
    different and neither of them one, the readout raises. *)
Theorem readout_token_count_mismatch (d_model : nat)
    (new_linear : nat → nat → Linear F) (dataset : Dataset)
    (self : brain_encoder F) (output_tokens : list (list (list F)))
    (toks : list (list F)) :
  (∀ i o, in_features (new_linear i o) = i ∧ out_features (new_linear i o) = o ∧
          Linear_shape (new_linear i o)) →
  brain_encoder_init d_model new_linear dataset = Some self →
  0 < num_hemi_voxels dataset →
  toks ∈ output_tokens →
  length toks ≠ length (parcels dataset) →
  length toks ≠ 1 → length (parcels dataset) ≠ 1 →
  readout self output_tokens = None.
Proof.
  intros Hnew Hinit Hpos Htoks HQP HQ HP.
  destruct (brain_encoder_init_Some _ _ _ _ Hinit) as (Hne & Hin & Hmask & Hembed).
  destruct (Hnew d_model (num_hemi_voxels dataset)) as (Hi & Ho & Hshape).
  rewrite <- Hembed in Hi, Ho, Hshape.
  rewrite readout_by_sample. apply (mapM_None_elem _ _ toks Htoks).
  unfold readout_sample.
  destruct (mapM _ toks) as [projs|] eqn:Hprojs; [|done]. simpl.
  apply mapM_Some in Hprojs.
  assert (Forall (λ y : list F, length y = num_hemi_voxels dataset) projs)
    as Hrows.
  { apply Forall_forall. intros proj Hproj.
    apply list_elem_of_lookup in Hproj as [p Hp].
    destruct (Forall2_lookup_r _ _ _ _ _ Hprojs Hp) as (t & _ & Ht).
    unfold Linear_forward in Ht. destruct (_ =? _); [|done].
    injection Ht as <-. destruct Hshape as (Hw & _ & Hb).
    rewrite length_zip_with. lia. }
  destruct (transpose_lookup _ projs 0 Hrows Hpos) as (col & Hcol & Hall).
  destruct (membership_matrix_shape (F:=F) (num_hemi_voxels dataset)
              (parcels dataset)) as [HMlen HMrows].
  destruct (lookup_lt_is_Some_2
              (membership_matrix (F:=F) (num_hemi_voxels dataset)
                 (parcels dataset)) 0) as [mrow Hmrow]; [lia|].
  assert (length col = length toks) as Hcollen.
  { by rewrite <- (Forall2_length _ _ _ Hall), <- (Forall2_length _ _ _ Hprojs). }
  assert (length mrow = length (parcels dataset)) as Hmlen.
  { rewrite Forall_forall in HMrows. apply HMrows.
    by eapply list_elem_of_lookup_2. }
  assert (bmul1 col mrow = None) as Hfail.
  { unfold bmul1. rewrite (proj2 (Nat.eqb_neq _ _)) by lia.
    destruct col as [|a [|a' col]], mrow as [|m [|m' mrow]];
      simpl in *; try done; lia. }
  rewrite Ho, Hmask. unfold bmul2.
  rewrite transpose_length, HMlen, Nat.eqb_refl by done.
  rewrite (mapM_None_elem _ _ (col, mrow)); [done| |done].
  apply list_elem_of_lookup. exists 0.
  apply lookup_zip_with_Some. by exists col, mrow.
Qed.

End ReadoutExtras.

(** * Further properties of [unwrap_fmri] *)

Lemma foldlM_invariant {S A : Type} (body : S → A → option S) (P : S → Prop)
    (l : list A) (s s' : S) :
  (∀ s x s', P s → body s x = Some s' → P s') →
  P s → foldlM body s l = Some s' → P s'.
Proof.
  intros Hstep. revert s. induction l as [|x l IH]; intros s Hs; simpl.
  - by intros [= <-].
  - destruct (body s x) as [s1|] eqn:Hbody; [|done]. simpl.
    apply IH. by eapply Hstep.
Qed.

Lemma foldlM_None_at {S A : Type} (body : S → A → option S) (P : S → Prop)
    (l : list A) (p : nat) (x : A) (s : S) :
  (∀ s x s', P s → body s x = Some s' → P s') →
  P s → l !! p = Some x → (∀ s, P s → body s x = None) →
  foldlM body s l = None.
Proof.
  intros Hstep Hs Hp Hfail.
  rewrite <- (take_drop_middle l p x Hp), foldlM_app.
  destruct (foldlM body s (take p l)) as [s1|] eqn:Hpre; [|done]. simpl.
  rewrite Hfail; [done|]. by eapply foldlM_invariant.
Qed.

Lemma foldlM_Forall2_ext {S A : Type} (body : S → A → option S)
    (l k : list A) (s : S) :
  Forall2 (λ x y, ∀ s, body s x = body s y) l k →
  foldlM body s l = foldlM body s k.
Proof.
  intros Hlk. revert s. induction Hlk as [|x y l k Hxy _ IH]; intros s; [done|].
  simpl. rewrite Hxy. destruct (body s y); [apply IH|done].
Qed.

Lemma mapM_Forall2_ext {A B : Type} (f : A → option B) (l k : list A) :
  Forall2 (λ a b, f a = f b) l k → mapM f l = mapM f k.
Proof.
  induction 1 as [|a b l k Hab _ IH]; [done|].
  change (mapM f (a :: l)) with (y ← f a; k ← mapM f l; mret (y :: k)).
  change (mapM f (b :: k)) with (y ← f b; k ← mapM f k; mret (y :: k)).
  by rewrite Hab, IH.
Qed.

Lemma broadcast_to_length {A : Type} (n : nat) (l l' : list A) :
  broadcast_to n l = Some l' → length l' = n.
Proof.
  unfold broadcast_to. destruct (length l =? n) eqn:Hlen.
  - intros [= <-]. by apply Nat.eqb_eq.
  - destruct l as [|x [|??]]; try done. intros [= <-]. apply length_replicate.
Qed.

Lemma broadcast_to_elem {A : Type} (n : nat) (l l' : list A) (x : A) :
  broadcast_to n l = Some l' → x ∈ l' → x ∈ l.
Proof.
  unfold broadcast_to. destruct (length l =? n).
  - by intros [= <-].
  - destruct l as [|y [|??]]; try done. intros [= <-] Hx.
    apply elem_of_replicate in Hx as [-> _]. left.
Qed.

(** Packed data of [P] parcel rows per sample has [P] rows once its two
    outer axes are exchanged, row [p] holding slot row [p] of every sample. *)
Lemma permute_1_0_2_length {F : Type} (P : nat) (t : list (list (list F))) :
  t ≠ [] → Forall (λ s, length s = P) t → length (permute_1_0_2 t) = P.
Proof.
  intros Hne Hall. unfold permute_1_0_2. destruct t as [|x t]; [done|].
  rewrite (Forall_inv Hall). by apply transpose_length.
Qed.

Lemma permute_1_0_2_lookup {F : Type} (P : nat) (t : list (list (list F)))
    (p : nat) (betas : list (list F)) :
  Forall (λ s, length s = P) t →
  permute_1_0_2 t !! p = Some betas →
  Forall2 (λ s r, s !! p = Some r) t betas.
Proof.
  intros Hall Hp. unfold permute_1_0_2 in Hp. destruct t as [|x t].
  - simpl in Hp. by rewrite lookup_nil in Hp.
  - rewrite (Forall_inv Hall) in Hp.
    assert (p < P) as HpP.
    { apply lookup_lt_Some in Hp. by rewrite transpose_length in Hp. }
    destruct (transpose_lookup P (x :: t) p Hall HpP) as (col & Hcol & Hcols).
    by simplify_eq.
Qed.

Lemma foldlM_invariant_in {S A : Type} (body : S → A → option S)
    (P : S → Prop) (l : list A) (s s' : S) :
  (∀ s x s', x ∈ l → P s → body s x = Some s' → P s') →
  P s → foldlM body s l = Some s' → P s'.
Proof.
  revert s. induction l as [|x l IH]; intros s Hstep Hs; simpl.
  - by intros [= <-].
  - destruct (body s x) as [s1|] eqn:Hbody; [|done]. simpl. apply IH.
    + intros s2 y s3 Hy. apply Hstep. by right.
    + eapply Hstep; [left|done..].
Qed.

Section UnwrapExtras.
Context {F : Type} `{Scalar F}.

Lemma assign_columns_length {S : Type} (put : S → list (nat * F) → S)
    (ncols : nat) (recon recon' : list S) (idxs : list Z)
    (value : list (list F)) :
  assign_columns put ncols recon idxs value = Some recon' →
  length recon' = length recon.
Proof.
  unfold assign_columns. destruct (mapM _ idxs) as [js|]; [|done]. simpl.
  destruct (broadcast_to _ value) as [value'|] eqn:Hb; [|done]. simpl.
  intros Hm. apply mapM_Some, Forall2_length in Hm. rewrite <- Hm, length_zip.
  apply broadcast_to_length in Hb. lia.
Qed.

Lemma unwrap_loop_length {S : Type} (put : S → list (nat * F) → S) (init : S)
    (ncols batch_size : nat) (fmri_data : list (list (list F)))
    (dataset : Dataset) (recon : list S) :
  unwrap_loop put init ncols batch_size fmri_data dataset = Some recon →
  length recon = batch_size.
Proof.
  unfold unwrap_loop. intros Hloop.
  apply (foldlM_invariant _ (λ r, length r = batch_size) _ _ _) in Hloop;
    [done| |apply length_replicate].
  intros s x s' Hs Hbody.
  destruct (mapM _ x.2.1) as [value|]; [|done]. simpl in Hbody.
  apply assign_columns_length in Hbody. lia.
Qed.

(** X6.  What [unwrap_fmri] returns has [batch_size] rows, each with as many
    entries as there are voxels labelled [metaparcel_idx]. *)
Theorem unwrap_fmri_shape (batch_size : nat) (fmri_data : list (list (list F)))
    (dataset : Dataset) (metaparcel_idx : Z) (r : list (list F)) :
  unwrap_fmri batch_size fmri_data dataset metaparcel_idx = Some r →
  length r = batch_size ∧
  Forall (λ row, length row = subset_size dataset metaparcel_idx) r.
Proof.
  intros Hr. split; [|by eapply unwrap_fmri_width].
  unfold unwrap_fmri in Hr.
  destruct (labels_col0 dataset) as [lbl|]; [|done]. cbn [mbind option_bind] in Hr.
  destruct (unwrap_loop _ _ _ _ _ _) as [recon|] eqn:Hloop; [|done].
  cbn [mbind option_bind] in Hr. apply mapM_Some, Forall2_length in Hr.
  apply unwrap_loop_length in Hloop. lia.
Qed.

(** X8.  The loop runs over [zip(dataset.parcels, fmri_data.permute(1, 0, 2),
    dataset.mask)], which stops at the shortest of the three: on a batch
    that is not empty, parcels beyond the parcel rows of the data, or beyond
    the rows of the validity mask, are skipped without an error, whatever
    indices they list. *)
Theorem unwrap_fmri_skips_unpaired_parcels (batch_size P : nat)
    (fmri_data : list (list (list F))) (dataset : Dataset)
    (metaparcel_idx : Z) :
  fmri_data ≠ [] → Forall (λ s, length s = P) fmri_data →
  unwrap_fmri batch_size fmri_data dataset metaparcel_idx
  = unwrap_fmri batch_size fmri_data
      (with_parcels dataset
         (take (P `min` length (mask dataset)) (parcels dataset)))
      metaparcel_idx.
Proof.
  intros Hne Hrect. unfold unwrap_fmri, unwrap_loop, labels_col0. simpl.
  destruct (mapM head (labels dataset)) as [lbl|]; [|done].
  cbn [mbind option_bind].
  by rewrite (zip_with_take_l' _ (P `min` length (mask dataset)))
    by (rewrite length_zip, (permute_1_0_2_length P) by done; lia).
Qed.

(** X9.  On a batch that is not empty, an index outside [-V, V), [V] being
    the number of rows of [dataset.labels], in a parcel the loop reaches
    makes [unwrap_fmri] raise. *)
Theorem unwrap_fmri_index_out_of_range (batch_size P : nat)
    (fmri_data : list (list (list F))) (dataset : Dataset)
    (metaparcel_idx : Z) (lbl : list Z) (p : nat) (idxs : list Z) (i : Z) :
  labels_col0 dataset = Some lbl →
  0 < batch_size → fmri_data ≠ [] → Forall (λ s, length s = P) fmri_data →
  p < P → p < length (mask dataset) →
  parcels dataset !! p = Some idxs → i ∈ idxs →
  ¬ (- Z.of_nat (length lbl) ≤ i < Z.of_nat (length lbl))%Z →
  unwrap_fmri batch_size fmri_data dataset metaparcel_idx = None.
Proof.
  intros Hlbl _ Hne Hrect HpP Hpm Hidxs Hi Hout.
  unfold unwrap_fmri, unwrap_loop. rewrite Hlbl. cbn [mbind option_bind].
  destruct (lookup_lt_is_Some_2 (permute_1_0_2 fmri_data) p) as [betas Hbetas];
    [by rewrite (permute_1_0_2_length P)|].
  destruct (lookup_lt_is_Some_2 (mask dataset) p Hpm) as [m Hm].
  rewrite (foldlM_None_at _ (λ _, True) _ p (idxs, (betas, m))); try done.
  - apply lookup_zip_with_Some. exists idxs, (betas, m).
    split; [done|]. split; [done|].
    apply lookup_zip_with_Some. by exists betas, m.
  - intros s _. cbn [fst snd].
    destruct (mapM _ betas) as [value|]; [|done]. cbn [mbind option_bind].
    unfold assign_columns. rewrite (mapM_None_elem _ _ i Hi); [done|].
    unfold norm_index. rewrite !bool_decide_eq_false_2; [done|lia|lia].
Qed.

(** X10.  [unwrap_fmri] reads an index in [-V, 0) as counting from the end
    of the voxel axis: with all indices in [-V, V), it returns what it
    returns for the dataset whose negative indices [i] are replaced by
    [V + i]. *)
Theorem unwrap_fmri_negative_index_wraps (batch_size : nat)
    (fmri_data : list (list (list F))) (dataset : Dataset)
    (metaparcel_idx : Z) (lbl : list Z) :
  labels_col0 dataset = Some lbl →
  Forall (Forall (λ i, - Z.of_nat (length lbl) ≤ i < Z.of_nat (length lbl))%Z)
         (parcels dataset) →
  unwrap_fmri batch_size fmri_data dataset metaparcel_idx
  = unwrap_fmri batch_size fmri_data
      (with_parcels dataset
         ((λ idxs : list Z, wrap_index (length lbl) <$> idxs) <$> parcels dataset))
      metaparcel_idx.
Proof.
  intros Hlbl Hin. unfold unwrap_fmri, unwrap_loop.
  assert (labels_col0 (with_parcels dataset
            ((λ idxs : list Z, wrap_index (length lbl) <$> idxs) <$> parcels dataset))
          = Some lbl) as -> by done.
  rewrite Hlbl. cbn [mbind option_bind]. f_equal.
  apply foldlM_Forall2_ext. cbn [parcels mask with_parcels].
  apply Forall2_same_length_lookup. split; [by rewrite !length_zip, length_fmap|].
  intros p [idxs [betas m]] [idxs' [betas' m']] Hp Hp'.
  apply lookup_zip_with_Some in Hp as (? & ? & [= <- <-] & Hidxs & Hbm).
  apply lookup_zip_with_Some in Hp' as (? & ? & [= <- <-] & Hidxs' & Hbm').
  rewrite list_lookup_fmap, Hidxs in Hidxs'. simpl in Hidxs'.
  injection Hidxs' as <-. simplify_eq. intros s.
  cbn [fst snd]. destruct (mapM _ betas) as [value|]; [|done].
  cbn [mbind option_bind]. unfold assign_columns. rewrite length_fmap.
  assert (mapM (norm_index (length lbl)) (wrap_index (length lbl) <$> idxs)
          = mapM (norm_index (length lbl)) idxs) as ->; [|done].
  apply mapM_Forall2_ext, Forall2_fmap_l, Forall_Forall2_diag.
  rewrite Forall_forall in Hin. apply Forall_forall. intros i Hi.
  assert (- Z.of_nat (length lbl) ≤ i < Z.of_nat (length lbl))%Z as Hrange.
  { assert (idxs ∈ parcels dataset) as Hmem by (by eapply list_elem_of_lookup_2).
    specialize (Hin idxs Hmem). rewrite Forall_forall in Hin. by apply Hin. }
  unfold compose, wrap_index, norm_index.
  destruct (decide (i < 0)%Z) as [Hneg|Hneg].
  - rewrite (bool_decide_eq_true_2 (i < 0)%Z Hneg).
    rewrite (bool_decide_eq_true_2 (0 ≤ i + _ < _)%Z) by lia.
    rewrite (bool_decide_eq_false_2 (0 ≤ i < _)%Z) by lia.
    by rewrite (bool_decide_eq_true_2 (- _ ≤ i < 0)%Z) by lia.
  - by rewrite (bool_decide_eq_false_2 (i < 0)%Z Hneg).
Qed.

(** X12.  On a batch that is not empty, a parcel the loop reaches whose
    validity-mask row has a number of valid slots that is neither the number
    of indices of the parcel nor one (which broadcasts) makes [unwrap_fmri]
    raise. *)
Theorem unwrap_fmri_slot_count_mismatch (batch_size P : nat)
    (fmri_data : list (list (list F))) (dataset : Dataset)
    (metaparcel_idx : Z) (p : nat) (idxs : list Z) (m : list bool) :
  0 < batch_size → fmri_data ≠ [] → Forall (λ s, length s = P) fmri_data →
  p < P → parcels dataset !! p = Some idxs → mask dataset !! p = Some m →
  count_true m ≠ length idxs → count_true m ≠ 1 →
  unwrap_fmri batch_size fmri_data dataset metaparcel_idx = None.
Proof.
  intros HB Hne Hrect HpP Hidxs Hm Hcount Hone.
  unfold unwrap_fmri, unwrap_loop.
  destruct (labels_col0 dataset) as [lbl|]; [|done]. cbn [mbind option_bind].
  destruct (lookup_lt_is_Some_2 (permute_1_0_2 fmri_data) p) as [betas Hbetas];
    [by rewrite (permute_1_0_2_length P)|].
  rewrite (foldlM_None_at _ (λ r, length r = batch_size) _ p (idxs, (betas, m)));
    try done.
  - intros s x s' Hs Hbody.
    destruct (mapM _ x.2.1) as [value|]; [|done]. simpl in Hbody.
    apply assign_columns_length in Hbody. lia.
  - apply length_replicate.
  - apply lookup_zip_with_Some. exists idxs, (betas, m).
    split; [done|]. split; [done|].
    apply lookup_zip_with_Some. by exists betas, m.
  - intros s Hs. cbn [fst snd].
    destruct (mapM _ betas) as [value|] eqn:Hvalue; [|done].
    cbn [mbind option_bind]. unfold assign_columns.
    destruct (mapM _ idxs) as [js|]; [|done]. cbn [mbind option_bind].
    destruct (broadcast_to _ value) as [value'|] eqn:Hb; [|done].
    cbn [mbind option_bind].
    pose proof (broadcast_to_length _ _ _ Hb) as Hlen.
    destruct s as [|s0 s]; [simpl in Hs; lia|].
    destruct value' as [|v0 value']; [done|].
    apply (mapM_None_elem _ _ (s0, v0)); [left|]. cbn [fst snd].
    assert (length v0 = count_true m) as Hv0.
    { assert (v0 ∈ value) as Hin by (eapply broadcast_to_elem; [done|left]).
      apply mapM_Some in Hvalue.
      apply list_elem_of_lookup in Hin as [b Hb'].
      destruct (Forall2_lookup_r _ _ _ _ _ Hvalue Hb') as (r & _ & Hsel).
      by apply select_mask_length in Hsel. }
    unfold broadcast_to. rewrite (proj2 (Nat.eqb_neq _ _)) by lia.
    destruct v0 as [|? [|??]]; simpl in *; try done; lia.
Qed.

(** X7.  The padding slots of the packed data never reach the output: two
    batches that hold the same values at the valid slots of every parcel
    are unwrapped to the same result (and raise together). *)
Theorem unwrap_fmri_ignores_padding (batch_size P : nat)
    (fmri_data fmri_data' : list (list (list F))) (dataset : Dataset)
    (metaparcel_idx : Z) :
  Forall (λ s, length s = P) fmri_data →
  Forall (λ s, length s = P) fmri_data' →
  Forall2 (agree_on_valid (mask dataset)) fmri_data fmri_data' →
  unwrap_fmri batch_size fmri_data dataset metaparcel_idx
  = unwrap_fmri batch_size fmri_data' dataset metaparcel_idx.
Proof.
  intros Hrect Hrect' Hsame. unfold unwrap_fmri, unwrap_loop.
  destruct (labels_col0 dataset) as [lbl|]; [|done]. cbn [mbind option_bind].
  f_equal. apply foldlM_Forall2_ext.
  assert (length (permute_1_0_2 fmri_data) = length (permute_1_0_2 fmri_data'))
    as Hlen.
  { destruct Hsame as [|s s' data data' _ Hsame]; [done|].
    by rewrite !(permute_1_0_2_length P). }
  apply Forall2_same_length_lookup. split; [rewrite !length_zip; lia|].
  intros p [idxs [betas m]] [idxs' [betas' m']] Hp Hp'.
  apply lookup_zip_with_Some in Hp as (? & ? & [= <- <-] & Hidxs & Hbm).
  apply lookup_zip_with_Some in Hp' as (? & ? & [= <- <-] & Hidxs' & Hbm').
  apply lookup_zip_with_Some in Hbm as (? & ? & [= <- <-] & Hbetas & Hm).
  apply lookup_zip_with_Some in Hbm' as (? & ? & [= <- <-] & Hbetas' & Hm').
  simplify_eq. intros recon. cbn [fst snd].
  assert (mapM (λ r, select_mask r m) betas = mapM (λ r, select_mask r m) betas')
    as ->; [|done].
  apply mapM_Forall2_ext.
  pose proof (permute_1_0_2_lookup P _ _ _ Hrect Hbetas) as Hcol.
  pose proof (permute_1_0_2_lookup P _ _ _ Hrect' Hbetas') as Hcol'.
  apply Forall2_same_length_lookup. split.
  - by rewrite <- (Forall2_length _ _ _ Hcol), <- (Forall2_length _ _ _ Hcol'),
      (Forall2_length _ _ _ Hsame).
  - intros b r r' Hr Hr'.
    destruct (Forall2_lookup_r _ _ _ _ _ Hcol Hr) as (s & Hs & Hsp).
    destruct (Forall2_lookup_r _ _ _ _ _ Hcol' Hr') as (s' & Hs' & Hsp').
    by apply (Forall2_lookup_lr _ _ _ _ _ _ Hsame Hs Hs' p m).
Qed.

Lemma apply_writes_lookup_other (r : list F) (ws : list (nat * F)) (v : nat) :
  (∀ w, w ∈ ws → w.1 ≠ v) → apply_writes r ws !! v = r !! v.
Proof.
  revert r. induction ws as [|w ws IH]; intros r Hno; [done|].
  unfold apply_writes. simpl. fold (apply_writes (<[w.1:=w.2]> r) ws).
  rewrite IH by (intros w' Hw'; apply Hno; by right).
  apply list_lookup_insert_ne, Hno. left.
Qed.

Lemma apply_writes_lookup_last (r : list F) (ws ws' : list (nat * F))
    (v : nat) (x : F) :
  v < length r → (∀ w, w ∈ ws' → w.1 ≠ v) →
  apply_writes r (ws ++ (v, x) :: ws') !! v = Some x.
Proof.
  intros Hv Hno. unfold apply_writes. rewrite foldl_app. simpl.
  fold (apply_writes r ws).
  fold (apply_writes (<[v:=x]> (apply_writes r ws)) ws').
  rewrite apply_writes_lookup_other by done.
  apply list_lookup_insert_eq. by rewrite length_apply_writes.
Qed.

(** One assignment [recon[:, idxs] = value], seen from row [b]. *)
Lemma assign_columns_row (ncols : nat) (recon recon' : list (list F))
    (idxs : list Z) (value : list (list F)) (b : nat) (row : list F) :
  assign_columns apply_writes ncols recon idxs value = Some recon' →
  recon !! b = Some row →
  ∃ js value' val vs,
    mapM (norm_index ncols) idxs = Some js ∧
    broadcast_to (length recon) value = Some value' ∧
    value' !! b = Some val ∧
    broadcast_to (length idxs) val = Some vs ∧
    recon' !! b = Some (apply_writes row (zip js vs)).
Proof.
  unfold assign_columns. intros Hassign Hrow.
  destruct (mapM _ idxs) as [js|]; [|done]. cbn [mbind option_bind] in Hassign.
  destruct (broadcast_to _ value) as [value'|] eqn:Hb; [|done].
  cbn [mbind option_bind] in Hassign. apply mapM_Some in Hassign.
  destruct (lookup_lt_is_Some_2 value' b) as [val Hval].
  { rewrite (broadcast_to_length _ _ _ Hb). by eapply lookup_lt_Some. }
  assert (zip recon value' !! b = Some (row, val)) as Hzip.
  { apply lookup_zip_with_Some. by exists row, val. }
  destruct (Forall2_lookup_l _ _ _ _ _ Hassign Hzip) as (row' & Hrow' & Hput).
  cbn [fst snd] in Hput.
  destruct (broadcast_to _ val) as [vs|] eqn:Hvs; [|done].
  injection Hput as <-. by exists js, value', val, vs.
Qed.

(** X11.  Of two parcels that name the same voxel, the later one stands:
    the reconstruction holds at voxel [v] the value of the slot that names
    [v] in the last parcel to name it (the parcel naming [v] once), and the
    returned rows are the reconstructed rows restricted to the voxels
    labelled [metaparcel_idx]. *)
Theorem unwrap_fmri_later_parcel_stands (P : nat)
    (fmri_data : list (list (list F))) (dataset : Dataset)
    (metaparcel_idx : Z) (lbl : list Z) (r : list (list F))
    (p b k v : nat) (idxs : list Z) (m : list bool) (s : list (list F))
    (slots vals : list F) (i : Z) (x : F) :
  labels_col0 dataset = Some lbl →
  Forall (λ s, length s = P) fmri_data →
  unwrap_fmri (length fmri_data) fmri_data dataset metaparcel_idx = Some r →
  parcels dataset !! p = Some idxs → mask dataset !! p = Some m →
  fmri_data !! b = Some s → s !! p = Some slots →
  select_mask slots m = Some vals → length vals = length idxs →
  idxs !! k = Some i → norm_index (length lbl) i = Some v →
  vals !! k = Some x →
  (∀ k' i', idxs !! k' = Some i' → norm_index (length lbl) i' = Some v →
            k' = k) →
  (∀ p' idxs' i', p < p' → parcels dataset !! p' = Some idxs' → i' ∈ idxs' →
                  norm_index (length lbl) i' ≠ Some v) →
  ∃ row,
    r !! b = Some (restrict lbl metaparcel_idx row) ∧
    length row = length lbl ∧ row !! v = Some x.
Proof.
  intros Hlbl Hrect Hr Hidxs Hm Hs Hslots Hsel Hlen Hi Hv Hx Honce Hlater.
  unfold unwrap_fmri in Hr. rewrite Hlbl in Hr. cbn [mbind option_bind] in Hr.
  destruct (unwrap_loop _ _ _ _ _ _) as [recon|] eqn:Hloop; [|done].
  cbn [mbind option_bind] in Hr. apply mapM_Some in Hr.
  set (V := length lbl) in *. set (B := length fmri_data) in *.
  set (Inv := λ rc : list (list F),
                length rc = B ∧ Forall (λ row, length row = V) rc).
  set (body := λ (recon : list (list F))
                 (pbm : list Z * (list (list F) * list bool)),
                 value ← mapM (λ r, select_mask r pbm.2.2) pbm.2.1;
                 assign_columns apply_writes V recon pbm.1 value).
  assert (∀ rc y rc', Inv rc → body rc y = Some rc' → Inv rc') as Hstep.
  { intros rc y rc' [HrcB HrcV] Hbody. unfold body in Hbody.
    destruct (mapM _ y.2.1) as [value|]; [|done]. cbn [mbind option_bind] in Hbody.
    split; [apply assign_columns_length in Hbody; lia|].
    apply Forall_forall. intros row' Hrow'.
    apply list_elem_of_lookup in Hrow' as [c Hc].
    destruct (lookup_lt_is_Some_2 rc c) as [row Hrow].
    { rewrite <- (assign_columns_length _ _ _ _ _ _ Hbody).
      by eapply lookup_lt_Some. }
    destruct (assign_columns_row _ _ _ _ _ _ _ Hbody Hrow)
      as (js & value' & val & vs & _ & _ & _ & _ & Hrow').
    simplify_eq. rewrite length_apply_writes.
    rewrite Forall_forall in HrcV. apply HrcV. by eapply list_elem_of_lookup_2. }
  assert (Inv (replicate B (zeros V))) as Hinit.
  { split; [apply length_replicate|]. apply Forall_forall. intros row Hrow.
    apply elem_of_replicate in Hrow as [-> _]. apply length_replicate. }
  assert (p < P) as HpP.
  { rewrite Forall_forall in Hrect.
    rewrite <- (Hrect s (list_elem_of_lookup_2 _ _ _ Hs)).
    by eapply lookup_lt_Some. }
  destruct (lookup_lt_is_Some_2 (permute_1_0_2 fmri_data) p) as [betas Hbetas].
  { rewrite (permute_1_0_2_length P); [done| |done]. intros Hnil.
    by rewrite Hnil in Hs. }
  pose proof (permute_1_0_2_lookup P _ _ _ Hrect Hbetas) as Hcol.
  destruct (Forall2_lookup_l _ _ _ _ _ Hcol Hs) as (slots' & Hbslots & Hsp).
  simplify_eq.
  set (items := zip (parcels dataset)
                    (zip (permute_1_0_2 fmri_data) (mask dataset))) in *.
  assert (items !! p = Some (idxs, (betas, m))) as Hitem.
  { apply lookup_zip_with_Some. exists idxs, (betas, m).
    split; [done|]. split; [done|].
    apply lookup_zip_with_Some. by exists betas, m. }
  unfold unwrap_loop in Hloop. fold items in Hloop. fold body in Hloop.
  rewrite <- (take_drop_middle items p _ Hitem), foldlM_app in Hloop.
  destruct (foldlM body _ (take p items)) as [recon1|] eqn:Hpre; [|done].
  cbn [mbind option_bind foldlM] in Hloop.
  destruct (body recon1 (idxs, (betas, m))) as [recon2|] eqn:Hat; [|done].
  cbn [mbind option_bind] in Hloop.
  pose proof (foldlM_invariant _ Inv _ _ _ Hstep Hinit Hpre) as [Hrc1B Hrc1V].
  assert (entry recon2 b v = Some x) as Hentry2.
  { unfold body in Hat. cbn [fst snd] in Hat.
    destruct (mapM _ betas) as [value|] eqn:Hvalue; [|done].
    cbn [mbind option_bind] in Hat.
    destruct (lookup_lt_is_Some_2 recon1 b) as [row Hrow].
    { rewrite Hrc1B. by eapply lookup_lt_Some. }
    destruct (assign_columns_row _ _ _ _ _ _ _ Hat Hrow)
      as (js & value' & val & vs & Hjs & Hbc & Hval & Hvs & Hrow2).
    apply mapM_Some in Hvalue.
    assert (value' = value) as ->.
    { rewrite broadcast_to_same in Hbc; [by injection Hbc|].
      rewrite <- (Forall2_length _ _ _ Hvalue), <- (Forall2_length _ _ _ Hcol).
      done. }
    destruct (Forall2_lookup_l _ _ _ _ _ Hvalue Hbslots) as (val' & Hval' & Hsel').
    simplify_eq. rewrite broadcast_to_same in Hvs by done.
    injection Hvs as <-. unfold entry. rewrite Hrow2. simpl.
    apply mapM_Some in Hjs.
    destruct (Forall2_lookup_l _ _ _ _ _ Hjs Hi) as (j & Hj & Hnorm).
    simplify_eq.
    assert (zip js val !! k = Some (v, x)) as Hw.
    { apply lookup_zip_with_Some. by exists v, x. }
    rewrite <- (take_drop_middle _ _ _ Hw).
    apply apply_writes_lookup_last.
    - rewrite Forall_forall in Hrc1V.
      rewrite (Hrc1V row (list_elem_of_lookup_2 _ _ _ Hrow)).
      by eapply norm_index_lt.
    - intros [j y] Hjy Hjv. simpl in Hjv. subst j. apply list_elem_of_lookup in Hjy as [c Hc].
      rewrite lookup_drop in Hc.
      apply lookup_zip_with_Some in Hc as (? & ? & [= <- <-] & Hjc & _).
      destruct (Forall2_lookup_r _ _ _ _ _ Hjs Hjc) as (i' & Hi' & Hnorm').
      specialize (Honce _ _ Hi' Hnorm'). lia. }
  assert (entry recon b v = Some x) as Hentry.
  { revert Hloop.
    apply (foldlM_invariant_in body (λ rc, entry rc b v = Some x)); [|done].
    intros rc y rc' Hy Hrc Hbody.
    apply list_elem_of_lookup in Hy as [c Hc]. rewrite lookup_drop in Hc.
    destruct y as [idxs' [betas' m']].
    apply lookup_zip_with_Some in Hc as (? & ? & [= <- <-] & Hidxs' & _).
    unfold body in Hbody. cbn [fst snd] in Hbody.
    destruct (mapM _ betas') as [value|]; [|done].
    cbn [mbind option_bind] in Hbody.
    unfold entry in Hrc. destruct (rc !! b) as [row|] eqn:Hrow; [|done].
    destruct (assign_columns_row _ _ _ _ _ _ _ Hbody Hrow)
      as (js & value' & val & vs & Hjs & _ & _ & _ & Hrow').
    unfold entry. rewrite Hrow'. simpl. simpl in Hrc. rewrite <- Hrc.
    apply apply_writes_lookup_other. intros [j y] Hjy Hjv. simpl in Hjv. subst j.
    apply elem_of_zip_l in Hjy. simpl in Hjy.
    apply mapM_Some in Hjs. apply list_elem_of_lookup in Hjy as [c' Hc'].
    destruct (Forall2_lookup_r _ _ _ _ _ Hjs Hc') as (i' & Hi' & Hnorm').
    apply (Hlater (S p + c) idxs' i'); [lia|done| |done].
    by eapply list_elem_of_lookup_2. }
  assert (Inv recon) as [HrcB HrcV].
  { eapply (foldlM_invariant _ Inv); [done| |done].
    by eapply (Hstep recon1 (idxs, (betas, m))). }
  unfold entry in Hentry. destruct (recon !! b) as [row|] eqn:Hrow; [|done].
  simpl in Hentry. exists row.
  assert (length row = V) as HrowV.
  { rewrite Forall_forall in HrcV. apply HrcV. by eapply list_elem_of_lookup_2. }
  split; [|done].
  destruct (Forall2_lookup_l _ _ _ _ _ Hr Hrow) as (out & Hout & Hselout).
  rewrite select_mask_labels in Hselout by done. by simplify_eq.
Qed.

End UnwrapExtras.

(** * Further properties of the training and evaluation loops *)

Lemma optimizer_steps_app (t t' : list event) :
  optimizer_steps (t ++ t') = optimizer_steps t + optimizer_steps t'.
Proof. unfold optimizer_steps. by rewrite omap_app, length_app. Qed.

Lemma length_reports (epoch : Z) (len base : nat) (ms : list (pyfloat * pyfloat)) :
  length (reports epoch len base ms) = length ms / print_freq.
Proof. unfold reports. by rewrite length_fmap, length_seq. Qed.

Lemma vstack_Some {F : Type} `{Scalar F} (tensors : list (list (list F)))
    (out : list (list F)) :
  vstack tensors = Some out → tensors ≠ [] ∧ out = concat tensors.
Proof.
  unfold vstack. destruct tensors as [|t ts]; [done|].
  destruct (concat (t :: ts)) as [|r rows]; [by intros [= <-]|].
  destruct (forallb _ rows); [|done]. by intros [= <-].
Qed.

Lemma length_concat_sum {A : Type} (ls : list (list A)) :
  length (concat ls) = sum_list (length <$> ls).
Proof. induction ls as [|l ls IH]; [done|]. csimpl. rewrite length_app. lia. Qed.

Lemma unwrap_fmri_rows {F : Type} `{Scalar F} (batch_size : nat)
    (fmri_data : list (list (list F))) (dataset : Dataset) (metaparcel_idx : Z)
    (r : list (list F)) :
  unwrap_fmri batch_size fmri_data dataset metaparcel_idx = Some r →
  length r = batch_size.
Proof.
  unfold unwrap_fmri. intros Hr.
  destruct (labels_col0 dataset) as [lbl|]; [|done]. cbn [mbind option_bind] in Hr.
  destruct (unwrap_loop _ _ _ _ _ _) as [recon|] eqn:Hloop; [|done].
  cbn [mbind option_bind] in Hr. apply mapM_Some, Forall2_length in Hr.
  apply unwrap_loop_length in Hloop. lia.
Qed.

Section EngineExtras.
Context {F : Type} `{Scalar F}.
Context {Imgs Model Optimizer Grads : Type}.
Variable forward : bool → Model → Imgs → list (list (list F)).
Variable criterion : list (list (list F)) → list (list (list F)) → pyfloat.
Variable zero_grad : Grads → Grads.
Variable backward : Model → Imgs → list (list (list F)) → nat → Grads → Grads.
Variable clip_grad_norm_ : pyfloat → Grads → Grads.
Variable optimizer_step : Optimizer → Model → Grads → Optimizer * Model.
Variable learning_rate : Optimizer → pyfloat.
Variable corrcoef_0_1 : list (list F) → pyfloat.

Abbreviation World := (@world Model Optimizer Grads).
Abbreviation Batch := (Imgs * list (list (list F)))%type.
Abbreviation train_step' :=
  (train_step forward criterion zero_grad backward clip_grad_norm_
              optimizer_step learning_rate corrcoef_0_1).
Abbreviation train_one_epoch' :=
  (train_one_epoch forward criterion zero_grad backward clip_grad_norm_
                   optimizer_step learning_rate corrcoef_0_1).
Abbreviation step_metrics' :=
  (step_metrics forward criterion zero_grad backward clip_grad_norm_
                optimizer_step learning_rate corrcoef_0_1).
Abbreviation step_loss' := (step_loss forward criterion).
Abbreviation step_corr' := (step_corr forward corrcoef_0_1).
Abbreviation updated_world' :=
  (updated_world forward criterion zero_grad backward clip_grad_norm_
                 optimizer_step learning_rate).
Abbreviation evaluate_step' := (evaluate_step forward criterion).
Abbreviation evaluate' := (evaluate forward criterion).
Abbreviation eval_pred' := (eval_pred forward).

Lemma kept_with_events (w0 w : World) (evs : list event) :
  kept_by_evaluation w0 w → Forall eval_event evs →
  kept_by_evaluation w0 (with_events w evs).
Proof.
  intros (Hm & Ho & Hg & Ht & Hge & evs0 & Htr & Hall) Hevs.
  repeat split; try done. exists (evs0 ++ evs). simpl.
  rewrite Htr, <- app_assoc. split; [done|]. by apply Forall_app.
Qed.

Lemma evaluate_loop_keeps (args : Args) (dataset : Dataset) (n : nat)
    (w0 : World) (batches : list Batch) :
  ∀ (acc : list (list (list F)) * list (list (list F))) (i : nat) (w : World),
    kept_by_evaluation w0 w →
    let rw := for_enumerate (evaluate_step' args dataset n) acc i batches w in
    kept_by_evaluation w0 rw.2 ∧ ∀ code, rw.1 ≠ SysExit code.
Proof.
  induction batches as [|batch batches IH]; intros acc i w Hw; [done|].
  cbn [for_enumerate]. unfold mbind, M_bind, bind.
  rewrite evaluate_step_cases.
  destruct Hw as (Hm & Ho & Hg & Ht & Hge & Hevs).
  assert (kept_by_evaluation w0 w) as Hw by done.
  destruct (eval_pred' args dataset w batch) as [pred|].
  - destruct (eval_target args dataset batch) as [y|].
    + apply IH, kept_with_events; [done|]. rewrite Ht, Hge.
      by repeat constructor.
    + split; [|done]. apply kept_with_events; [done|]. rewrite Ht, Hge.
      by repeat constructor.
  - split; [|done]. apply kept_with_events; [done|]. rewrite Ht, Hge.
    by repeat constructor.
Qed.

(** X13.  However [evaluate] ends, by returning or by raising, it leaves the
    model, the optimizer and the gradients as they were and the gradient
    mode as the caller had it, and the model in evaluation mode; it never
    exits the process.  Everything it did on the way ran without a backward
    pass, a clipping, an optimizer step or a report to wandb, every forward
    pass in evaluation mode with gradients disabled. *)
Theorem evaluate_leaves_state (args : Args) (data_loader : list Batch)
    (dataset : Dataset) (w0 : World) :
  let rw := evaluate' args data_loader dataset w0 in
  model rw.2 = model w0 ∧ optimizer rw.2 = optimizer w0 ∧
  grads rw.2 = grads w0 ∧ grad_enabled rw.2 = grad_enabled w0 ∧
  training rw.2 = false ∧
  (∀ code, rw.1 ≠ SysExit code) ∧
  ∃ evs, trace rw.2 = trace w0 ++ evs ∧ Forall eval_event evs.
Proof.
  intros rw. unfold rw. rewrite evaluate_cases. cbn zeta.
  assert (kept_by_evaluation w0 (eval_world w0)) as Hstart.
  { repeat split. exists [EvMaskSum]. split; [done|]. by repeat constructor. }
  destruct (evaluate_loop_keeps args dataset (mask_sum (mask dataset)) w0
              data_loader ([], []) 0 (eval_world w0) Hstart) as [Hkept Hexit].
  destruct (for_enumerate _ _ _ _ _) as [[acc|code|] w1]; cbn [fst snd] in *.
  - assert (kept_by_evaluation w0
              (with_events w1 [EvSynchronize; EvPrint AveragedStats]))
      as (Hm & Ho & Hg & Ht & Hge & Hevs).
    { apply kept_with_events; [done|]. by repeat constructor. }
    destruct (vstack acc.2) as [ys|]; [destruct (vstack acc.1) as [preds|]|];
      done.
  - by destruct (Hexit code).
  - by destruct Hkept as (Hm & Ho & Hg & Ht & Hge & Hevs).
Qed.

Lemma wandb_logs_app (t t' : list event) :
  wandb_logs (t ++ t') = wandb_logs t ++ wandb_logs t'.
Proof. unfold wandb_logs. by rewrite omap_app. Qed.

Lemma train_loop_counts (args : Args) (dataset : Dataset) (epoch : Z)
    (max_norm : pyfloat) (n len : nat) (batches : list Batch) :
  ∀ (i : nat) (acc acc' : pyfloat * pyfloat) (w w' : World),
    for_enumerate (train_step' args dataset epoch max_norm n len)
                  acc i batches w = (Returned acc', w') →
    training w' = training w ∧ grad_enabled w' = grad_enabled w ∧
    ∃ evs, trace w' = trace w ++ evs ∧
           optimizer_steps evs = length batches ∧
           Forall (forward_in_mode (training w) (grad_enabled w)) evs.
Proof.
  induction batches as [|batch batches IH]; intros i acc acc' w w' Hrun.
  - injection Hrun as <- <-. repeat split. exists []. by rewrite app_nil_r.
  - cbn [for_enumerate] in Hrun. unfold mbind, M_bind, bind in Hrun.
    destruct (train_step' args dataset epoch max_norm n len acc i batch w)
      as [[acc1| |] w1] eqn:Hstep; [|done..].
    destruct (IH _ _ _ _ _ Hrun) as (Ht & Hg & evs & Htr & Hsteps & Hmode).
    apply train_step_Returned in Hstep as (c & _ & _ & Hw1). cbn zeta in Hw1.
    assert (∃ tail, w1 = with_events (updated_world' max_norm n w batch) tail ∧
                    optimizer_steps tail = 0 ∧
                    Forall (forward_in_mode (training w) (grad_enabled w)) tail)
      as (tail & -> & Htail & Hmtail).
    { destruct (_ =? _); destruct Hw1 as [_ ->].
      - eexists. split; [done|]. split; [done|]. by repeat constructor.
      - exists []. by rewrite with_events_nil. }
    split; [done|]. split; [done|].
    exists (update_events forward criterion zero_grad backward clip_grad_norm_
              optimizer_step learning_rate max_norm n w batch ++ tail ++ evs).
    split; [|split].
    + rewrite Htr. unfold with_events, updated_world. cbn [trace].
      by rewrite <- !app_assoc.
    + rewrite !optimizer_steps_app, Htail, Hsteps. unfold update_events.
      rewrite !optimizer_steps_app. by destruct (pf_gt0 max_norm).
    + apply Forall_app. split; [|by apply Forall_app].
      unfold update_events. destruct (pf_gt0 max_norm); by repeat constructor.
Qed.

(** X14.  An epoch of [train_one_epoch] that runs to its end has taken one
    optimizer step per batch and made one report to wandb per full window
    of [print_freq] batches, so that the last [len mod print_freq] steps of
    an epoch are never reported; every forward pass ran in training mode,
    in the gradient mode of the caller, and the model is left in training
    mode. *)
Theorem train_one_epoch_full_run (args : Args) (data_loader : list Batch)
    (epoch : Z) (dataset : Dataset) (max_norm : pyfloat) (w0 w' : World) :
  train_one_epoch' args data_loader epoch dataset max_norm w0
  = (Returned (), w') →
  training w' = true ∧ grad_enabled w' = grad_enabled w0 ∧
  ∃ evs, trace w' = trace w0 ++ evs ∧
         optimizer_steps evs = length data_loader ∧
         length (wandb_logs evs) = length data_loader / print_freq ∧
         Forall (forward_in_mode true (grad_enabled w0)) evs.
Proof.
  rewrite train_one_epoch_cases.
  destruct (for_enumerate _ _ _ _ _) as [[acc| |] w1] eqn:Hrun; [|done..].
  intros [= <-].
  destruct (train_loop_counts _ _ _ _ _ _ _ _ _ _ _ _ Hrun)
    as (Ht & Hg & evs & Htr & Hsteps & Hmode).
  destruct (train_loop_reports forward criterion zero_grad backward
              clip_grad_norm_ optimizer_step learning_rate corrcoef_0_1
              args dataset epoch max_norm (mask_sum (mask dataset))
              (length data_loader) data_loader 0 (Fin 0, Fin 0) acc []
              (train_world w0) w1)
    as (Hlen & Hlogs & _ & _);
    [cbn [length]; unfold print_freq; lia|cbn [length]; lia|done..|].
  cbn [app] in Hlogs. rewrite Htr, wandb_logs_app in Hlogs.
  apply app_inv_head in Hlogs.
  split; [done|]. split; [done|].
  exists (EvMaskSum :: evs ++ [EvSynchronize; EvPrint AveragedStats]).
  split; [|split; [|split]].
  - simpl. rewrite Htr. simpl. by rewrite <- !app_assoc.
  - change (EvMaskSum :: evs ++ [EvSynchronize; EvPrint AveragedStats])
      with ([EvMaskSum] ++ evs ++ [EvSynchronize; EvPrint AveragedStats]).
    rewrite !optimizer_steps_app, Hsteps.
    change (optimizer_steps [EvMaskSum]) with 0.
    change (optimizer_steps [EvSynchronize; EvPrint AveragedStats]) with 0.
    lia.
  - change (EvMaskSum :: evs ++ [EvSynchronize; EvPrint AveragedStats])
      with ([EvMaskSum] ++ evs ++ [EvSynchronize; EvPrint AveragedStats]).
    rewrite !wandb_logs_app, Hlogs, !length_app, length_reports, Hlen.
    change (length (wandb_logs [EvMaskSum])) with 0.
    change (length (wandb_logs [EvSynchronize; EvPrint AveragedStats])) with 0.
    lia.
  - constructor; [done|]. apply Forall_app. split; [done|].
    by repeat constructor.
Qed.

(** X15.  The reconstruction of a batch comes after its optimizer step:
    when it raises (a shape mismatch, an index out of range), the epoch
    ends with the exception after the parameters were updated on that
    batch, and the step is not reported to wandb. *)
Theorem train_raises_after_update (args : Args) (dataset : Dataset)
    (epoch : Z) (max_norm : pyfloat) (pre rest : list Batch) (batch : Batch)
    (acc : pyfloat * pyfloat) (w0 w : World) :
  let data_loader := pre ++ batch :: rest in
  let n := mask_sum (mask dataset) in
  let w1 := updated_world' max_norm n w batch in
  for_enumerate (train_step' args dataset epoch max_norm n (length data_loader))
                (Fin 0, Fin 0) 0 pre (train_world w0)
  = (Returned acc, w) →
  isfinite (step_loss' n w batch) = true →
  step_corr' args dataset w batch = None →
  train_one_epoch' args data_loader epoch dataset max_norm w0 = (Raised, w1) ∧
  (optimizer w1, model w1)
  = optimizer_step (optimizer w) (model w)
      (step_grads zero_grad backward clip_grad_norm_ max_norm n w batch) ∧
  optimizer_steps (trace w1) = optimizer_steps (trace w) + 1 ∧
  wandb_logs (trace w1) = wandb_logs (trace w).
Proof.
  intros data_loader n w1 Hpre Hfin Hcorr. split; [|split; [|split]].
  - rewrite train_one_epoch_cases. fold n. unfold data_loader at 2.
    rewrite for_enumerate_app. fold data_loader. rewrite Hpre.
    cbn [for_enumerate]. unfold mbind, M_bind, bind.
    rewrite train_step_cases. cbn zeta. fold n. by rewrite Hfin, Hcorr.
  - unfold w1, updated_world. cbn [optimizer model].
    by destruct (optimizer_step _ _ _).
  - unfold w1, updated_world. cbn [trace].
    rewrite optimizer_steps_app. f_equal. unfold update_events.
    rewrite !optimizer_steps_app. by destruct (pf_gt0 max_norm).
  - apply wandb_logs_updated.
Qed.

(** X16.  The two tensors [evaluate] returns have one row per sample of the
    run, the targets as many as the target batches hold and the predictions
    as many as the model put out, and every row has one entry per voxel
    labelled [metaparcel_idx]; the data source was not empty. *)
Theorem evaluate_output_shape (args : Args) (data_loader : list Batch)
    (dataset : Dataset) (w0 w' : World) (ys preds : list (list F)) :
  evaluate' args data_loader dataset w0 = (Returned (ys, preds), w') →
  data_loader ≠ [] ∧
  length ys = sum_list ((λ batch : Batch, length batch.2) <$> data_loader) ∧
  length preds
  = sum_list ((λ batch : Batch, length (forward false (model w0) batch.1))
              <$> data_loader) ∧
  Forall (λ row, length row = subset_size dataset (metaparcel_idx args)) ys ∧
  Forall (λ row, length row = subset_size dataset (metaparcel_idx args)) preds.
Proof.
  rewrite evaluate_cases. cbn zeta.
  destruct (for_enumerate _ _ _ _ _) as [[acc| |] w1] eqn:Hrun; [|done..].
  destruct (evaluate_loop_Returned _ _ _ _ _ _ _ _ _ _ _ Hrun)
    as (ps & ts & Hps & Hts).
  rewrite (evaluate_loop _ _ _ _ _ _ _ _ _ ps ts Hps Hts) in Hrun.
  injection Hrun as <- <-. cbn [fst snd app].
  destruct (vstack ts) as [ys'|] eqn:Hys; [|done].
  destruct (vstack ps) as [preds'|] eqn:Hpreds; [|done].
  intros [= <- <- <-].
  apply vstack_Some in Hys as [Hne ->]. apply vstack_Some in Hpreds as [_ ->].
  apply mapM_Some in Hps, Hts.
  split; [intros ->; by apply Forall2_nil_inv_l in Hts|].
  split; [|split; [|split]].
  - rewrite length_concat_sum. f_equal.
    apply list_eq_same_length with (length data_loader);
      [by rewrite length_fmap
      |by rewrite length_fmap, <- (Forall2_length _ _ _ Hts)|].
    intros k a b Hk Ha Hb.
    apply list_lookup_fmap_Some in Ha as (t & -> & Ht).
    apply list_lookup_fmap_Some in Hb as (batch & -> & Hbatch).
    destruct (Forall2_lookup_l _ _ _ _ _ Hts Hbatch) as (t' & Ht' & Hun).
    simplify_eq. by apply unwrap_fmri_rows in Hun.
  - rewrite length_concat_sum. f_equal.
    apply list_eq_same_length with (length data_loader);
      [by rewrite length_fmap
      |by rewrite length_fmap, <- (Forall2_length _ _ _ Hps)|].
    intros k a b Hk Ha Hb.
    apply list_lookup_fmap_Some in Ha as (t & -> & Ht).
    apply list_lookup_fmap_Some in Hb as (batch & -> & Hbatch).
    destruct (Forall2_lookup_l _ _ _ _ _ Hps Hbatch) as (t' & Ht' & Hun).
    simplify_eq. unfold eval_pred in Hun. cbn [training model eval_world] in Hun.
    by apply unwrap_fmri_rows in Hun.
  - apply Forall_concat, Forall_forall. intros t Ht.
    apply list_elem_of_lookup in Ht as [k Hk].
    destruct (Forall2_lookup_r _ _ _ _ _ Hts Hk) as (batch & _ & Hun).
    by eapply unwrap_fmri_width.
  - apply Forall_concat, Forall_forall. intros t Ht.
    apply list_elem_of_lookup in Ht as [k Hk].
    destruct (Forall2_lookup_r _ _ _ _ _ Hps Hk) as (batch & _ & Hun).
    by eapply unwrap_fmri_width.
Qed.

End EngineExtras.

(** * [brain_encoder.forward] and [engine.test] *)

Lemma transpose_fmap_rows_all {A B C : Type} (g : A → B → C) (k : list B)
    (l : list A) :
  transpose (length k) ((λ row, g row <$> k) <$> l)
  = (λ y, (λ row, g row y) <$> l) <$> k.
Proof.
  destruct l as [|x l]; [|apply transpose_fmap_rows].
  simpl. apply replicate_length_fmap.
Qed.

Lemma transpose_seq_rows {A C : Type} (g : A → nat → C) (n : nat) (l : list A) :
  transpose n ((λ row, g row <$> seq 0 n) <$> l)
  = (λ y, (λ row, g row y) <$> l) <$> seq 0 n.
Proof.
  pose proof (transpose_fmap_rows_all g (seq 0 n) l) as Heq.
  by rewrite length_seq in Heq.
Qed.

Lemma replicate_as_fmap_seq {A : Type} (n : nat) (x : A) :
  replicate n x = (λ _, x) <$> seq 0 n.
Proof.
  pose proof (replicate_length_fmap (seq 0 n) x) as Heq.
  by rewrite length_seq in Heq.
Qed.

Section ForwardExtras.
Context {F : Type} `{Scalar F}.

Lemma row_as_gather (V : nat) (r : list F) :
  length r = V → r = gather r <$> seq 0 V.
Proof.
  intros <-. apply list_eq_same_length with (length r);
    [by rewrite length_fmap, length_seq|done|].
  intros j x y Hj Hx Hy.
  rewrite list_lookup_fmap, lookup_seq_lt in Hy by done.
  simpl in Hy. unfold gather in Hy. rewrite Hx in Hy. by simplify_eq/=.
Qed.

(** Tiling the ROI masks along the batch and exchanging the outer axes
    gives every sample the same voxel-by-ROI matrix. *)
Lemma roi_mask_tiled (V B : nat) (rois : list (list F)) :
  Forall (λ r, length r = V) rois →
  permute_2_1_0 V B (tile_batch B rois)
  = replicate B ((λ j, (λ r : list F, gather r j) <$> rois) <$> seq 0 V).
Proof.
  intros Hrect. unfold permute_2_1_0, tile_batch.
  assert ((λ r : list F, (λ x, replicate B x) <$> r) <$> rois
          = (λ r : list F, (λ j, replicate B (gather r j)) <$> seq 0 V) <$> rois)
    as ->.
  { apply Forall_fmap_ext. eapply Forall_impl; [exact Hrect|].
    intros r Hr. simpl. rewrite (row_as_gather V r Hr) at 1.
    by rewrite <- list_fmap_compose. }
  rewrite (transpose_seq_rows (λ (r : list F) j, replicate B (gather r j))).
  rewrite <- list_fmap_compose.
  assert ((transpose B ∘ (λ y, (λ row : list F, replicate B (gather row y)) <$> rois))
          <$> seq 0 V
          = (λ j, (λ _ : nat, (λ r : list F, gather r j) <$> rois) <$> seq 0 B)
            <$> seq 0 V) as ->.
  { apply list_fmap_ext. intros _ j _. unfold compose.
    assert ((λ row : list F, replicate B (gather row j)) <$> rois
            = (λ row : list F, (λ _ : nat, gather row j) <$> seq 0 B) <$> rois)
      as ->.
    { apply list_fmap_ext. intros _ r _. apply replicate_as_fmap_seq. }
    by rewrite (transpose_seq_rows (λ (row : list F) (_ : nat), gather row j)). }
  rewrite (transpose_seq_rows
             (λ (j : nat) (_ : nat), (λ r : list F, gather r j) <$> rois)).
  by rewrite replicate_as_fmap_seq.
Qed.

(** X19.  The ROI aggregation of [test] weights, for every sample and
    voxel, the ROI channels of the prediction by the ROI masks at that voxel
    and adds them up: the value at sample [b] and voxel [v] is the sum over
    the ROIs [r] of [rois[r][v] * f_pred[b][v][r]]. *)
Theorem roi_sum_weights_channels (V : nat) (rois : list (list F))
    (f_pred : list (list (list F))) :
  rois ≠ [] → Forall (λ r, length r = V) rois →
  Forall (λ s, length s = V ∧ Forall (λ row : list F, length row = length rois) s)
         f_pred →
  ∃ out,
    roi_sum rois f_pred = Some out ∧
    length out = length f_pred ∧
    Forall (λ o, length o = V) out ∧
    ∀ b v s row col,
      f_pred !! b = Some s → s !! v = Some row → column rois v = Some col →
      entry out b v = Some (dot col row).
Proof.
  intros Hne Hrect Hpred. unfold roi_sum.
  assert (match rois with [] => 0 | r :: _ => length r end = V) as ->.
  { destruct rois as [|r rois]; [done|]. by apply Forall_inv in Hrect. }
  rewrite (roi_mask_tiled V _ rois Hrect).
  set (Mt := (λ j, (λ r : list F, gather r j) <$> rois) <$> seq 0 V).
  assert (∀ s, s ∈ f_pred → bmul2 Mt s = Some (zip_with (zip_with fmul) Mt s))
    as Hmul.
  { intros s Hs. rewrite Forall_forall in Hpred.
    destruct (Hpred s Hs) as [HsV Hrows]. apply bmul2_same_shape.
    apply Forall2_same_length_lookup. split.
    - unfold Mt. by rewrite length_fmap, length_seq.
    - intros v a row Ha Hrow. unfold Mt in Ha.
      apply list_lookup_fmap_Some in Ha as (j & -> & _).
      rewrite Forall_forall in Hrows. rewrite length_fmap. symmetry.
      apply Hrows. by eapply list_elem_of_lookup_2. }
  assert (bmul3 (replicate (length f_pred) Mt) f_pred
          = Some (zip_with (zip_with fmul) Mt <$> f_pred)) as ->.
  { unfold bmul3. rewrite length_replicate, Nat.eqb_refl. apply mapM_Some.
    apply Forall2_same_length_lookup. split.
    - rewrite length_zip, length_replicate, length_fmap. lia.
    - intros b [m s] y Hms Hy.
      apply lookup_zip_with_Some in Hms as (? & ? & [= <- <-] & Hm & Hs).
      apply lookup_replicate in Hm as [-> _].
      rewrite list_lookup_fmap, Hs in Hy. injection Hy as <-. cbn [fst snd].
      apply Hmul. by eapply list_elem_of_lookup_2. }
  cbn [mbind option_bind]. eexists. split; [done|].
  split; [by rewrite !length_fmap|]. split.
  - apply Forall_forall. intros o Ho.
    apply list_elem_of_fmap in Ho as (x & -> & Hx).
    apply list_elem_of_fmap in Hx as (s & -> & Hs).
    rewrite Forall_forall in Hpred. destruct (Hpred s Hs) as [HsV _].
    rewrite length_fmap, length_zip_with. unfold Mt.
    rewrite length_fmap, length_seq. lia.
  - intros b v s row col Hs Hrow Hcol. unfold entry.
    rewrite !list_lookup_fmap, Hs. simpl.
    rewrite list_lookup_fmap, lookup_zip_with, Hrow.
    assert (v < V) as Hv.
    { rewrite Forall_forall in Hpred.
      destruct (Hpred s (list_elem_of_lookup_2 _ _ _ Hs)) as [<- _].
      by eapply lookup_lt_Some. }
    unfold Mt. rewrite list_lookup_fmap, lookup_seq_lt by done. simpl.
    unfold dot. do 3 f_equal. unfold column in Hcol. apply mapM_Some in Hcol.
    apply list_eq_same_length with (length rois);
      [by rewrite <- (Forall2_length _ _ _ Hcol)|by rewrite length_fmap|].
    intros r x y Hr Hx Hy.
    apply list_lookup_fmap_Some in Hx as (roi & -> & Hroi).
    destruct (Forall2_lookup_l _ _ _ _ _ Hcol Hroi) as (y' & Hy' & Hlook).
    unfold gather. rewrite Hlook. by simplify_eq/=.
Qed.

End ForwardExtras.

Section ForwardTest.
Context {F : Type} `{Scalar F}.
Context {Raw Img Nested Feature Src PadMask Pos : Type}.
Variable cuda_tuple : Raw → option (list Img).
Variable nested_tensor_from_tensor_list : list Img → option Nested.
Variable backbone_model : bool → Nested → option (list Feature * list Pos).
Variable decompose : Feature → Src * PadMask.
Variable shape : Pos → list nat.
Variable transformer :
  bool → Src → PadMask → list (list F) → Pos → bool →
  option (list (list (list (list F)))).

Abbreviation forward' :=
  (brain_encoder_forward nested_tensor_from_tensor_list backbone_model
                         decompose shape transformer).

(** What [forward] returns is the dictionary with the single key "pred",
    holding the readout of the tokens of the last decoder layer. *)
Lemma forward_Some (self : brain_encoder_module F) (grad_enabled : bool)
    (samples : Samples (list Img) Nested) (out : list (string * ndarray F)) :
  forward' self grad_enabled samples = Some out →
  ∃ output_tokens pred,
    readout (readout_fields self) output_tokens = Some pred ∧
    out = [("pred"%string, Arr2 pred)].
Proof.
  unfold brain_encoder_forward. intros Hout.
  destruct (match samples with SamplesNested n => _ | SamplesPlain p => _ end)
    as [nested|]; [|done]. cbn [mbind option_bind] in Hout.
  destruct (backbone_model _ nested) as [fp|]; [|done].
  cbn [mbind option_bind] in Hout.
  destruct (last fp.1) as [feature|]; [|done]. cbn [mbind option_bind] in Hout.
  destruct (last fp.2) as [pos_embed|]; [|done]. cbn [mbind option_bind] in Hout.
  destruct (shape pos_embed) as [|? [|? [|h [|w [|??]]]]]; try done.
  destruct (transformer _ _ _ _ _ _) as [hs|]; [|done].
  cbn [mbind option_bind] in Hout.
  destruct (last hs) as [output_tokens|]; [|done].
  cbn [mbind option_bind] in Hout.
  destruct (readout _ output_tokens) as [pred|] eqn:Hpred; [|done].
  injection Hout as <-. by exists output_tokens, pred.
Qed.

(** X17.  Whenever [brain_encoder.forward] returns, on a model built by
    [brain_encoder.__init__], its value is a dictionary with the single key
    "pred"; the tensor under it has one entry per voxel in every row, and no
    other key can be read from the dictionary. *)
Theorem forward_returns_pred_only `{!ExactScalar F} (d_model : nat)
    (new_linear : nat → nat → Linear F) (dataset : Dataset)
    (self : brain_encoder_module F) (grad_enabled : bool)
    (samples : Samples (list Img) Nested) (out : list (string * ndarray F)) :
  (∀ i o, in_features (new_linear i o) = i ∧ out_features (new_linear i o) = o ∧
          Linear_shape (new_linear i o)) →
  brain_encoder_init d_model new_linear dataset = Some (readout_fields self) →
  forward' self grad_enabled samples = Some out →
  ∃ pred,
    out = [("pred"%string, Arr2 pred)] ∧
    Forall (λ row, length row = num_hemi_voxels dataset) pred ∧
    dict_get out "pred" = Some (Arr2 pred) ∧
    ∀ key, key ≠ "pred"%string → dict_get out key = None.
Proof.
  intros Hnew Hinit Hout.
  destruct (forward_Some _ _ _ _ Hout) as (output_tokens & pred & Hpred & ->).
  destruct (brain_encoder_init_Some _ _ _ _ Hinit) as (Hne & Hin & Hmask & Hembed).
  destruct (Hnew d_model (num_hemi_voxels dataset)) as (Hi & Ho & Hshape).
  rewrite <- Hembed in Hi, Ho, Hshape.
  exists pred. split; [done|]. split; [|split; [done|]].
  - rewrite readout_by_sample in Hpred. apply mapM_Some in Hpred.
    apply Forall_forall. intros row Hrow.
    apply list_elem_of_lookup in Hrow as [b Hb].
    destruct (Forall2_lookup_r _ _ _ _ _ Hpred Hb) as (toks & _ & Hrow).
    by eapply readout_sample_length.
  - intros key Hkey. unfold dict_get. cbn [find fst].
    destruct (String.eqb "pred" key) eqn:Heq; [|done].
    apply String.eqb_eq in Heq. by destruct Hkey.
Qed.

(** X18.  [engine.test] reads the keys "lh_f_pred" and "rh_f_pred" of the
    output of the model, which the dictionary of [brain_encoder.forward]
    does not have: run on [brain_encoder.forward], [test] never returns.
    It raises on the first batch, and on an empty data source it raises in
    [np.vstack]. *)
Theorem test_raises_on_forward (self : brain_encoder_module F)
    (data_loader : list Raw) (readout_res : string) (roi_nums : Z)
    (lh_challenge_rois rh_challenge_rois : list (list F)) :
  let model := λ samples, forward' self false (SamplesNested samples) in
  test cuda_tuple nested_tensor_from_tensor_list model
       data_loader readout_res roi_nums lh_challenge_rois rh_challenge_rois
  = None ∧
  (∀ acc samples,
     test_step cuda_tuple nested_tensor_from_tensor_list model
               readout_res roi_nums lh_challenge_rois rh_challenge_rois
               acc samples = None) ∧
  (∀ samples out, model samples = Some out →
                  dict_get out "lh_f_pred" = None ∧
                  dict_get out "rh_f_pred" = None) ∧
  np_vstack (F:=F) [] = None.
Proof.
  intros model.
  assert (∀ samples out, model samples = Some out →
                         dict_get out "lh_f_pred" = None ∧
                         dict_get out "rh_f_pred" = None) as Hkeys.
  { intros samples out Hout. unfold model in Hout.
    by destruct (forward_Some _ _ _ _ Hout) as (output_tokens & pred & _ & ->). }
  assert (∀ acc samples,
            test_step cuda_tuple nested_tensor_from_tensor_list model
              readout_res roi_nums lh_challenge_rois rh_challenge_rois
              acc samples = None) as Hstep.
  { intros acc samples. unfold test_step.
    destruct (cuda_tuple samples) as [imgs|]; [|done]. cbn [mbind option_bind].
    destruct (nested_tensor_from_tensor_list imgs) as [nested|]; [|done].
    cbn [mbind option_bind].
    destruct (model nested) as [out|] eqn:Hout; [|done].
    cbn [mbind option_bind]. by rewrite (proj1 (Hkeys _ _ Hout)). }
  split; [|done]. unfold test.
  destruct data_loader as [|samples data_loader]; [done|].
  cbn [foldlM]. by rewrite Hstep.
Qed.

End ForwardTest.

(** * [plot_run_results.py] *)

Lemma lines_to_app (t : stream) (w w' : list (stream * string)) :
  lines_to t (w ++ w') = lines_to t w ++ lines_to t w'.
Proof. unfold lines_to. by rewrite omap_app. Qed.

Lemma lines_to_other (t u : stream) (lines : list string) :
  t ≠ u → lines_to t ((u,.) <$> lines) = [].
Proof.
  intros Htu. unfold lines_to. apply omap_none. intros e He.
  apply list_elem_of_fmap in He as (line & -> & _). simpl.
  destruct t as [|i], u as [|j]; try done.
  destruct (i =? j) eqn:Hij; [|done]. apply Nat.eqb_eq in Hij. by subst.
Qed.

(** X20.  [suppress_print] gives [sys.stdout] back as it found it however
    the body ends, by returning, by raising or by exiting, and lets the
    outcome of the body through; what a body prints inside the block goes
    to the discarded buffer, so that the stream [sys.stdout] was bound to
    receives no line. *)
Theorem suppress_print_restores_stdout {A : Type} (body : IO A) (s : io) :
  stdout_created s →
  let inside := {| sys_stdout := StringIO (buffers s);
                   buffers := S (buffers s); written := written s |} in
  sys_stdout (suppress_print body s).2 = sys_stdout s ∧
  (suppress_print body s).1 = (body inside).1 ∧
  (prints_only body →
   lines_to (sys_stdout s) (written (suppress_print body s).2)
   = lines_to (sys_stdout s) (written s)).
Proof.
  intros Hcreated inside. split; [done|]. split; [done|].
  intros Hprints. unfold suppress_print. cbn [snd written]. fold inside.
  destruct (Hprints inside) as [lines ->].
  rewrite lines_to_app, lines_to_other; [by rewrite app_nil_r|].
  unfold inside. cbn [sys_stdout]. unfold stdout_created in Hcreated.
  destruct (sys_stdout s) as [|i]; [done|]. intros [= ->]. lia.
Qed.







Lemma broadcast_to_lookup (n : nat) (l l' : list pyfloat) (i : nat) :
  broadcast_to n l = Some l' → i < n → l' !! i = at_vertex l i.
Proof.
  unfold broadcast_to. intros Hb Hi. destruct (length l =? n) eqn:Hlen.
  - injection Hb as <-. apply Nat.eqb_eq in Hlen.
    destruct l as [|x [|y l]]; [done| |done].
    simpl in Hlen. subst n. by destruct i; [|lia].
  - destruct l as [|x [|y l]]; try done. injection Hb as <-.
    simpl. by apply lookup_replicate_2.
Qed.

Lemma at_vertex_fmap (f : pyfloat → pyfloat) (l : list pyfloat) (i : nat) :
  at_vertex (f <$> l) i = f <$> at_vertex l i.
Proof.
  destruct l as [|x [|y l]]; [done..|].
  change (at_vertex (f <$> x :: y :: l) i) with ((f <$> x :: y :: l) !! i).
  by rewrite list_lookup_fmap.
Qed.

Lemma overflow_not_NaN (threshold q : Qc) : overflow threshold q ≠ NaN.
Proof. unfold overflow. by repeat case_bool_decide. Qed.

Lemma iadd_cleaned (finfo_max : Qc) (acc val acc' : list pyfloat) :
  Forall (λ x, x ≠ NaN) acc →
  iadd acc (nan_to_num finfo_max <$> val) = Some acc' →
  length acc' = length acc ∧ Forall (λ x, x ≠ NaN) acc' ∧
  (length val = length acc ∨ length val = 1) ∧
  ∀ i x, acc !! i = Some x →
    ∃ y, at_vertex val i = Some y ∧
         acc' !! i = Some (np_add x (nan_to_num finfo_max y)).
Proof.
  unfold iadd. intros Hacc Hadd.
  destruct (broadcast_to _ _) as [val'|] eqn:Hb; [|done]. injection Hadd as <-.
  pose proof (broadcast_to_length _ _ _ Hb) as Hlen.
  split; [rewrite length_zip_with; lia|]. split; [|split].
  - apply Forall_forall. intros z Hz.
    apply list_elem_of_lookup in Hz as [i Hi].
    apply lookup_zip_with_Some in Hi as (x & y & -> & Hx & Hy).
    rewrite Forall_forall in Hacc.
    pose proof (Hacc x (list_elem_of_lookup_2 _ _ _ Hx)) as Hfx.
    assert (y ∈ nan_to_num finfo_max <$> val) as Hyv.
    { eapply broadcast_to_elem; [done|]. by eapply list_elem_of_lookup_2. }
    apply list_elem_of_fmap in Hyv as (v & -> & _).
    destruct x as [a|s|]; [| |done].
    + destruct v; apply overflow_not_NaN.
    + by destruct v.
  - unfold broadcast_to in Hb. rewrite length_fmap in Hb.
    destruct (length val =? length acc) eqn:Heq.
    + left. by apply Nat.eqb_eq.
    + right. by destruct val as [|? [|??]].
  - intros i x Hx.
    pose proof (broadcast_to_lookup _ _ _ i Hb (lookup_lt_Some _ _ _ Hx)) as Hi.
    rewrite at_vertex_fmap in Hi.
    destruct (lookup_lt_is_Some_2 val' i) as [z Hz].
    { rewrite Hlen. by eapply lookup_lt_Some. }
    rewrite Hz in Hi. destruct (at_vertex val i) as [y|]; [|done].
    injection Hi as ->. exists y. split; [done|].
    by rewrite lookup_zip_with, Hx, Hz.
Qed.

Section PlotRunResultsExtras.
Variable get_model_dir_args : PlotArgs → string.
Variable np_load : string → string → option (list pyfloat).
Variable finfo_max : Qc.

(** The map of one hemisphere: both maps loaded, with 163842 entries or
    one, and added up vertex by vertex, a NaN counting as zero. *)
Lemma hemi_correlation_Some (avg_or_nonavg hemi : string) (args args' : PlotArgs)
    (m : list pyfloat) :
  hemi_correlation get_model_dir_args np_load finfo_max avg_or_nonavg hemi args
  = Some (m, args') →
  length m = num_vertices ∧ Forall (λ x, x ≠ NaN) m ∧
  args' = {| args_hemi := hemi; args_axis := "anterior";
             args_split := args_split args |} ∧
  ∃ posterior anterior,
    np_load (get_model_dir_args {| args_hemi := hemi; args_axis := "posterior";
                                   args_split := args_split args |})
            (hemi ++ "_" ++ args_split args ++ "_corr_" ++ avg_or_nonavg
             ++ ".npy")%string = Some posterior ∧
    np_load (get_model_dir_args {| args_hemi := hemi; args_axis := "anterior";
                                   args_split := args_split args |})
            (hemi ++ "_" ++ args_split args ++ "_corr_" ++ avg_or_nonavg
             ++ ".npy")%string = Some anterior ∧
    (length posterior = num_vertices ∨ length posterior = 1) ∧
    (length anterior = num_vertices ∨ length anterior = 1) ∧
    ∀ i, i < num_vertices →
      ∃ p a, at_vertex posterior i = Some p ∧ at_vertex anterior i = Some a ∧
             m !! i = Some (np_add (np_add (Fin 0) (nan_to_num finfo_max p))
                                   (nan_to_num finfo_max a)).
Proof.
  unfold hemi_correlation. cbn [foldlM fst snd args_split]. intros Hrun.
  destruct (np_load _ _) as [posterior|] eqn:Hp; [|done].
  cbn [mbind option_bind fst snd args_split] in Hrun.
  destruct (iadd _ (nan_to_num finfo_max <$> posterior)) as [acc1|] eqn:H1;
    [|done].
  cbn [mbind option_bind fst snd args_split] in Hrun.
  destruct (np_load _ _) as [anterior|] eqn:Ha in Hrun; [|done].
  cbn [mbind option_bind fst snd args_split] in Hrun.
  destruct (iadd acc1 (nan_to_num finfo_max <$> anterior)) as [acc2|] eqn:H2;
    [|done].
  injection Hrun as <- <-.
  apply iadd_cleaned in H1 as (Hl1 & Hf1 & Hp1 & He1);
    [|apply Forall_forall; intros x Hx;
      by apply elem_of_replicate in Hx as [-> _]].
  apply iadd_cleaned in H2 as (Hl2 & Hf2 & Hp2 & He2); [|done].
  rewrite length_replicate in Hl1, Hp1. rewrite Hl1 in Hl2, Hp2.
  split; [done|]. split; [done|]. split; [done|].
  exists posterior, anterior. split; [done|]. split; [done|].
  split; [done|]. split; [done|]. intros i Hi.
  destruct (He1 i (Fin 0)) as (p & Hpi & Hacc1);
    [by apply lookup_replicate_2|].
  destruct (He2 i _ Hacc1) as (a & Hai & Hacc2).
  by exists p, a.
Qed.

(** X22.  When [plot_run_results] has its two correlation maps, each is the
    float64 sum, vertex by vertex, of the maps of the posterior and of the
    anterior model of its hemisphere, read from the model directories of
    [args] with [hemi] and [axis] assigned; each loaded map has 163842
    entries (or one, which is broadcast); a NaN in a loaded map counts as
    zero and an infinity as the largest finite value of the dtype of the
    maps, so that no entry of the result is NaN, though the sum of two
    entries may overflow to an infinity; and [args] is left with
    [hemi = "rh"] and [axis = "anterior"] for what follows. *)
Theorem val_correlations_maps (avg_or_nonavg : string) (args args' : PlotArgs)
    (lh rh : list pyfloat) :
  val_correlations get_model_dir_args np_load finfo_max avg_or_nonavg args
  = Some (lh, rh, args') →
  length lh = num_vertices ∧ length rh = num_vertices ∧
  Forall (λ x, x ≠ NaN) lh ∧ Forall (λ x, x ≠ NaN) rh ∧
  args' = {| args_hemi := "rh"; args_axis := "anterior";
             args_split := args_split args |} ∧
  ∀ hemi m, (hemi, m) = ("lh"%string, lh) ∨ (hemi, m) = ("rh"%string, rh) →
    ∃ posterior anterior,
      np_load (get_model_dir_args {| args_hemi := hemi;
                                     args_axis := "posterior";
                                     args_split := args_split args |})
              (hemi ++ "_" ++ args_split args ++ "_corr_" ++ avg_or_nonavg
               ++ ".npy")%string = Some posterior ∧
      np_load (get_model_dir_args {| args_hemi := hemi;
                                     args_axis := "anterior";
                                     args_split := args_split args |})
              (hemi ++ "_" ++ args_split args ++ "_corr_" ++ avg_or_nonavg
               ++ ".npy")%string = Some anterior ∧
      (length posterior = num_vertices ∨ length posterior = 1) ∧
      (length anterior = num_vertices ∨ length anterior = 1) ∧
      ∀ i, i < num_vertices →
        ∃ p a, at_vertex posterior i = Some p ∧ at_vertex anterior i = Some a ∧
               m !! i = Some (np_add (np_add (Fin 0) (nan_to_num finfo_max p))
                                     (nan_to_num finfo_max a)).
Proof.
  unfold val_correlations. intros Hrun.
  destruct (hemi_correlation _ _ _ _ "lh" args) as [[m1 a1]|] eqn:Hlh; [|done].
  cbn [mbind option_bind fst snd] in Hrun.
  destruct (hemi_correlation _ _ _ _ "rh" a1) as [[m2 a2]|] eqn:Hrh; [|done].
  injection Hrun as <- <- <-.
  apply hemi_correlation_Some in Hlh as (Hl1 & Hf1 & -> & Hfiles1).
  apply hemi_correlation_Some in Hrh as (Hl2 & Hf2 & -> & Hfiles2).
  cbn [args_split] in *.
  split; [done|]. split; [done|]. split; [done|]. split; [done|].
  split; [done|]. by intros hemi m [[= -> ->]|[= -> ->]].
Qed.

End PlotRunResultsExtras.

Lemma pf_div_count_0_not_finite (x : pyfloat) :
  isfinite (pf_div_count x 0) = false.
Proof. destruct x as [q| |]; [|done..]. simpl. by case_bool_decide. Qed.

Section EngineEdge.
Context {F : Type} `{Scalar F}.
Context {Imgs Model Optimizer Grads : Type}.
Variable forward : bool → Model → Imgs → list (list (list F)).
Variable criterion : list (list (list F)) → list (list (list F)) → pyfloat.
Variable zero_grad : Grads → Grads.
Variable backward : Model → Imgs → list (list (list F)) → nat → Grads → Grads.
Variable clip_grad_norm_ : pyfloat → Grads → Grads.
Variable optimizer_step : Optimizer → Model → Grads → Optimizer * Model.
Variable learning_rate : Optimizer → pyfloat.
Variable corrcoef_0_1 : list (list F) → pyfloat.

(** X23.  With a validity mask that has no valid slot the loss is a
    division by zero, never finite: [train_one_epoch] exits with status 1
    on the first batch, before any gradient is computed or parameter
    updated. *)
Theorem train_exits_without_valid_voxels (args : Args)
    (batch : Imgs * list (list (list F)))
    (rest : list (Imgs * list (list (list F)))) (epoch : Z)
    (dataset : Dataset) (max_norm : pyfloat)
    (w0 : @world Model Optimizer Grads) :
  mask_sum (mask dataset) = 0 →
  let run := train_one_epoch forward criterion zero_grad backward
               clip_grad_norm_ optimizer_step learning_rate corrcoef_0_1
               args (batch :: rest) epoch dataset max_norm w0 in
  let l := pf_div_count (criterion (forward true (model w0) batch.1) batch.2) 0 in
  isfinite l = false ∧
  run.1 = SysExit 1 ∧
  model run.2 = model w0 ∧ optimizer run.2 = optimizer w0 ∧
  grads run.2 = grads w0 ∧
  trace run.2
  = trace w0 ++ [EvMaskSum; EvForward true (grad_enabled w0);
                 EvPrint (LossIsStopping l); EvPrint (LossValue l)].
Proof.
  intros Hzero run l. split; [apply pf_div_count_0_not_finite|].
  unfold run. rewrite train_one_epoch_cases, Hzero. cbn [for_enumerate].
  unfold mbind, M_bind, bind. rewrite train_step_cases. cbn zeta.
  unfold step_loss, loss_compute. cbn [train_world training model fst snd].
  rewrite pf_div_count_0_not_finite. cbn [fst snd].
  unfold with_events, train_world. cbn [model optimizer grads trace training
                                        grad_enabled].
  by rewrite <- app_assoc.
Qed.

End EngineEdge.

(** * Worked instances over the integers *)

#[local] Existing Instance Z_Scalar.

Lemma Z_ExactScalar : ExactScalar Z.
Proof. split; simpl; intros; lia. Qed.

#[local] Existing Instance Z_ExactScalar.

(** Every integer is finite. *)
Lemma Z_FiniteScalar : FiniteScalar Z (λ _, True).
Proof. split. simpl. intros. lia. Qed.

#[local] Existing Instance Z_FiniteScalar.

#[local] Existing Instance float32_Scalar.

(** Over float32 entries, the entries that zero annihilates are the finite
    ones. *)
Lemma float32_FiniteScalar : FiniteScalar pyfloat (λ x, isfinite x = true).
Proof.
  split. intros [q| |] Hq; [|done..].
  change (overflow float32_overflow (q * 0)%Qc = Fin 0).
  rewrite Qcmult_0_r. vm_compute. reflexivity.
Qed.

Lemma overflow_in_range (threshold q : Qc) :
  (- threshold < q)%Qc → (q < threshold)%Qc → overflow threshold q = Fin q.
Proof.
  intros Hlo Hhi. unfold overflow.
  rewrite bool_decide_eq_false_2 by (by apply Qclt_not_le).
  by rewrite bool_decide_eq_false_2 by (by apply Qclt_not_le).
Qed.

(** Over float32 entries, adding zero and multiplying by one leave every
    value of a float32 tensor as it is, an infinity and NaN included. *)
Lemma float32_zero_one_laws (x : pyfloat) :
  float32_value x →
  fadd fzero x = x ∧ fadd x fzero = x ∧ fmul x fone = x.
Proof.
  destruct x as [q|s|]; [|by destruct s|done].
  intros [Hlo Hhi].
  change (overflow float32_overflow (0 + q)%Qc = Fin q ∧
          overflow float32_overflow (q + 0)%Qc = Fin q ∧
          overflow float32_overflow (q * 1)%Qc = Fin q).
  rewrite Qcplus_0_l, Qcplus_0_r, Qcmult_1_r.
  by rewrite overflow_in_range.
Qed.

Lemma toy_disjoint : pairwise_disjoint (parcels toy_dataset).
Proof.
  intros p q pp pq i Hp Hq Hi Hj.
  destruct p as [|[|p]], q as [|[|q]]; simplify_eq/=; try done; elem_cases.
Qed.

(** An infinity projected by a parcel that does not own voxel 0: over
    [toy_dataset], whose parcels are disjoint and in range, parcel 0 owns
    voxel 0 and projects 1 to it, parcel 1 projects an infinity to it; the
    mask multiplies the infinity by zero, and the readout at voxel 0 is NaN,
    not 1. *)
Lemma readout_masked_infinity :
  in_range 3 (parcels toy_dataset) ∧ pairwise_disjoint (parcels toy_dataset) ∧
  ∃ (self : brain_encoder pyfloat) pred projs,
    brain_encoder_init 1 sum_linear toy_dataset = Some self ∧
    readout self infinite_tokens = Some pred ∧
    mapM (Linear_forward (embed self)) [[Fin 1]; [Inf false]] = Some projs ∧
    projs = [[Fin 1; Fin 1; Fin 1]; [Inf false; Inf false; Inf false]] ∧
    tsum (contributions (parcels toy_dataset) projs 0) = Fin 1 ∧
    entry pred 0 0 = Some NaN.
Proof.
  split; [|split].
  - apply in_range_Forall. repeat constructor; lia.
  - exact toy_disjoint.
  - eexists _, _, _.
    split; [vm_compute; reflexivity|]. split; [vm_compute; reflexivity|].
    split; [vm_compute; reflexivity|]. split; [reflexivity|].
    split; vm_compute; reflexivity.
Qed.

(** The empty parcel list is disjoint and in range, and no mask is built
    from it: [torch.stack] rejects an empty list. *)
Lemma parcel_mask_empty_list :
  in_range 6 [] ∧ pairwise_disjoint [] ∧
  ¬ ∃ M : list (list Z), build_parcel_mask 6 [] = Some M.
Proof.
  split; [|split].
  - intros parcel i Hp. by apply elem_of_nil in Hp.
  - intros p q pp pq i Hp. done.
  - intros [M HM]. done.
Qed.

Lemma parcel_mask_columns_witness :
  [[0; 1]; [2; 3; 4]; [5]]%Z ≠ [] ∧
  in_range 6 [[0; 1]; [2; 3; 4]; [5]]%Z ∧
  pairwise_disjoint [[0; 1]; [2; 3; 4]; [5]]%Z ∧
  ∃ M : list (list Z),
    build_parcel_mask 6 [[0; 1]; [2; 3; 4]; [5]]%Z = Some M ∧
    length M = 6 ∧
    Forall (λ row, length row = 3) M ∧
    ∀ p parcel, [[0; 1]; [2; 3; 4]; [5]]%Z !! p = Some parcel →
      (∀ v, v < 6 →
         entry M v p
         = Some (if bool_decide (Z.of_nat v ∈ parcel) then fone else fzero)) ∧
      (∃ col, column M p = Some col ∧
              tsum col = of_count (length (remove_dups parcel))) ∧
      (∀ i q, i ∈ parcel → entry M (Z.to_nat i) q = Some fone ↔ q = p).
Proof.
  assert (in_range 6 [[0; 1]; [2; 3; 4]; [5]]%Z) as Hin.
  { apply in_range_Forall. repeat constructor; lia. }
  assert (pairwise_disjoint [[0; 1]; [2; 3; 4]; [5]]%Z) as Hdisj.
  { intros p q pp pq i Hp Hq Hi Hj.
    destruct p as [|[|[|p]]], q as [|[|[|q]]]; simplify_eq/=; try done;
      elem_cases. }
  split; [done|]. split; [done|]. split; [done|].
  by apply (parcel_mask_columns 6 [[0; 1]; [2; 3; 4]; [5]]%Z).
Defined.

Lemma parcel_mask_out_of_range_witness :
  (∃ parcel i, parcel ∈ [[0; 1]; [2; 6]]%Z ∧ i ∈ parcel ∧
               ¬ (0 ≤ i < Z.of_nat 6)%Z) ∧
  build_parcel_mask (F:=Z) 6 [[0; 1]; [2; 6]]%Z = None ∧
  brain_encoder_init 4
    (λ i o, {| in_features := i; out_features := o;
               weight := replicate o (replicate i 0%Z);
               bias := replicate o 0%Z |})
    {| parcels := [[0; 1]; [2; 6]]%Z; mask := []; labels := [];
       num_parcels := 2; num_hemi_voxels := 6; max_parcel_size := 2 |}
  = None.
Proof.
  assert (∃ parcel i, parcel ∈ [[0; 1]; [2; 6]]%Z ∧ i ∈ parcel ∧
                      ¬ (0 ≤ i < Z.of_nat 6)%Z) as Hout.
  { exists [2; 6]%Z, 6%Z. split; [|split]; [elem_here|elem_here|lia]. }
  split; [done|].
  by apply (parcel_mask_out_of_range 4 _
    {| parcels := [[0; 1]; [2; 6]]%Z; mask := []; labels := [];
       num_parcels := 2; num_hemi_voxels := 6; max_parcel_size := 2 |}).
Defined.

Lemma parcel_mask_binary_witness :
  in_range 3 [[0; 0; 1]; [1; 2]]%Z ∧
  is_Some (build_parcel_mask (F:=Z) 3 [[0; 0; 1]; [1; 2]]%Z) ∧
  ∀ M : list (list Z), build_parcel_mask 3 [[0; 0; 1]; [1; 2]]%Z = Some M →
    Forall (Forall (λ x, x = 0%Z ∨ x = 1%Z)) M.
Proof.
  assert (in_range 3 [[0; 0; 1]; [1; 2]]%Z) as Hin.
  { apply in_range_Forall. repeat constructor; lia. }
  split; [done|].
  destruct (parcel_mask_binary (F:=Z) 3 [[0; 0; 1]; [1; 2]]%Z Hin) as [Hs Hb].
  split; [by apply Hs|exact Hb].
Defined.

(** The readout of one sample with two tokens over [toy_dataset]: the
    projection sums the token and adds 10, and voxel 0 reads what its owner,
    parcel 0, projects to it. *)
Lemma readout_owner_sum_witness :
  ∃ (self : brain_encoder Z) (pred : list (list Z)),
    brain_encoder_init 2
      toy_new_linear
      toy_dataset = Some self ∧
    readout self [[[1; 2]; [3; 4]]]%Z = Some pred ∧
    length pred = 1 ∧
    entry pred 0 0 = Some 13%Z.
Proof.
  destruct (brain_encoder_init 2
              toy_new_linear
              toy_dataset) as [self|] eqn:Hinit; [|by vm_compute in Hinit].
  destruct (readout_owner_sum (λ _, True) 2 toy_new_linear toy_dataset self
              [[[1; 2]; [3; 4]]]%Z)
    as (pred & Hpred & Hlen & Hval); [|exact Hinit| |].
  - intros i o. unfold Linear_shape, toy_new_linear. simpl.
    rewrite !length_replicate. repeat split.
    apply Forall_forall. intros w Hw. apply elem_of_replicate in Hw as [-> _].
    by rewrite length_replicate.
  - repeat constructor.
  - exists self, pred. split; [done|]. split; [done|]. split; [done|].
    destruct (Hval 0 [[1; 2]; [3; 4]]%Z eq_refl) as (projs & Hprojs & Hv).
    destruct (Hv 0) as [_ Hown]; [simpl; lia|done|].
    injection Hinit as <-. vm_compute in Hprojs. injection Hprojs as <-.
    apply (Hown toy_disjoint 0 [0%Z] [13; 13; 13]%Z);
      [reflexivity|elem_here|reflexivity].
Defined.

Example readout_toy :
  (self ← brain_encoder_init 2
             toy_new_linear
             toy_dataset;
   readout self [[[1; 2]; [3; 4]]]%Z)
  = Some [[13; 17; 17]]%Z.
Proof. reflexivity. Qed.

(** ** Unwrapping *)

Example pack_toy :
  pack toy_dataset [[10; 11; 12]; [20; 21; 22]]%Z
  = Some [[[10; 0]; [11; 12]]; [[20; 0]; [21; 22]]]%Z.
Proof. reflexivity. Qed.

Lemma unwrap_left_inverse_witness :
  pack toy_dataset [[10; 11; 12]; [20; 21; 22]]%Z
  = Some [[[10; 0]; [11; 12]]; [[20; 0]; [21; 22]]]%Z ∧
  unwrap_fmri 2 [[[10; 0]; [11; 12]]; [[20; 0]; [21; 22]]]%Z toy_dataset 1
  = Some [[10; 11]; [20; 21]]%Z.
Proof.
  split; [reflexivity|].
  destruct (unwrap_left_inverse toy_dataset [[10; 11; 12]; [20; 21; 22]]%Z
              [[[10; 0]; [11; 12]]; [[20; 0]; [21; 22]]]%Z 1 pack_toy)
    as (lbl & Hlbl & Hun & _).
  injection Hlbl as <-. exact Hun.
Defined.

(** Two parcels that name the same voxel: the voxel is covered and is
    written twice. *)
Lemma unwrap_two_writes :
  ∃ packed log,
    pack overlap_dataset [[10; 11; 12]]%Z = Some packed ∧
    unwrap_writes 1 packed overlap_dataset = Some [log] ∧
    covered 3 overlap_dataset 0 = true ∧
    length (filter (λ w : nat * Z, w.1 = 0) log) = 2.
Proof. by exists [[[10]; [10]]]%Z, [(0, 10%Z); (0, 10%Z)]. Qed.

(** ** The loops *)

(** Three batches, the second of which diverges: the first step completes,
    the second exits, the third is never started. *)
Lemma nonfinite_loss_exits_witness :
  ∃ acc w,
    for_enumerate
      (train_step toy_forward nan_criterion toy_zero_grad toy_backward toy_clip
                  toy_optimizer_step toy_learning_rate toy_corrcoef
                  toy_args toy_dataset 0 (Fin 1) (mask_sum (mask toy_dataset))
                  (length ([toy_batch 1] ++ toy_batch 2 :: [toy_batch 3])))
      (Fin 0, Fin 0) 0 [toy_batch 1] (train_world toy_world)
    = (Returned acc, w) ∧
    isfinite (step_loss toy_forward nan_criterion (mask_sum (mask toy_dataset))
                        w (toy_batch 2)) = false ∧
    train_one_epoch toy_forward nan_criterion toy_zero_grad toy_backward
                    toy_clip toy_optimizer_step toy_learning_rate toy_corrcoef
                    toy_args [toy_batch 1; toy_batch 2; toy_batch 3] 0
                    toy_dataset (Fin 1) toy_world
    = (SysExit 1,
       with_events w [EvForward true true; EvPrint (LossIsStopping NaN);
                      EvPrint (LossValue NaN)]).
Proof.
  assert (∃ acc w,
            for_enumerate
              (train_step toy_forward nan_criterion toy_zero_grad toy_backward
                          toy_clip toy_optimizer_step toy_learning_rate
                          toy_corrcoef toy_args toy_dataset 0 (Fin 1)
                          (mask_sum (mask toy_dataset))
                          (length ([toy_batch 1] ++ toy_batch 2 :: [toy_batch 3])))
              (Fin 0, Fin 0) 0 [toy_batch 1] (train_world toy_world)
            = (Returned acc, w) ∧
            training w = true ∧ grad_enabled w = true)
    as (acc & w & Hrun & Htr & Hge).
  { eexists _, _. split; [vm_compute; reflexivity|]. by split. }
  exists acc, w. split; [exact Hrun|]. split; [reflexivity|].
  rewrite <- Htr at 1. rewrite <- Hge at 1.
  exact (proj1 (nonfinite_loss_exits toy_forward nan_criterion toy_zero_grad
                  toy_backward toy_clip toy_optimizer_step toy_learning_rate
                  toy_corrcoef toy_args toy_dataset 0 (Fin 1) [toy_batch 1]
                  [toy_batch 3] (toy_batch 2) acc toy_world w Hrun) eq_refl).
Defined.

Lemma grad_clip_iff_positive_witness :
  isfinite (step_loss toy_forward toy_criterion 3 toy_world (toy_batch 5)) = true ∧
  pf_gt0 (Fin 1) = true ∧
  grads (train_step toy_forward toy_criterion toy_zero_grad toy_backward
                    toy_clip toy_optimizer_step toy_learning_rate toy_corrcoef
                    toy_args toy_dataset 0 (Fin 1) 3 1 (Fin 0, Fin 0) 0
                    (toy_batch 5) toy_world).2
  = toy_clip (Fin 1) (toy_backward 0 5 (toy_batch 5).2 3 (toy_zero_grad 0)).
Proof.
  split; [reflexivity|]. split; [reflexivity|].
  destruct (grad_clip_iff_positive toy_forward toy_criterion toy_zero_grad
              toy_backward toy_clip toy_optimizer_step toy_learning_rate
              toy_corrcoef toy_args toy_dataset 0 (Fin 1) 3 1 (Fin 0, Fin 0) 0
              (toy_batch 5) toy_world)
    as (evs & _ & _ & Hstep & Hclip & _).
  destruct (Hclip (proj2 Hstep eq_refl)) as (_ & Hgrads & _).
  exact Hgrads.
Defined.

(** Ten batches: one full window, one report, accumulators back at zero. *)
Lemma train_reports_window_averages_witness :
  ∃ w',
    for_enumerate
      (train_step toy_forward toy_criterion toy_zero_grad toy_backward toy_clip
                  toy_optimizer_step toy_learning_rate toy_corrcoef
                  toy_args toy_dataset 0 (Fin 0) (mask_sum (mask toy_dataset)) 10)
      (Fin 0, Fin 0) 0 (toy_batch <$> [1; 2; 3; 4; 5; 6; 7; 8; 9; 10]%Z)
      toy_world
    = (Returned (Fin 0, Fin 0), w') ∧
    length (wandb_logs (trace w')) = 1.
Proof.
  assert (∃ w',
            for_enumerate
              (train_step toy_forward toy_criterion toy_zero_grad toy_backward
                          toy_clip toy_optimizer_step toy_learning_rate
                          toy_corrcoef toy_args toy_dataset 0 (Fin 0)
                          (mask_sum (mask toy_dataset)) 10)
              (Fin 0, Fin 0) 0 (toy_batch <$> [1; 2; 3; 4; 5; 6; 7; 8; 9; 10]%Z)
              toy_world
            = (Returned (Fin 0, Fin 0), w')) as [w' Hrun].
  { eexists. vm_compute. reflexivity. }
  exists w'. split; [exact Hrun|].
  destruct (train_reports_window_averages toy_forward toy_criterion
              toy_zero_grad toy_backward toy_clip toy_optimizer_step
              toy_learning_rate toy_corrcoef toy_args toy_dataset 0 (Fin 0) 10
              _ toy_world w' (Fin 0, Fin 0) Hrun) as (Hlen & Hlogs & _).
  rewrite Hlogs. unfold reports. rewrite length_app, length_fmap, length_seq, Hlen.
  reflexivity.
Defined.

Lemma evaluate_returns_stacked_witness :
  [toy_batch 1; toy_batch 2] ≠ [] ∧
  mapM (λ batch : Z * list (list (list Z)),
          unwrap_fmri (length (toy_forward false (model toy_world) batch.1))
                      (toy_forward false (model toy_world) batch.1) toy_dataset
                      (metaparcel_idx toy_args))
       [toy_batch 1; toy_batch 2]
  = Some [[[1; 1]]; [[2; 2]]]%Z ∧
  mapM (λ batch : Z * list (list (list Z)),
          unwrap_fmri (length batch.2) batch.2 toy_dataset
                      (metaparcel_idx toy_args))
       [toy_batch 1; toy_batch 2]
  = Some [[[1; 2]]; [[2; 3]]]%Z ∧
  (evaluate toy_forward toy_criterion toy_args [toy_batch 1; toy_batch 2]
            toy_dataset toy_world).1
  = Returned ([[1; 2]; [2; 3]]%Z, [[1; 1]; [2; 2]]%Z).
Proof.
  split; [done|]. split; [reflexivity|]. split; [reflexivity|].
  by rewrite (evaluate_returns_stacked toy_forward toy_criterion toy_args
                [toy_batch 1; toy_batch 2] toy_dataset toy_world
                [[[1; 1]]; [[2; 2]]]%Z [[[1; 2]]; [[2; 3]]]%Z).
Defined.

(** Two criteria whose reported losses differ at every step: [evaluate]
    returns the same pair of tensors for both, so the averaged loss is not
    part of what it returns. *)
Lemma evaluate_return_without_loss :
  (evaluate toy_forward zero_criterion toy_args [toy_batch 1; toy_batch 2]
            toy_dataset toy_world).1
  = Returned ([[1; 2]; [2; 3]]%Z, [[1; 1]; [2; 2]]%Z) ∧
  (evaluate toy_forward toy_criterion toy_args [toy_batch 1; toy_batch 2]
            toy_dataset toy_world).1
  = Returned ([[1; 2]; [2; 3]]%Z, [[1; 1]; [2; 2]]%Z) ∧
  pf_gt0 <$> meter_values "loss_labels"
               (trace (evaluate toy_forward zero_criterion toy_args
                                [toy_batch 1; toy_batch 2] toy_dataset
                                toy_world).2)
  = [false; false] ∧
  pf_gt0 <$> meter_values "loss_labels"
               (trace (evaluate toy_forward toy_criterion toy_args
                                [toy_batch 1; toy_batch 2] toy_dataset
                                toy_world).2)
  = [true; true].
Proof. repeat split; vm_compute; reflexivity. Qed.

Lemma loss_normalised_by_valid_voxels_witness :
  (evaluate toy_forward toy_criterion toy_args [toy_batch 1; toy_batch 2]
            toy_dataset toy_world).1
  = Returned ([[1; 2]; [2; 3]]%Z, [[1; 1]; [2; 2]]%Z) ∧
  meter_values "loss_labels"
    (trace (evaluate toy_forward toy_criterion toy_args
                     [toy_batch 1; toy_batch 2] toy_dataset toy_world).2)
  = [pf_div_count (Fin 1) 3; pf_div_count (Fin 1) 3].
Proof.
  split; [vm_compute; reflexivity|].
  destruct (loss_normalised_by_valid_voxels toy_forward toy_criterion
              toy_zero_grad toy_backward toy_clip toy_optimizer_step
              toy_learning_rate toy_corrcoef toy_args toy_dataset 0 (Fin 0))
    as (_ & _ & Heval & _).
  apply (Heval [toy_batch 1; toy_batch 2] toy_world _
               ([[1; 2]; [2; 3]]%Z, [[1; 1]; [2; 2]]%Z)).
  vm_compute. reflexivity.
Defined.

(** * Worked instances of the further properties *)

Lemma toy_new_linear_shape (i o : nat) :
  in_features (toy_new_linear i o) = i ∧ out_features (toy_new_linear i o) = o ∧
  Linear_shape (toy_new_linear i o).
Proof.
  unfold Linear_shape, toy_new_linear. simpl.
  rewrite !length_replicate. repeat split.
  apply Forall_forall. intros w Hw. apply elem_of_replicate in Hw as [-> _].
  by rewrite length_replicate.
Qed.

(** Reordered and repeated indices give the same mask. *)
Lemma parcel_mask_same_index_sets_witness :
  Forall2 (λ p q : list Z, ∀ i, i ∈ p ↔ i ∈ q)
          [[0; 1; 1]; [2]]%Z [[1; 0]; [2; 2]]%Z ∧
  build_parcel_mask (F:=Z) 3 [[0; 1; 1]; [2]]%Z
  = build_parcel_mask 3 [[1; 0]; [2; 2]]%Z.
Proof.
  assert (Forall2 (λ p q : list Z, ∀ i, i ∈ p ↔ i ∈ q)
                  [[0; 1; 1]; [2]]%Z [[1; 0]; [2; 2]]%Z) as Hsame.
  { constructor; [|constructor; [|constructor]];
      intros i; rewrite !elem_of_cons, !elem_of_nil; tauto. }
  split; [exact Hsame|].
  exact (parcel_mask_same_index_sets 3 _ _ Hsame).
Defined.

(** Voxel 1 of three is listed by both parcels: its row adds up to 2. *)
Lemma parcel_mask_row_counts_owners_witness :
  build_parcel_mask (F:=Z) 3 [[0; 1]; [1; 2]]%Z
  = Some [[1; 0]; [1; 1]; [0; 1]]%Z ∧
  tsum [1; 1]%Z = 2%Z.
Proof.
  assert (build_parcel_mask (F:=Z) 3 [[0; 1]; [1; 2]]%Z
          = Some [[1; 0]; [1; 1]; [0; 1]]%Z) as HM by reflexivity.
  split; [exact HM|].
  destruct (parcel_mask_row_counts_owners 3 [[0; 1]; [1; 2]]%Z
              [[1; 0]; [1; 1]; [0; 1]]%Z 1 [1; 1]%Z HM eq_refl)
    as (_ & _ & Hsum & _).
  rewrite Hsum. reflexivity.
Defined.

Lemma readout_uncovered_voxel_zero_witness :
  ∃ (self : brain_encoder Z) (pred : list (list Z)),
    brain_encoder_init 2 toy_new_linear gap_dataset = Some self ∧
    readout self [[[1; 2]; [3; 4]]]%Z = Some pred ∧
    entry pred 0 2 = Some 0%Z.
Proof.
  destruct (brain_encoder_init 2 toy_new_linear gap_dataset) as [self|] eqn:Hinit;
    [|by vm_compute in Hinit].
  destruct (readout_uncovered_voxel_zero (λ _, True) 2 toy_new_linear
              gap_dataset self [[[1; 2]; [3; 4]]]%Z toy_new_linear_shape Hinit)
    as (pred & Hpred & _ & _ & Hzero); [repeat constructor|].
  exists self, pred. split; [done|]. split; [done|].
  destruct (Hzero 0 [[1; 2]; [3; 4]]%Z eq_refl) as (projs & _ & Hv).
  apply Hv; [simpl; lia| |done].
  intros parcel Hparcel Hin. simpl in Hparcel. elem_cases; elem_cases.
Defined.

(** Changing the token of parcel 1 leaves voxel 0, which parcel 0 owns. *)
Lemma readout_depends_on_owner_tokens_witness :
  ∃ (self : brain_encoder Z) (pred pred' : list (list Z)),
    brain_encoder_init 2 toy_new_linear toy_dataset = Some self ∧
    readout self [[[1; 2]; [3; 4]]]%Z = Some pred ∧
    readout self [[[1; 2]; [7; 8]]]%Z = Some pred' ∧
    entry pred 0 0 = entry pred' 0 0.
Proof.
  destruct (brain_encoder_init 2 toy_new_linear toy_dataset) as [self|] eqn:Hinit;
    [|by vm_compute in Hinit].
  destruct (readout_depends_on_owner_tokens (λ _, True) 2 toy_new_linear
              toy_dataset self
              [[[1; 2]; [3; 4]]]%Z [[[1; 2]; [7; 8]]]%Z 0
              toy_new_linear_shape Hinit)
    as (pred & pred' & Hpred & Hpred' & _ & _ & Hsame).
  - repeat constructor.
  - repeat constructor.
  - repeat constructor. intros p parcel Hp Hin.
    destruct p as [|[|p]]; simplify_eq/=; [done|elem_cases].
  - simpl. lia.
  - exists self, pred, pred'. split; [done|]. split; [done|]. split; [done|].
    destruct (Hsame 0 [[1; 2]; [3; 4]]%Z [[1; 2]; [7; 8]]%Z eq_refl eq_refl)
      as (projs & projs' & _ & _ & Heq).
    by apply Heq.
Defined.

(** Three tokens against two parcels. *)
Lemma readout_token_count_mismatch_witness :
  ∃ self : brain_encoder Z,
    brain_encoder_init 2 toy_new_linear toy_dataset = Some self ∧
    readout self [[[1; 2]; [3; 4]; [5; 6]]]%Z = None.
Proof.
  destruct (brain_encoder_init 2 toy_new_linear toy_dataset) as [self|] eqn:Hinit;
    [|by vm_compute in Hinit].
  exists self. split; [done|].
  apply (readout_token_count_mismatch 2 toy_new_linear toy_dataset self _
           [[1; 2]; [3; 4]; [5; 6]]%Z toy_new_linear_shape Hinit);
    [simpl; lia|elem_here|simpl; lia..].
Defined.

Lemma unwrap_fmri_shape_witness :
  unwrap_fmri 2 [[[10; 0]; [11; 12]]; [[20; 0]; [21; 22]]]%Z toy_dataset 1
  = Some [[10; 11]; [20; 21]]%Z ∧
  length [[10; 11]; [20; 21]]%Z = 2 ∧
  subset_size toy_dataset 1 = 2.
Proof.
  assert (unwrap_fmri 2 [[[10; 0]; [11; 12]]; [[20; 0]; [21; 22]]]%Z
                      toy_dataset 1
          = Some [[10; 11]; [20; 21]]%Z) as Hr by reflexivity.
  split; [exact Hr|].
  destruct (unwrap_fmri_shape 2 [[[10; 0]; [11; 12]]; [[20; 0]; [21; 22]]]%Z
              toy_dataset 1 [[10; 11]; [20; 21]]%Z Hr) as [Hrows Hcols].
  split; [exact Hrows|]. apply Forall_inv in Hcols. by rewrite <- Hcols.
Defined.

(** The padding slot of parcel 0 holds 0 in one batch and 99 in the other. *)
Lemma unwrap_fmri_ignores_padding_witness :
  Forall (λ s : list (list Z), length s = 2) [[[10; 0]; [11; 12]]]%Z ∧
  Forall (λ s : list (list Z), length s = 2) [[[10; 99]; [11; 12]]]%Z ∧
  Forall2 (agree_on_valid (mask toy_dataset))
          [[[10; 0]; [11; 12]]]%Z [[[10; 99]; [11; 12]]]%Z ∧
  unwrap_fmri 1 [[[10; 0]; [11; 12]]]%Z toy_dataset 1
  = unwrap_fmri 1 [[[10; 99]; [11; 12]]]%Z toy_dataset 1.
Proof.
  assert (Forall2 (agree_on_valid (mask toy_dataset))
                  [[[10; 0]; [11; 12]]]%Z [[[10; 99]; [11; 12]]]%Z) as Hsame.
  { repeat constructor. intros p m r r' Hm Hr Hr'.
    destruct p as [|[|p]]; by simplify_eq/=. }
  split; [repeat constructor|]. split; [repeat constructor|].
  split; [exact Hsame|].
  apply (unwrap_fmri_ignores_padding 1 2); [repeat constructor..|exact Hsame].
Defined.

(** One parcel row of data against the two parcels of the dataset. *)
Lemma unwrap_fmri_skips_unpaired_parcels_witness :
  [[[10; 0]]]%Z ≠ [] ∧
  Forall (λ s : list (list Z), length s = 1) [[[10; 0]]]%Z ∧
  unwrap_fmri 1 [[[10; 0]]]%Z toy_dataset 1
  = unwrap_fmri 1 [[[10; 0]]]%Z (with_parcels toy_dataset [[0]]%Z) 1.
Proof.
  split; [done|]. split; [repeat constructor|].
  apply (unwrap_fmri_skips_unpaired_parcels 1 1 [[[10; 0]]]%Z toy_dataset 1);
    [done|repeat constructor].
Defined.

Lemma unwrap_fmri_index_out_of_range_witness :
  labels_col0 stray_dataset = Some [1; 1; 1]%Z ∧
  ¬ (- Z.of_nat 3 ≤ 7 < Z.of_nat 3)%Z ∧
  unwrap_fmri 1 [[[10]; [20]]]%Z stray_dataset 1 = None.
Proof.
  split; [reflexivity|]. split; [lia|].
  apply (unwrap_fmri_index_out_of_range 1 2 [[[10]; [20]]]%Z stray_dataset 1
           [1; 1; 1]%Z 1 [7]%Z 7);
    [reflexivity|lia|done|repeat constructor|lia|simpl; lia|reflexivity
    |elem_here|simpl; lia].
Defined.

Lemma unwrap_fmri_negative_index_wraps_witness :
  labels_col0 wrapping_dataset = Some [1; 1; 1]%Z ∧
  unwrap_fmri 1 [[[10]; [20]]]%Z wrapping_dataset 1
  = unwrap_fmri 1 [[[10]; [20]]]%Z
      (with_parcels wrapping_dataset [[0]; [2]]%Z) 1.
Proof.
  split; [reflexivity|].
  apply (unwrap_fmri_negative_index_wraps 1 [[[10]; [20]]]%Z wrapping_dataset 1
           [1; 1; 1]%Z); [reflexivity|].
  repeat constructor; simpl; lia.
Defined.

(** Both parcels of [overlap_dataset] name voxel 0: the value of the second
    stands. *)
Lemma unwrap_fmri_later_parcel_stands_witness :
  unwrap_fmri 1 [[[10]; [20]]]%Z overlap_dataset 1 = Some [[20; 0; 0]]%Z ∧
  ∃ row : list Z,
    [[20; 0; 0]]%Z !! 0 = Some (restrict [1; 1; 1]%Z 1 row) ∧
    length row = 3 ∧ row !! 0 = Some 20%Z.
Proof.
  split; [reflexivity|].
  apply (unwrap_fmri_later_parcel_stands 2 [[[10]; [20]]]%Z overlap_dataset 1
           [1; 1; 1]%Z [[20; 0; 0]]%Z 1 0 0 0 [0]%Z [true] [[10]; [20]]%Z
           [20]%Z [20]%Z 0 20%Z);
    try reflexivity.
  - repeat constructor.
  - intros k' i' Hk' _. destruct k' as [|k']; [done|].
    simpl in Hk'. by rewrite lookup_nil in Hk'.
  - intros p' idxs' i' Hp' Hidxs'. destruct p' as [|[|p']]; [lia|lia|].
    simpl in Hidxs'. by rewrite lookup_nil in Hidxs'.
Defined.

Lemma unwrap_fmri_slot_count_mismatch_witness :
  count_true [true; true; false] ≠ length [0; 1; 2]%Z ∧
  count_true [true; true; false] ≠ 1 ∧
  unwrap_fmri 1 [[[10; 11; 12]]]%Z short_mask_dataset 1 = None.
Proof.
  split; [by vm_compute|]. split; [by vm_compute|].
  apply (unwrap_fmri_slot_count_mismatch 1 1 [[[10; 11; 12]]]%Z
           short_mask_dataset 1 0 [0; 1; 2]%Z [true; true; false]);
    [lia|done|repeat constructor|lia|reflexivity|reflexivity
    |by vm_compute|by vm_compute].
Defined.

(** ** The loops *)

(** An epoch of two batches: two optimizer steps, no report. *)
Lemma train_one_epoch_full_run_witness :
  ∃ w',
    train_one_epoch toy_forward toy_criterion toy_zero_grad toy_backward
                    toy_clip toy_optimizer_step toy_learning_rate toy_corrcoef
                    toy_args [toy_batch 1; toy_batch 2] 0 toy_dataset (Fin 1)
                    toy_world
    = (Returned (), w') ∧
    training w' = true ∧
    ∃ evs, trace w' = trace toy_world ++ evs ∧ optimizer_steps evs = 2.
Proof.
  assert (∃ w',
            train_one_epoch toy_forward toy_criterion toy_zero_grad
                            toy_backward toy_clip toy_optimizer_step
                            toy_learning_rate toy_corrcoef toy_args
                            [toy_batch 1; toy_batch 2] 0 toy_dataset (Fin 1)
                            toy_world
            = (Returned (), w')) as [w' Hrun].
  { eexists. vm_compute. reflexivity. }
  exists w'. split; [exact Hrun|].
  destruct (train_one_epoch_full_run toy_forward toy_criterion toy_zero_grad
              toy_backward toy_clip toy_optimizer_step toy_learning_rate
              toy_corrcoef toy_args [toy_batch 1; toy_batch 2] 0 toy_dataset
              (Fin 1) toy_world w' Hrun)
    as (Htr & _ & evs & Hevs & Hsteps & _).
  split; [exact Htr|]. exists evs. split; [exact Hevs|exact Hsteps].
Defined.

(** A batch whose target cannot be unwrapped: the epoch raises after the
    optimizer step. *)
Lemma train_raises_after_update_witness :
  isfinite (step_loss toy_forward toy_criterion (mask_sum (mask toy_dataset))
                      (train_world toy_world) (short_batch 5)) = true ∧
  step_corr toy_forward toy_corrcoef toy_args toy_dataset
            (train_world toy_world) (short_batch 5) = None ∧
  (train_one_epoch toy_forward toy_criterion toy_zero_grad toy_backward
                   toy_clip toy_optimizer_step toy_learning_rate toy_corrcoef
                   toy_args [short_batch 5] 0 toy_dataset (Fin 1) toy_world).1
  = Raised ∧
  optimizer_steps
    (trace (train_one_epoch toy_forward toy_criterion toy_zero_grad
                            toy_backward toy_clip toy_optimizer_step
                            toy_learning_rate toy_corrcoef toy_args
                            [short_batch 5] 0 toy_dataset (Fin 1) toy_world).2)
  = 1.
Proof.
  split; [reflexivity|]. split; [reflexivity|].
  destruct (train_raises_after_update toy_forward toy_criterion toy_zero_grad
              toy_backward toy_clip toy_optimizer_step toy_learning_rate
              toy_corrcoef toy_args toy_dataset 0 (Fin 1) [] []
              (short_batch 5) (Fin 0, Fin 0) toy_world (train_world toy_world)
              eq_refl eq_refl eq_refl) as (Hrun & _ & Hsteps & _).
  cbn [app] in Hrun. rewrite Hrun. split; [done|]. cbn [snd]. by rewrite Hsteps.
Defined.

Lemma evaluate_output_shape_witness :
  ∃ ys preds w',
    evaluate toy_forward toy_criterion toy_args [toy_batch 1; toy_batch 2]
             toy_dataset toy_world
    = (Returned (ys, preds), w') ∧
    length ys = 2 ∧ length preds = 2.
Proof.
  assert (∃ ys preds w',
            evaluate toy_forward toy_criterion toy_args
                     [toy_batch 1; toy_batch 2] toy_dataset toy_world
            = (Returned (ys, preds), w')) as (ys & preds & w' & Hrun).
  { eexists _, _, _. vm_compute. reflexivity. }
  exists ys, preds, w'. split; [exact Hrun|].
  destruct (evaluate_output_shape toy_forward toy_criterion toy_args
              [toy_batch 1; toy_batch 2] toy_dataset toy_world w' ys preds Hrun)
    as (_ & Hys & Hpreds & _).
  split; [exact Hys|exact Hpreds].
Defined.

Lemma train_exits_without_valid_voxels_witness :
  mask_sum (mask empty_mask_dataset) = 0 ∧
  (train_one_epoch toy_forward toy_criterion toy_zero_grad toy_backward
                   toy_clip toy_optimizer_step toy_learning_rate toy_corrcoef
                   toy_args [toy_batch 1; toy_batch 2] 0 empty_mask_dataset
                   (Fin 1) toy_world).1
  = SysExit 1.
Proof.
  split; [reflexivity|].
  exact (proj1 (proj2 (train_exits_without_valid_voxels toy_forward
                         toy_criterion toy_zero_grad toy_backward toy_clip
                         toy_optimizer_step toy_learning_rate toy_corrcoef
                         toy_args (toy_batch 1) [toy_batch 2] 0
                         empty_mask_dataset (Fin 1) toy_world eq_refl))).
Defined.

(** ** [forward] and [test] *)

Lemma forward_returns_pred_only_witness :
  ∃ (fields : brain_encoder Z) (pred : list (list Z)),
    brain_encoder_init 2 toy_new_linear toy_dataset = Some fields ∧
    brain_encoder_forward toy_nested toy_backbone toy_decompose toy_shape
                          toy_transformer (toy_module fields) true
                          (SamplesPlain [3; 4]%Z)
    = Some [("pred"%string, Arr2 pred)] ∧
    Forall (λ row, length row = 3) pred.
Proof.
  destruct (brain_encoder_init 2 toy_new_linear toy_dataset) as [fields|]
    eqn:Hinit; [|by vm_compute in Hinit].
  destruct (brain_encoder_forward toy_nested toy_backbone toy_decompose
              toy_shape toy_transformer (toy_module fields) true
              (SamplesPlain [3; 4]%Z)) as [out|] eqn:Hout.
  - destruct (forward_returns_pred_only toy_nested toy_backbone toy_decompose
                toy_shape toy_transformer 2 toy_new_linear toy_dataset
                (toy_module fields) true (SamplesPlain [3; 4]%Z) out
                toy_new_linear_shape Hinit Hout) as (pred & -> & Hrows & _).
    by exists fields, pred.
  - exfalso. vm_compute in Hinit. injection Hinit as <-. by vm_compute in Hout.
Defined.

(** Two ROIs over three voxels, one sample. *)
Lemma roi_sum_weights_channels_witness :
  ∃ out : list (list Z),
    roi_sum [[1; 0; 1]; [0; 1; 1]]%Z [[[1; 2]; [3; 4]; [5; 6]]]%Z = Some out ∧
    entry out 0 2 = Some (dot [1; 1]%Z [5; 6]%Z).
Proof.
  destruct (roi_sum_weights_channels 3 [[1; 0; 1]; [0; 1; 1]]%Z
              [[[1; 2]; [3; 4]; [5; 6]]]%Z)
    as (out & Hout & _ & _ & Hentry); [done|repeat constructor..|].
  exists out. split; [exact Hout|].
  by apply (Hentry 0 2 [[1; 2]; [3; 4]; [5; 6]]%Z [5; 6]%Z [1; 1]%Z).
Defined.

(** ** [plot_run_results.py] *)

Lemma print_prints_only (line : string) : prints_only (print line).
Proof. intros s. by exists [line]. Qed.

Lemma suppress_print_restores_stdout_witness :
  stdout_created toy_io ∧
  sys_stdout (suppress_print (print "hidden") toy_io).2 = Terminal ∧
  lines_to Terminal (written (suppress_print (print "hidden") toy_io).2) = [].
Proof.
  split; [exact I|].
  destruct (suppress_print_restores_stdout (print "hidden") toy_io I)
    as (Hout & _ & Hlines).
  split; [exact Hout|]. exact (Hlines (print_prints_only "hidden")).
Defined.


Lemma iadd_same_length (acc val : list pyfloat) :
  length val = length acc → iadd acc val = Some (zip_with np_add acc val).
Proof. intros Hlen. unfold iadd. by rewrite broadcast_to_same. Qed.

Lemma hemi_loop_Some (get_model_dir_args : PlotArgs → string)
    (np_load : string → string → option (list pyfloat)) (finfo_max : Qc)
    (avg_or_nonavg hemi : string) (args : PlotArgs)
    (acc0 posterior anterior : list pyfloat) :
  np_load (get_model_dir_args {| args_hemi := hemi; args_axis := "posterior";
                                 args_split := args_split args |})
          (hemi ++ "_" ++ args_split args ++ "_corr_" ++ avg_or_nonavg
           ++ ".npy")%string = Some posterior →
  np_load (get_model_dir_args {| args_hemi := hemi; args_axis := "anterior";
                                 args_split := args_split args |})
          (hemi ++ "_" ++ args_split args ++ "_corr_" ++ avg_or_nonavg
           ++ ".npy")%string = Some anterior →
  length posterior = length acc0 → length anterior = length acc0 →
  foldlM (λ (st : list pyfloat * PlotArgs) (axis : string),
            let args := {| args_hemi := hemi; args_axis := axis;
                           args_split := args_split st.2 |} in
            let model_dir := get_model_dir_args args in
            val_corr ← np_load model_dir
                         (hemi ++ "_" ++ args_split args ++ "_corr_"
                          ++ avg_or_nonavg ++ ".npy")%string;
            let val_corr := nan_to_num finfo_max <$> val_corr in
            val_correlation ← iadd st.1 val_corr;
            Some (val_correlation, args))
         (acc0, args)
         ["posterior"; "anterior"]%string
  = Some (zip_with np_add
            (zip_with np_add acc0 (nan_to_num finfo_max <$> posterior))
            (nan_to_num finfo_max <$> anterior),
          {| args_hemi := hemi; args_axis := "anterior";
             args_split := args_split args |}).
Proof.
  intros Hp Ha Hlp Hla. cbn [foldlM fst snd args_split]. rewrite Hp.
  cbn [mbind option_bind fst snd args_split].
  rewrite iadd_same_length by (by rewrite length_fmap).
  cbn [mbind option_bind fst snd args_split]. rewrite Ha.
  cbn [mbind option_bind].
  rewrite iadd_same_length; [done|].
  rewrite length_fmap, length_zip_with, length_fmap. lia.
Qed.

Lemma hemi_correlation_toy (avg_or_nonavg hemi : string) (args : PlotArgs) :
  ∃ m,
    hemi_correlation toy_model_dir toy_np_load float_max avg_or_nonavg hemi args
    = Some (m, {| args_hemi := hemi; args_axis := "anterior";
                  args_split := args_split args |}).
Proof.
  eexists. unfold hemi_correlation.
  apply (hemi_loop_Some toy_model_dir toy_np_load float_max avg_or_nonavg hemi
           args (replicate num_vertices (Fin 0)) _ _ eq_refl eq_refl).
  - by rewrite !length_replicate.
  - by rewrite !length_replicate.
Qed.

Lemma val_correlations_Some (get_model_dir_args : PlotArgs → string)
    (np_load : string → string → option (list pyfloat)) (finfo_max : Qc)
    (avg_or_nonavg : string) (args a1 a2 : PlotArgs) (m1 m2 : list pyfloat) :
  hemi_correlation get_model_dir_args np_load finfo_max avg_or_nonavg "lh" args
  = Some (m1, a1) →
  hemi_correlation get_model_dir_args np_load finfo_max avg_or_nonavg "rh" a1
  = Some (m2, a2) →
  val_correlations get_model_dir_args np_load finfo_max avg_or_nonavg args
  = Some (m1, m2, a2).
Proof.
  intros H1 H2. unfold val_correlations. rewrite H1.
  cbn [mbind option_bind fst snd]. by rewrite H2.
Qed.

Lemma num_vertices_pos : 0 < num_vertices.
Proof. apply Nat.ltb_lt. vm_compute. reflexivity. Qed.

Lemma at_vertex_replicate (n i : nat) (x : pyfloat) :
  i < n → at_vertex (replicate n x) i = Some x.
Proof.
  intros Hi. destruct n as [|[|n]]; [lia|done|].
  change (at_vertex (replicate (S (S n)) x) i)
    with (replicate (S (S n)) x !! i).
  by apply lookup_replicate_2.
Qed.

(** What the loop adds up at a vertex when the stored maps are filled with
    [x] and with [y]. *)
Lemma vertex_sum_filled (n i : nat) (x y : pyfloat)
    (m posterior anterior : list pyfloat) :
  i < n →
  Some (replicate n x) = Some posterior →
  Some (replicate n y) = Some anterior →
  (∃ p a,
     at_vertex posterior i = Some p ∧ at_vertex anterior i = Some a ∧
     m !! i = Some (np_add (np_add (Fin 0) (nan_to_num float_max p))
                           (nan_to_num float_max a))) →
  m !! i = Some (np_add (np_add (Fin 0) (nan_to_num float_max x))
                        (nan_to_num float_max y)).
Proof.
  intros Hi [= <-] [= <-] (p & a & Hp & Ha & Hm).
  rewrite at_vertex_replicate in Hp, Ha by done. by simplify_eq.
Qed.

(** The stored maps of the left hemisphere are filled with NaN and with 1,
    those of the right hemisphere with infinities: the left map reads 1 at
    vertex 0, the NaN counting as zero; the right map reads an infinity, the
    sum of the two largest finite floats. *)
Lemma val_correlations_maps_witness :
  ∃ lh rh args',
    val_correlations toy_model_dir toy_np_load float_max "avg" toy_plot_args
    = Some (lh, rh, args') ∧
    length lh = num_vertices ∧ args_hemi args' = "rh"%string ∧
    lh !! 0 = Some (Fin 1) ∧ rh !! 0 = Some (Inf false).
Proof.
  destruct (hemi_correlation_toy "avg" "lh" toy_plot_args) as [m1 H1].
  destruct (hemi_correlation_toy "avg" "rh"
              {| args_hemi := "lh"; args_axis := "anterior";
                 args_split := args_split toy_plot_args |}) as [m2 H2].
  pose proof (val_correlations_Some _ _ _ _ _ _ _ _ _ H1 H2) as Hrun.
  eexists m1, m2, _. split; [exact Hrun|].
  destruct (val_correlations_maps toy_model_dir toy_np_load float_max "avg"
              toy_plot_args _ m1 m2 Hrun) as (Hlh & _ & _ & _ & _ & Hmaps).
  split; [exact Hlh|]. split; [reflexivity|]. split.
  - destruct (Hmaps "lh"%string m1 (or_introl eq_refl))
      as (posterior & anterior & Hp & Ha & _ & _ & Hsum).
    rewrite (vertex_sum_filled num_vertices 0 _ _ m1 posterior anterior
               num_vertices_pos Hp Ha (Hsum 0 num_vertices_pos)).
    vm_compute. reflexivity.
  - destruct (Hmaps "rh"%string m2 (or_intror eq_refl))
      as (posterior & anterior & Hp & Ha & _ & _ & Hsum).
    rewrite (vertex_sum_filled num_vertices 0 _ _ m2 posterior anterior
               num_vertices_pos Hp Ha (Hsum 0 num_vertices_pos)).
    vm_compute. reflexivity.
Defined.
